(** * Endpoint availability monitor: a shallow embedding of [monitor.py]

    The development follows the program top-down:

    - [Py]      the Python values the program handles (what [yaml.safe_load]
                and [json.loads] return), exceptions, and the few built-in
                operations the program applies to them;
    - [Url]     [urllib.parse.urlparse] as far as [netloc] is concerned, and
                [EndpointMonitor._extract_domain];
    - [Monitor] [DomainStats], [EndpointMonitor] with its shared statistics
                dictionary, one probe ([check_health]) both as a function and
                as the atomic steps of a worker thread, the thread pool of
                [check_all_endpoints], [log_results] and the main loop
                [monitor].

    Strings are byte strings (ASCII); counters are unbounded integers as in
    Python; elapsed times are rationals (every finite float is one, and the
    program only compares the time with [0.5] and prints it). *)

From Stdlib Require Import ZArith QArith Qround Lia Bool Ascii String DecimalString.
From stdpp Require Import base tactics option list strings.

Set Warnings "-register-all".

Local Open Scope string_scope.
Local Open Scope Z_scope.

(* ===================================================================== *)
(** * Python values and built-ins                                        *)
(* ===================================================================== *)

Module Py.

(** The values [yaml.safe_load] and [json.loads] produce.  Mapping keys are
    strings, as in every endpoint record. *)
Inductive value : Type :=
| VNone
| VBool (b : bool)
| VInt (n : Z)
| VFloat (x : Q)
| VStr (s : string)
| VList (l : list value)
| VDict (d : list (string * value)).

Inductive ExnClass : Type :=
| KeyError | TypeError | AttributeError | ValueError
| OSError | YAMLError
| JSONDecodeError     (* json.JSONDecodeError *)
| Timeout             (* requests.exceptions.Timeout *)
| RequestException    (* requests.exceptions.RequestException, not a Timeout *)
| OtherException.     (* any other subclass of Exception *)

(** An exception object: its class and [str(e)]. *)
Record Exn : Type := mkExn { exn_class : ExnClass; exn_text : string }.

(** The outcome of running a piece of Python code. *)
Inductive Result (A : Type) : Type :=
| Ok (a : A)
| Raise (e : Exn).
Arguments Ok {A} a.
Arguments Raise {A} e.

Definition bind {A B} (r : Result A) (k : A -> Result B) : Result B :=
  match r with
  | Ok a => k a
  | Raise e => Raise e
  end.

Notation "'do' x <- r ; k" := (bind r (fun x => k))
  (at level 10, x name, r at level 100, k at level 200).

(** An error raised by a built-in operation; the text of such errors is not
    modelled (no statement below reads it). *)
Definition raise {A} (c : ExnClass) : Result A := Raise (mkExn c "").

(** ** Strings *)

Definition is_upper (c : ascii) : bool :=
  let n := nat_of_ascii c in ((65 <=? n) && (n <=? 90))%nat.

Definition is_lower (c : ascii) : bool :=
  let n := nat_of_ascii c in ((97 <=? n) && (n <=? 122))%nat.

Definition is_digit (c : ascii) : bool :=
  let n := nat_of_ascii c in ((48 <=? n) && (n <=? 57))%nat.

Definition lower_char (c : ascii) : ascii :=
  if is_upper c then ascii_of_nat (nat_of_ascii c + 32) else c.

(** [s.lower()] *)
Fixpoint lower (s : string) : string :=
  match s with
  | EmptyString => EmptyString
  | String c s' => String (lower_char c) (lower s')
  end.

(** [sub in s] for strings *)
Fixpoint contains (sub s : string) : bool :=
  String.prefix sub s ||
  match s with
  | EmptyString => false
  | String _ s' => contains sub s'
  end.

(** [s.split(sep)[0]] for a one-character separator: the part of [s] before
    the first [sep], all of [s] when there is none. *)
Fixpoint split_head (sep : ascii) (s : string) : string :=
  match s with
  | EmptyString => EmptyString
  | String c s' => if Ascii.eqb c sep then EmptyString else String c (split_head sep s')
  end.

(** [str(n)] for an integer *)
Definition str_int (n : Z) : string := NilZero.string_of_int (Z.to_int n).

(** ** Truth value, iteration, subscripting *)

(** [bool(v)] *)
Definition truthy (v : value) : bool :=
  match v with
  | VNone => false
  | VBool b => b
  | VInt n => negb (n =? 0)
  | VFloat x => negb (Qeq_bool x 0)
  | VStr s => negb (String.eqb s "")
  | VList l => match l with [] => false | _ => true end
  | VDict d => match d with [] => false | _ => true end
  end.

Fixpoint chars (s : string) : list value :=
  match s with
  | EmptyString => []
  | String c s' => VStr (String c EmptyString) :: chars s'
  end.

(** [for x in v]: the items the loop visits, or the [TypeError] of a value
    that is not iterable. *)
Definition iterate (v : value) : Result (list value) :=
  match v with
  | VList l => Ok l
  | VDict d => Ok (map (fun kv => VStr (fst kv)) d)
  | VStr s => Ok (chars s)
  | _ => raise TypeError
  end.

(** [len(v)] *)
Definition len (v : value) : Result Z :=
  match v with
  | VList l => Ok (Z.of_nat (length l))
  | VDict d => Ok (Z.of_nat (length d))
  | VStr s => Ok (Z.of_nat (String.length s))
  | _ => raise TypeError
  end.

Fixpoint assoc {A} (k : string) (d : list (string * A)) : option A :=
  match d with
  | [] => None
  | (k', v) :: d' => if String.eqb k' k then Some v else assoc k d'
  end.

(** [v[k]] for a string key [k] *)
Definition getitem (v : value) (k : string) : Result value :=
  match v with
  | VDict d => match assoc k d with
               | Some x => Ok x
               | None => raise KeyError
               end
  | _ => raise TypeError    (* str and list indices must be integers; the
                               other values are not subscriptable *)
  end.

(** [v.get(k, default)]: only a dict has the method. *)
Definition get (v : value) (k : string) (default : value) : Result value :=
  match v with
  | VDict d => Ok (match assoc k d with Some x => x | None => default end)
  | _ => raise AttributeError
  end.

End Py.

(* ===================================================================== *)
(** * URLs: [urlparse(url).netloc] and [_extract_domain]                 *)
(* ===================================================================== *)

Module Url.
Import Py.

(** ** [urllib.parse.urlsplit], as far as [netloc] goes

    [urlparse] calls [urlsplit] and splits [;params] off the path afterwards,
    which leaves [netloc] alone.  The steps below are those of CPython's
    [urlsplit], with its checks of a host written between brackets;
    [_checknetloc] does nothing on an ASCII [netloc]. *)

(** [url.lstrip(_WHATWG_C0_CONTROL_OR_SPACE)] *)
Fixpoint lstrip_c0 (url : string) : string :=
  match url with
  | EmptyString => EmptyString
  | String c s => if (nat_of_ascii c <=? 32)%nat then lstrip_c0 s else url
  end.

(** [_UNSAFE_URL_BYTES_TO_REMOVE = ['\t', '\r', '\n']] *)
Definition unsafe_byte (c : ascii) : bool :=
  let n := nat_of_ascii c in ((n =? 9) || (n =? 13) || (n =? 10))%nat.

Fixpoint remove_unsafe (url : string) : string :=
  match url with
  | EmptyString => EmptyString
  | String c s => if unsafe_byte c then remove_unsafe s else String c (remove_unsafe s)
  end.

(** [scheme_chars]: letters, digits and [+-.] *)
Definition scheme_char (c : ascii) : bool :=
  is_lower c || is_upper c || is_digit c ||
  Ascii.eqb c "+" || Ascii.eqb c "-" || Ascii.eqb c ".".

Fixpoint all_chars (p : ascii -> bool) (s : string) : bool :=
  match s with
  | EmptyString => true
  | String c s' => p c && all_chars p s'
  end.

(** [i = url.find(':')] with [url[:i]] and [url[i+1:]], [None] when there is
    no colon. *)
Fixpoint partition_colon (url : string) : option (string * string) :=
  match url with
  | EmptyString => None
  | String c s =>
      if Ascii.eqb c ":" then Some (EmptyString, s)
      else match partition_colon s with
           | Some (pre, post) => Some (String c pre, post)
           | None => None
           end
  end.

(** The URL once its scheme is taken off:
    [if i > 0 and url[0].isascii() and url[0].isalpha(): for c in url[:i]:
     if c not in scheme_chars: break; else: scheme, url = ..., url[i+1:]] *)
Definition after_scheme (url : string) : string :=
  match partition_colon url with
  | Some (String c0 pre, post) =>
      if (is_lower c0 || is_upper c0) && all_chars scheme_char (String c0 pre)
      then post else url
  | _ => url
  end.

(** [_splitnetloc(url, 2)]: up to the first of [/?#] *)
Fixpoint until_delim (s : string) : string :=
  match s with
  | EmptyString => EmptyString
  | String c s' =>
      if Ascii.eqb c "/" || Ascii.eqb c "?" || Ascii.eqb c "#" then EmptyString
      else String c (until_delim s')
  end.

(** *** The host between brackets: [ipaddress] and [_check_bracketed_host] *)

(** [s.split(sep)] for a one-character separator *)
Fixpoint split (sep : ascii) (s : string) : list string :=
  match s with
  | EmptyString => [EmptyString]
  | String c s' =>
      if Ascii.eqb c sep then EmptyString :: split sep s'
      else match split sep s' with
           | part :: parts => String c part :: parts
           | [] => [String c EmptyString]
           end
  end.

(** [s.partition(sep)]: what is before and after the first [sep], [None]
    when there is none. *)
Fixpoint partition (sep : ascii) (s : string) : option (string * string) :=
  match s with
  | EmptyString => None
  | String c s' =>
      if Ascii.eqb c sep then Some (EmptyString, s')
      else match partition sep s' with
           | Some (pre, post) => Some (String c pre, post)
           | None => None
           end
  end.

(** [s.rpartition(sep)[2]]: what is after the last [sep], all of [s] when
    there is none. *)
Fixpoint after_last (sep : ascii) (s : string) : string :=
  match s with
  | EmptyString => EmptyString
  | String c s' =>
      if contains (String sep EmptyString) s' then after_last sep s'
      else if Ascii.eqb c sep then s' else s
  end.

(** [int(s)] for a string of digits *)
Fixpoint decimal (acc : N) (s : string) : N :=
  match s with
  | EmptyString => acc
  | String c s' => decimal (10 * acc + (N_of_ascii c - 48)) s'
  end.

(** [IPv4Address._parse_octet] does not raise: one to three digits, no
    leading zero, at most 255. *)
Definition octet_ok (o : string) : bool :=
  negb (String.eqb o "") && all_chars is_digit o && (String.length o <=? 3)%nat &&
  negb (negb (String.eqb o "0") && String.prefix "0" o) &&
  (decimal 0 o <=? 255)%N.

(** [IPv4Address(s)] does not raise. *)
Definition ipv4_ok (s : string) : bool :=
  negb (contains "/" s) && negb (String.eqb s "") &&
  match split "." s with
  | [a; b; c; d] => octet_ok a && octet_ok b && octet_ok c && octet_ok d
  | _ => false
  end.

(** [_HEX_DIGITS] *)
Definition is_hex (c : ascii) : bool :=
  let n := nat_of_ascii c in
  (is_digit c || ((97 <=? n) && (n <=? 102)) || ((65 <=? n) && (n <=? 70)))%nat.

(** [IPv6Address._parse_hextet] does not raise. *)
Definition hextet_ok (h : string) : bool :=
  all_chars is_hex h && (String.length h <=? 4)%nat && negb (String.eqb h "").

(** [IPv6Address._split_scope_id]: the address without its [%scope], [None]
    when it raises. *)
Definition split_scope_id (ip_str : string) : option string :=
  match partition "%" ip_str with
  | None => Some ip_str
  | Some (addr, scope_id) =>
      if String.eqb scope_id "" || contains "%" scope_id then None else Some addr
  end.

(** The indexes from [i] on at which [parts] has an empty string *)
Fixpoint empty_at (i : nat) (parts : list string) : list nat :=
  match parts with
  | [] => []
  | part :: parts' =>
      if String.eqb part "" then i :: empty_at (S i) parts' else empty_at (S i) parts'
  end.

(** [IPv6Address._ip_int_from_string] does not raise.  An IPv4 ending is
    replaced by two hextets, whose digits do not matter here. *)
Definition hextets_ok (ip_str : string) : bool :=
  if String.eqb ip_str "" then false
  else
    let parts := split ":" ip_str in
    if (length parts <? 3)%nat then false
    else
      let ending := List.last parts EmptyString in
      let converted :=
        if contains "." ending
        then if ipv4_ok ending then Some (List.removelast parts ++ ["0"; "0"])%list
             else None
        else Some parts in
      match converted with
      | None => false
      | Some parts =>
          let n := length parts in
          let first := List.hd EmptyString parts in
          let ending := List.last parts EmptyString in
          if (9 <? n)%nat then false
          else
            match empty_at 1 (List.removelast (List.tl parts)) with
            | [] =>
                (n =? 8)%nat && negb (String.eqb first "") &&
                negb (String.eqb ending "") && forallb hextet_ok parts
            | [skip_index] =>
                let parts_hi := if String.eqb first "" then (skip_index - 1)%nat
                                else skip_index in
                let parts_lo := if String.eqb ending "" then (n - skip_index - 1 - 1)%nat
                                else (n - skip_index - 1)%nat in
                (if String.eqb first "" then (parts_hi =? 0)%nat else true) &&
                (if String.eqb ending "" then (parts_lo =? 0)%nat else true) &&
                (parts_hi + parts_lo <? 8)%nat &&
                forallb hextet_ok (take parts_hi parts) &&
                forallb hextet_ok (drop (n - parts_lo) parts)
            | _ => false
            end
      end.

(** [IPv6Address(s)] does not raise. *)
Definition ipv6_ok (s : string) : bool :=
  negb (contains "/" s) &&
  match split_scope_id s with
  | Some ip_str => hextets_ok ip_str
  | None => false
  end.

(** [re.match(r"\Av[a-fA-F0-9]+\..+\Z", hostname)] *)
Definition ipvfuture_ok (hostname : string) : bool :=
  match hostname with
  | String "v" s =>
      match partition "." s with
      | Some (version, rest) =>
          negb (String.eqb version "") && all_chars is_hex version &&
          negb (String.eqb rest "") &&
          all_chars (fun c => negb (nat_of_ascii c =? 10)%nat) rest
      | None => false
      end
  | _ => false
  end.

(** [ipaddress.ip_address] tries [IPv4Address] first and [IPv6Address]
    next. *)
Definition _check_bracketed_host (hostname : string) : Result unit :=
  if String.prefix "v" hostname then
    if ipvfuture_ok hostname then Ok tt
    else Raise (mkExn ValueError "IPvFuture address is invalid")
  else if ipv4_ok hostname then
    Raise (mkExn ValueError "An IPv4 address cannot be in brackets")
  else if ipv6_ok hostname then Ok tt
  else raise ValueError.

Definition _check_bracketed_netloc (netloc : string) : Result unit :=
  let hostname_and_port := after_last "@" netloc in
  match partition "[" hostname_and_port with
  | Some (before_bracket, bracketed) =>
      (* No data is allowed before a bracket. *)
      if negb (String.eqb before_bracket "") then
        Raise (mkExn ValueError "Invalid IPv6 URL")
      else
        let '(hostname, port) :=
          match partition "]" bracketed with
          | Some (hostname, port) => (hostname, port)
          | None => (bracketed, EmptyString)
          end in
        (* No data is allowed after the bracket but before the port delimiter. *)
        if negb (String.eqb port "") && negb (String.prefix ":" port) then
          Raise (mkExn ValueError "Invalid IPv6 URL")
        else _check_bracketed_host hostname
  | None => _check_bracketed_host (split_head ":" hostname_and_port)
  end.

Definition urlparse_netloc (url : string) : Result string :=
  let url := remove_unsafe (lstrip_c0 url) in
  let url := after_scheme url in
  match url with
  | String "/" (String "/" rest) =>
      let netloc := until_delim rest in
      let lb := contains "[" netloc in
      let rb := contains "]" netloc in
      if (lb && negb rb) || (rb && negb lb)
      then Raise (mkExn ValueError "Invalid IPv6 URL")
      else if lb && rb then
             do _ <- _check_bracketed_netloc netloc;
             Ok netloc
           else Ok netloc
  | _ => Ok EmptyString
  end.

(** ** [EndpointMonitor._extract_domain]

    [urlparse] of a value that is not a [str] tries to decode it when it is
    truthy ([AttributeError]: no [decode]) and returns bytes otherwise, on
    which [.split(':')] raises [TypeError]. *)
Definition _extract_domain (url : value) : Result string :=
  match url with
  | VStr s =>
      do netloc <- urlparse_netloc s;
      Ok (split_head ":" netloc)   (* Remove port if present *)
  | _ => if truthy url then raise AttributeError else raise TypeError
  end.

End Url.

(* ===================================================================== *)
(** * The monitor                                                        *)
(* ===================================================================== *)

Module Monitor.
Import Py Url.

(** ** [DomainStats]

    The object's lock makes each of the two increments, and each read of the
    pair in [log_results], one atomic step. *)
Record DomainStats : Type := mkStats { success : Z; total : Z }.

Definition increment_total (s : DomainStats) : DomainStats :=
  mkStats (success s) (total s + 1).

Definition increment_success (s : DomainStats) : DomainStats :=
  mkStats (success s + 1) (total s).

(** ** [EndpointMonitor]

    [self.stats] is a dictionary from domains to [DomainStats] objects.  The
    objects are shared and mutated in place, so the dictionary holds
    references into a heap of objects; it keeps insertion order. *)
Abbreviation loc := nat (only parsing).

Record EndpointMonitor : Type := mkMonitor {
  endpoints : value;
  stats : list (string * loc);
  heap : list DomainStats
}.

(** [d[k] = v] on an insertion-ordered dictionary *)
Fixpoint dict_set {A} (k : string) (v : A) (d : list (string * A)) : list (string * A) :=
  match d with
  | [] => [(k, v)]
  | (k', v') :: d' =>
      if String.eqb k' k then (k', v) :: d' else (k', v') :: dict_set k v d'
  end.

(** [self.stats[domain] = DomainStats()] *)
Definition new_stats (domain : string) (m : EndpointMonitor) : EndpointMonitor :=
  mkMonitor (endpoints m)
            (dict_set domain (length (heap m)) (stats m))
            (heap m ++ [mkStats 0 0]).

(** A method call on the object at [l] *)
Definition on_object (f : DomainStats -> DomainStats) (l : loc) (m : EndpointMonitor)
  : EndpointMonitor :=
  mkMonitor (endpoints m) (stats m) (alter f l (heap m)).

(** The object a reference of the dictionary points to *)
Definition deref (m : EndpointMonitor) (l : loc) : DomainStats :=
  default (mkStats 0 0) (heap m !! l).

(** The counters of a domain, as [log_results] reads them *)
Definition counters (m : EndpointMonitor) (domain : string) : option DomainStats :=
  deref m <$> assoc domain (stats m).

(** ** What the program prints *)
Inductive Line : Type :=
| LConfigError (e : Exn)
    (* f"Error loading configuration: {e}" *)
| LStarting (n : Z)
    (* f"Starting endpoint monitoring for {len(self.endpoints)} endpoints" *)
| LSuccess (name url : value) (status_code : Z) (response_time : Q)
    (* f"SUCCESS [{name}] {url} - Status: {status_code}, Time: {response_time:.2f}ms" *)
| LTimedOut (url : value)
    (* f"Request to {url} timed out" *)
| LFailed (url : value) (e : Exn)
    (* f"Request to {url} failed: {e}" *)
| LUnexpected (url : value) (e : Exn)
    (* f"Unexpected error checking {url}: {e}" *)
| LReportHeader
    (* "\n--- Availability Report at <now> ---" *)
| LText (s : string)
    (* a line whose text is fully determined: a domain line of the report *)
| LReportEnd
    (* "-------------------------" *)
| LStopped.
    (* "\nMonitoring stopped by user" *)

(** ** Loading the configuration *)

(** How a call ends: it returns, an exception leaves it, or the process
    exits. *)
Inductive Outcome (A : Type) : Type :=
| Returns (a : A)
| Raises (e : Exn)
| Exits (code : Z).
Arguments Returns {A} a.
Arguments Raises {A} e.
Arguments Exits {A} code.

(** [_load_config], given what [open] and [yaml.safe_load] did with the
    file: the value is returned as it is. *)
Definition _load_config (loaded : Result value) : list Line * Outcome value :=
  match loaded with
  | Ok v => ([], Returns v)
  | Raise e => ([LConfigError e], Exits 1)
  end.

(** One round of the loop of [_initialize_stats] *)
Definition initialize_one (m : EndpointMonitor) (endpoint : value) : Result EndpointMonitor :=
  do url <- getitem endpoint "url";
  do domain <- _extract_domain url;
  Ok (match assoc domain (stats m) with
      | None => new_stats domain m
      | Some _ => m
      end).

Fixpoint initialize_loop (eps : list value) (m : EndpointMonitor) : Result EndpointMonitor :=
  match eps with
  | [] => Ok m
  | endpoint :: eps' =>
      do m' <- initialize_one m endpoint;
      initialize_loop eps' m'
  end.

Definition _initialize_stats (m : EndpointMonitor) : Result EndpointMonitor :=
  do eps <- iterate (endpoints m);
  initialize_loop eps m.

(** [EndpointMonitor(config_file)] *)
Definition __init__ (loaded : Result value) : list Line * Outcome EndpointMonitor :=
  match _load_config loaded with
  | (printed, Returns v) =>
      match _initialize_stats (mkMonitor v [] []) with
      | Ok m => (printed, Returns m)
      | Raise e => (printed, Raises e)
      end
  | (printed, Raises e) => (printed, Raises e)
  | (printed, Exits code) => (printed, Exits code)
  end.

(** ** One probe: [check_health] *)

(** The locals of [check_health] once lines 60-65 have run *)
Record Frame : Type := mkFrame {
  endpoint : value;
  url : value;
  method : value;
  headers : value;
  body : value;
  domain : string
}.

Definition locals (endpoint : value) : Result Frame :=
  do url <- getitem endpoint "url";
  do method <- get endpoint "method" (VStr "GET");
  do headers <- get endpoint "headers" (VDict []);
  do body <- get endpoint "body" (VStr "");
  do domain <- _extract_domain url;
  Ok (mkFrame endpoint url method headers body domain).

(** [k in v] for a string [k] *)
Definition member (k : string) (v : value) : Result bool :=
  match v with
  | VDict d => Ok (match assoc k d with Some _ => true | None => false end)
  | VList l => Ok (existsb (fun x => match x with VStr s => String.eqb s k | _ => false end) l)
  | VStr s => Ok (contains k s)
  | _ => raise TypeError
  end.

(** [v.lower()] *)
Definition str_lower (v : value) : Result string :=
  match v with
  | VStr s => Ok (lower s)
  | _ => raise AttributeError
  end.

(** ['content-type' in headers and 'json' in headers['content-type'].lower()] *)
Definition json_flagged (headers : value) : Result bool :=
  do present <- member "content-type" headers;
  if present then
    do content_type <- getitem headers "content-type";
    do lowered <- str_lower content_type;
    Ok (contains "json" lowered)
  else Ok false.

Definition is_dict (v : value) : bool :=
  match v with VDict _ => true | _ => false end.

(** The arguments of [requests.request] *)
Record Request : Type := mkRequest {
  req_method : value;
  req_url : value;
  req_headers : value;
  req_json : value;
  req_data : value;
  req_timeout : Q
}.

Record Response : Type := mkResponse { status_code : Z }.

Section Probe.

(** [json.loads] on a string: the parsed value, or the exception it raises.
    That is [json.JSONDecodeError] for text that is not JSON; it can be
    another one, as [RecursionError] for brackets nested too deep or
    [ValueError] for an integer with too many digits. *)
Variable json_loads : string -> Result value.

(** [except json.JSONDecodeError], line 77 *)
Definition is_decode_error (e : Exn) : bool :=
  match exn_class e with JSONDecodeError => true | _ => false end.

(** [try: data = json.loads(body) except json.JSONDecodeError: data = body];
    an exception of another class is not caught here.  Anything but a string
    is a [TypeError] of [json.loads]. *)
Definition loads_or_raw (body : value) : Result value :=
  match body with
  | VStr s =>
      match json_loads s with
      | Ok parsed => Ok parsed
      | Raise e => if is_decode_error e then Ok body else Raise e
      end
  | _ => raise TypeError
  end.

(** Lines 73-80: the local [data] *)
Definition payload (f : Frame) : Result value :=
  if truthy (body f) then
    do flagged <- json_flagged (headers f);
    if flagged then loads_or_raw (body f) else Ok (body f)
  else Ok VNone.

(** Lines 84-91 *)
Definition build_request (f : Frame) (data : value) : Request :=
  mkRequest (method f) (url f) (headers f)
            (if is_dict data then data else VNone)
            (if negb (is_dict data) then data else VNone)
            (1 # 2).

(** Line 95, with [response_time] in seconds *)
Definition meets_criteria (status : Z) (response_time : Q) : bool :=
  (200 <=? status) && (status <? 300) && Qle_bool response_time (1 # 2).

(** The [except] clauses, lines 99-104, in their order *)
Definition except_line (url : value) (e : Exn) : Line :=
  match exn_class e with
  | Timeout => LTimedOut url
  | RequestException => LFailed url e
  | _ => LUnexpected url e
  end.

(** [requests.request] together with the clock around it: a response and the
    measured [response_time], or the exception raised. *)
Definition Transport : Type := Request -> Result (Response * Q).

(** What is shared between the threads: the monitor and standard output. *)
Record World : Type := mkWorld { mon : EndpointMonitor; out : list Line }.

Definition print (l : Line) (w : World) : World := mkWorld (mon w) (out w ++ [l]).

(** Lines 73-92: the payload, the request and its timing *)
Definition attempt (send : Transport) (f : Frame) : Result (Response * Q) :=
  do data <- payload f;
  send (build_request f data).

(** The [try] block, lines 72-97: the world it leaves and whether it raised *)
Definition try_block (send : Transport) (f : Frame) (w : World) : World * Result unit :=
  match attempt send f with
  | Raise e => (w, Raise e)
  | Ok (response, response_time) =>
      if meets_criteria (status_code response) response_time then
        match get (endpoint f) "name" (url f) with
        | Raise e => (w, Raise e)
        | Ok name =>
            let w := print (LSuccess name (url f) (status_code response) response_time) w in
            match assoc (domain f) (stats (mon w)) with
            | None => (w, raise KeyError)
            | Some l => (mkWorld (on_object increment_success l (mon w)) (out w), Ok tt)
            end
        end
      else (w, Ok tt)
  end.

(** [check_health] run from start to end without another thread in between.
    The second component is the exception that leaves the call, if any. *)
Definition check_health (send : Transport) (w : World) (endpoint : value)
  : World * option Exn :=
  match locals endpoint with
  | Raise e => (w, Some e)
  | Ok f =>
      let w := match assoc (domain f) (stats (mon w)) with
               | None => mkWorld (new_stats (domain f) (mon w)) (out w)
               | Some _ => w
               end in
      match assoc (domain f) (stats (mon w)) with
      | None => (w, Some (mkExn KeyError ""))
      | Some l =>
          let w := mkWorld (on_object increment_total l (mon w)) (out w) in
          match try_block send f w with
          | (w, Ok _) => (w, None)
          | (w, Raise e) => (print (except_line (url f) e) w, None)
          end
      end
  end.

(** ** A probe as a worker thread

    The same code cut at its accesses to what the threads share: the
    dictionary [self.stats], the [DomainStats] objects (one step per locked
    method call), the network and standard output. *)
Inductive Thread : Type :=
| TCall (endpoint : value)            (* submitted; lines 60-65 to run *)
| TCheck (f : Frame)                  (* line 66: [domain not in self.stats] *)
| TCreate (f : Frame)                 (* line 67: [self.stats[domain] = DomainStats()] *)
| TLookup (f : Frame)                 (* line 69: [self.stats[domain]] *)
| TIncTotal (f : Frame) (l : loc)     (* line 69: [.increment_total()] *)
| TRequest (f : Frame)                (* lines 73-92 *)
| TPrintSuccess (f : Frame) (response : Response) (response_time : Q)   (* line 96 *)
| TLookupSuccess (f : Frame)          (* line 97: [self.stats[domain]] *)
| TIncSuccess (f : Frame) (l : loc)   (* line 97: [.increment_success()] *)
| TExcept (f : Frame) (e : Exn)       (* lines 99-104 *)
| TDone (raised : option Exn).        (* returned, or left by an exception *)

Definition tstep (send : Transport) (w : World) (t : Thread) : World * Thread :=
  match t with
  | TCall endpoint =>
      match locals endpoint with
      | Ok f => (w, TCheck f)
      | Raise e => (w, TDone (Some e))
      end
  | TCheck f =>
      match assoc (domain f) (stats (mon w)) with
      | None => (w, TCreate f)
      | Some _ => (w, TLookup f)
      end
  | TCreate f => (mkWorld (new_stats (domain f) (mon w)) (out w), TLookup f)
  | TLookup f =>
      match assoc (domain f) (stats (mon w)) with
      | Some l => (w, TIncTotal f l)
      | None => (w, TDone (Some (mkExn KeyError "")))
      end
  | TIncTotal f l => (mkWorld (on_object increment_total l (mon w)) (out w), TRequest f)
  | TRequest f =>
      match attempt send f with
      | Ok (response, response_time) =>
          if meets_criteria (status_code response) response_time
          then (w, TPrintSuccess f response response_time)
          else (w, TDone None)
      | Raise e => (w, TExcept f e)
      end
  | TPrintSuccess f response response_time =>
      match get (endpoint f) "name" (url f) with
      | Ok name =>
          (print (LSuccess name (url f) (status_code response) response_time) w,
           TLookupSuccess f)
      | Raise e => (w, TExcept f e)
      end
  | TLookupSuccess f =>
      match assoc (domain f) (stats (mon w)) with
      | Some l => (w, TIncSuccess f l)
      | None => (w, TExcept f (mkExn KeyError ""))
      end
  | TIncSuccess f l => (mkWorld (on_object increment_success l (mon w)) (out w), TDone None)
  | TExcept f e => (print (except_line (url f) e) w, TDone None)
  | TDone raised => (w, TDone raised)
  end.

Definition done (t : Thread) : bool :=
  match t with TDone _ => true | _ => false end.

(** A thread run on its own for [n] steps *)
Fixpoint run_thread (send : Transport) (n : nat) (w : World) (t : Thread) : World * Thread :=
  match n with
  | O => (w, t)
  | S n' => let '(w', t') := tstep send w t in run_thread send n' w' t'
  end.

(** ** The thread pool of [check_all_endpoints]

    Any worker that is not done may take the next step, with whatever the
    network answers at that moment.  (The executor starts the tasks in order
    and runs a bounded number at a time; every schedule it can produce is one
    of these.) *)
Inductive pool_step (i : nat) : World * list Thread -> World * list Thread -> Prop :=
| pool_step_at send w ts t w' t' :
    ts !! i = Some t ->
    done t = false ->
    tstep send w t = (w', t') ->
    pool_step i (w, ts) (w', <[i := t']> ts).

(** All tasks of a batch, run one after the other *)
Fixpoint run_batch (send : Transport) (w : World) (eps : list value) : World :=
  match eps with
  | [] => w
  | endpoint :: eps' => run_batch send (fst (check_health send w endpoint)) eps'
  end.

(** The pool run under a given schedule: the workers named in [sched] take
    one step each, in that order. *)
Fixpoint run_schedule (send : Transport) (sched : list nat) (w : World) (ts : list Thread)
  : World * list Thread :=
  match sched with
  | [] => (w, ts)
  | i :: sched' =>
      match ts !! i with
      | Some t =>
          if done t then run_schedule send sched' w ts
          else let '(w', t') := tstep send w t in
               run_schedule send sched' w' (<[i := t']> ts)
      | None => run_schedule send sched' w ts
      end
  end.

(** ** [log_results] *)

(** [round(x)] on a float: to the nearest integer, a tie to the even one *)
Definition py_round (x : Q) : Z :=
  let f := Qfloor x in
  match Qcompare (x - inject_Z f) (1 # 2) with
  | Lt => f
  | Gt => f + 1
  | Eq => if Z.even f then f else f + 1
  end.

(** [int(round(100 * stat.success / stat.total)) if stat.total > 0 else 0].
    The quotient of the two integers is taken exactly.  Python rounds it to
    a float first; as long as [total] stays below 2^45 the float lies on the
    same side of every half-integer as the exact quotient, so [round] gives
    the same integer. *)
Definition percentage (stat : DomainStats) : Z :=
  if total stat >? 0
  then py_round (inject_Z (100 * success stat) / inject_Z (total stat))
  else 0.

Definition report_line (domain : string) (stat : DomainStats) : string :=
  domain ++ " has " ++ str_int (percentage stat) ++ "% availability ("
         ++ str_int (success stat) ++ "/" ++ str_int (total stat)
         ++ " successful requests)".

Definition report (m : EndpointMonitor) : list Line :=
  [LReportHeader]
  ++ map (fun item => LText (report_line (fst item) (deref m (snd item)))) (stats m)
  ++ [LReportEnd].

Definition log_results (w : World) : World :=
  mkWorld (mon w) (out w ++ report (mon w)).

(** ** The main loop: [monitor]

    The main thread is at one of these points; the workers of the current
    batch run beside it. *)
Inductive PC : Type :=
| AtStart      (* line 122, before the count is printed *)
| AtFanout     (* lines 126 and 132: about to call [check_all_endpoints] *)
| AtJoin       (* in [check_all_endpoints], waiting for the executor to shut down *)
| AtReport     (* lines 127 and 133: about to call [log_results] *)
| AtSleep      (* line 131 *)
| Stopped      (* [monitor] has returned *)
| Aborted.     (* an exception has left [monitor] *)

Record Config : Type := mkConfig { pc : PC; world : World; pool : list Thread }.

Inductive Label : Type :=
| Start                (* the endpoint count is logged *)
| Submit               (* a fanout pass begins: one task per endpoint is submitted *)
| Work (i : nat)       (* worker [i] takes a step *)
| Join                 (* every task is done: the fanout pass returns *)
| Report               (* [log_results] *)
| Sleep (seconds : Z)  (* [time.sleep] *)
| Interrupt            (* [KeyboardInterrupt] reaches the main thread *)
| Crash.               (* another exception leaves [monitor] *)

Definition in_try (p : PC) : bool :=
  match p with
  | AtFanout | AtJoin | AtReport | AtSleep => true
  | _ => false
  end.

Inductive step : Config -> Label -> Config -> Prop :=
| step_start w ts n :
    len (endpoints (mon w)) = Ok n ->
    step (mkConfig AtStart w ts) Start (mkConfig AtFanout (print (LStarting n) w) ts)
| step_start_raises w ts e :
    len (endpoints (mon w)) = Raise e ->
    step (mkConfig AtStart w ts) Crash (mkConfig Aborted w ts)
| step_submit w ts eps :
    iterate (endpoints (mon w)) = Ok eps ->
    step (mkConfig AtFanout w ts) Submit (mkConfig AtJoin w (map TCall eps))
| step_submit_raises w ts e :
    iterate (endpoints (mon w)) = Raise e ->
    step (mkConfig AtFanout w ts) Crash (mkConfig Aborted w ts)
| step_work p w ts w' ts' i :
    pool_step i (w, ts) (w', ts') ->
    step (mkConfig p w ts) (Work i) (mkConfig p w' ts')
| step_join w ts :
    forallb done ts = true ->
    step (mkConfig AtJoin w ts) Join (mkConfig AtReport w ts)
| step_report w ts :
    step (mkConfig AtReport w ts) Report (mkConfig AtSleep (log_results w) ts)
| step_sleep w ts :
    step (mkConfig AtSleep w ts) (Sleep 15) (mkConfig AtFanout w ts)
| step_interrupt p w ts :
    in_try p = true ->
    step (mkConfig p w ts) Interrupt (mkConfig Stopped (print LStopped w) ts)
| step_interrupt_early w ts :
    step (mkConfig AtStart w ts) Interrupt (mkConfig Aborted w ts).

(** Runs of the program, with the labels of their steps in order *)
Inductive exec : Config -> list Label -> Config -> Prop :=
| exec_nil c : exec c [] c
| exec_snoc c tr c' l c'' : exec c tr c' -> step c' l c'' -> exec c (tr ++ [l]) c''.

(** [monitor.monitor()] is called on a freshly built monitor *)
Definition initial (m : EndpointMonitor) (printed : list Line) : Config :=
  mkConfig AtStart (mkWorld m printed) [].

(* ===================================================================== *)
(** * Notions the statements are made of                                 *)
(* ===================================================================== *)

(** The references of the dictionary point to objects, one per domain. *)
Record wf (m : EndpointMonitor) : Prop := mkWf {
  wf_bound : forall d l, assoc d (stats m) = Some l -> (l < length (heap m))%nat;
  wf_inj : forall d d' l,
      assoc d (stats m) = Some l -> assoc d' (stats m) = Some l -> d = d'
}.

(** An endpoint the probe can work on: lines 60-65 run through, and the
    domain has its entry in [self.stats]. *)
Definition probeable (m : EndpointMonitor) (ep : value) : Prop :=
  exists f, locals ep = Ok f /\ is_Some (assoc (domain f) (stats m)).

(** A monitor as [__init__] leaves it: every configured endpoint can be
    probed. *)
Record ready (m : EndpointMonitor) : Prop := mkReady {
  ready_wf : wf m;
  ready_endpoints : exists eps, iterate (endpoints m) = Ok eps /\ Forall (probeable m) eps
}.

(** The name printed on a success line: [endpoint.get('name', url)] *)
Definition display_name (f : Frame) : value :=
  match get (endpoint f) "name" (url f) with
  | Ok name => name
  | Raise _ => url f
  end.

(** The counters of a domain before its first probe are those of a new
    object. *)
Definition before (m : EndpointMonitor) (d : string) : DomainStats :=
  default (mkStats 0 0) (counters m d).

(** What a probe does to the shared state, by the way the [try] block ends *)
Definition probe_effect (send : Transport) (f : Frame) (w w' : World) : Prop :=
  match attempt send f with
  | Ok (response, response_time) =>
      if meets_criteria (status_code response) response_time then
        counters (mon w') (domain f)
          = Some (increment_success (increment_total (before (mon w) (domain f)))) /\
        out w' = (out w ++ [LSuccess (display_name f) (url f)
                                     (status_code response) response_time])%list
      else
        counters (mon w') (domain f) = Some (increment_total (before (mon w) (domain f))) /\
        out w' = out w
  | Raise e =>
      counters (mon w') (domain f) = Some (increment_total (before (mon w) (domain f))) /\
      out w' = (out w ++ [except_line (url f) e])%list
  end.

Inductive pool_exec : World * list Thread -> World * list Thread -> Prop :=
| pool_exec_refl c : pool_exec c c
| pool_exec_step c c' c'' i : pool_exec c c' -> pool_step i c' c'' -> pool_exec c c''.

(** The object an endpoint's probes count on *)
Definition loc_of (m : EndpointMonitor) (ep : value) : option loc :=
  match locals ep with
  | Ok f => assoc (domain f) (stats m)
  | Raise _ => None
  end.

(** [tracks m ep t]: thread [t] is somewhere in [check_health(ep)], the
    dictionary being that of [m] all along. *)
Definition tracks (m : EndpointMonitor) (ep : value) (t : Thread) : Prop :=
  exists f l, locals ep = Ok f /\ assoc (domain f) (stats m) = Some l /\
    match t with
    | TCall ep' => ep' = ep
    | TCheck f' | TLookup f' | TRequest f' | TPrintSuccess f' _ _
    | TLookupSuccess f' | TExcept f' _ => f' = f
    | TCreate _ => False
    | TIncTotal f' l' | TIncSuccess f' l' => f' = f /\ l' = l
    | TDone raised => raised = None
    end.

(** The attempt of the probe has been recorded. *)
Definition counted (t : Thread) : bool :=
  match t with
  | TRequest _ | TPrintSuccess _ _ _ | TLookupSuccess _ | TIncSuccess _ _
  | TExcept _ _ | TDone _ => true
  | _ => false
  end.

(** Recorded, and the probe may still record a success. *)
Definition in_flight (t : Thread) : bool :=
  match t with
  | TRequest _ | TPrintSuccess _ _ _ | TLookupSuccess _ | TIncSuccess _ _ => true
  | _ => false
  end.

Definition weight (p : Thread -> bool) (m : EndpointMonitor) (l : loc)
           (ep : value) (t : Thread) : Z :=
  if bool_decide (loc_of m ep = Some l) && p t then 1 else 0.

(** How many threads of the pool that count on object [l] satisfy [p] *)
Fixpoint tally (p : Thread -> bool) (m : EndpointMonitor) (l : loc)
         (eps : list value) (ts : list Thread) : Z :=
  match eps, ts with
  | ep :: eps', t :: ts' => weight p m l ep t + tally p m l eps' ts'
  | _, _ => 0
  end.

(** The state of a batch, [m0] being the monitor when the batch began:
    nothing but the counters has changed, every thread is at a sound point
    of its probe, and the counters account for the threads one by one. *)
Record pool_inv (m0 : EndpointMonitor) (eps : list value)
       (w : World) (ts : list Thread) : Prop := mkPoolInv {
  pi_endpoints : endpoints (mon w) = endpoints m0;
  pi_stats : stats (mon w) = stats m0;
  pi_length : length (heap (mon w)) = length (heap m0);
  pi_tracks : Forall2 (tracks m0) eps ts;
  pi_counts : forall l s0, heap m0 !! l = Some s0 ->
      exists s, heap (mon w) !! l = Some s /\
        total s = total s0 + tally counted m0 l eps ts /\
        success s0 <= success s /\
        success s + tally in_flight m0 l eps ts
          <= success s0 + tally counted m0 l eps ts
}.

(** No object has more successes than attempts. *)
Definition heap_ok (m : EndpointMonitor) : Prop :=
  Forall (fun s => 0 <= success s <= total s) (heap m).

(** What holds of every configuration the program reaches, [m] being the
    monitor [__init__] built: the dictionary and the objects are those of
    [m], and the pool is a sound batch over some earlier state [m0]. *)
Definition main_inv (m : EndpointMonitor) (c : Config) : Prop :=
  exists m0 eps,
    wf m0 /\ heap_ok m0 /\
    endpoints m0 = endpoints m /\ stats m0 = stats m /\
    length (heap m0) = length (heap m) /\
    pool_inv m0 eps (world c) (pool c).

(** The domain line 65 derives for an endpoint *)
Definition domain_of (ep : value) : option string :=
  match locals ep with
  | Ok f => Some (domain f)
  | Raise _ => None
  end.

(** The number of endpoints of a batch whose domain is [d] *)
Fixpoint probes_of (d : string) (eps : list value) : Z :=
  match eps with
  | [] => 0
  | ep :: eps' => (if bool_decide (domain_of ep = Some d) then 1 else 0) + probes_of d eps'
  end.

(** A bound on the steps a worker has left *)
Definition fuel (t : Thread) : nat :=
  match t with
  | TCall _ => 9 | TCheck _ => 8 | TCreate _ => 7 | TLookup _ => 6
  | TIncTotal _ _ => 5 | TRequest _ => 4 | TPrintSuccess _ _ _ => 3
  | TLookupSuccess _ => 2 | TIncSuccess _ _ => 1 | TExcept _ _ => 1
  | TDone _ => 0
  end%nat.

Definition is_work (l : Label) : bool :=
  match l with Work _ => true | _ => false end.

(** What the main thread did, in order *)
Definition main_labels (tr : list Label) : list Label :=
  List.filter (fun l => negb (is_work l)) tr.

(** One fanout pass, its report, and the wait that follows *)
Definition round : list Label := [Submit; Join; Report; Sleep 15].

Fixpoint rounds (n : nat) : list Label :=
  match n with
  | O => []
  | S n' => round ++ rounds n'
  end.

(** Where the main thread is, against what it has done so far *)
Definition shape (p : PC) (ml : list Label) : Prop :=
  match p with
  | AtStart => ml = []
  | AtFanout => exists n, ml = Start :: rounds n
  | AtJoin => exists n, ml = Start :: rounds n ++ [Submit]
  | AtReport => exists n, ml = Start :: rounds n ++ [Submit; Join]
  | AtSleep => exists n, ml = Start :: rounds n ++ [Submit; Join; Report]
  | Stopped =>
      exists n part,
        ml = Start :: rounds n ++ part ++ [Interrupt] /\
        (part = [] \/ part = [Submit] \/ part = [Submit; Join] \/
         part = [Submit; Join; Report])
  | Aborted => ml = [Interrupt]
  end.

(** The test of line 74 on a headers mapping: the key is looked up as it is
    written, the value is lowered. *)
Definition flagged_as_json (hs : list (string * value)) : bool :=
  match assoc "content-type" hs with
  | Some (VStr v) => contains "json" (lower v)
  | _ => false
  end.

(** The local [data] for a string body under a headers mapping, or the
    exception that leaves lines 73-80 *)
Definition payload_of (hs : list (string * value)) (b : string) : Result value :=
  if String.eqb b "" then Ok VNone
  else if flagged_as_json hs then
         match json_loads b with
         | Ok parsed => Ok parsed
         | Raise e => if is_decode_error e then Ok (VStr b) else Raise e
         end
       else Ok (VStr b).

(** The payload as the specification words it: a header whose name is
    [content-type] in any letter case and whose value contains [json]. *)
Definition spec_flagged (hs : list (string * value)) : bool :=
  existsb (fun kv => String.eqb (lower (fst kv)) "content-type" &&
                     match snd kv with
                     | VStr v => contains "json" v
                     | _ => false
                     end) hs.

(** The local [data] as the specification words it: whenever the body does
    not parse, the raw string *)
Definition spec_payload (hs : list (string * value)) (b : string) : value :=
  if String.eqb b "" then VNone
  else if spec_flagged hs then
         match json_loads b with
         | Ok parsed => parsed
         | Raise _ => VStr b
         end
       else VStr b.

(** Header values are strings, the body is a string. *)
Definition typed_frame (f : Frame) (hs : list (string * value)) (b : string) : Prop :=
  headers f = VDict hs /\ body f = VStr b /\
  forall k v, In (k, v) hs -> exists s, v = VStr s.

(** The percentage as the specification words it: the quotient
    [100 * succeeded / attempted] rounded to the nearest integer, a tie going
    to the even neighbour; [0] when nothing was attempted. *)
Definition nearest_even (n d : Z) : Z :=
  let q := n / d in
  let r := n mod d in
  if 2 * r <? d then q
  else if d <? 2 * r then q + 1
  else if Z.even q then q else q + 1.

Definition spec_percentage (succeeded attempted : Z) : Z :=
  if attempted >? 0 then nearest_even (100 * succeeded) attempted else 0.

(* ===================================================================== *)
(** * A small configuration to run things on                             *)
(* ===================================================================== *)

(** [n] opening brackets *)
Definition brackets (n : N) : string := N.iter n (String "[") EmptyString.

(** The opening brackets a text starts with *)
Fixpoint depth (s : string) : N :=
  match s with
  | String "[" s' => N.succ (depth s')
  | _ => 0%N
  end.

(** A decoder that knows the empty object, gives up as [json.loads] does on
    arrays opened a hundred thousand deep, and takes nothing else for JSON *)
Definition sample_loads (s : string) : Result value :=
  if String.eqb s "{}" then Ok (VDict [])
  else if (100000 <=? depth s)%N
       then Raise (mkExn OtherException
                         "maximum recursion depth exceeded while decoding a JSON array from a unicode string")
       else Raise (mkExn JSONDecodeError "").

(** An endpoint with a name, and one without on another port of the host *)
Definition endpoint_up : value :=
  VDict [("name", VStr "up"); ("url", VStr "https://example.com/up")].

Definition endpoint_down : value :=
  VDict [("url", VStr "http://example.com:8080/down")].

(** Two endpoints on [example.com] *)
Definition sample_config : value := VList [endpoint_up; endpoint_down].

(** The first answers 200 in 100 ms, the other 500. *)
Definition sample_send : Transport :=
  fun r => match req_url r with
           | VStr "https://example.com/up" => Ok (mkResponse 200, 100 # 1000)
           | _ => Ok (mkResponse 500, 100 # 1000)
           end.

(** A transport that always times out *)
Definition send_timeout : Transport :=
  fun _ => Raise (mkExn Timeout "timed out").

(** The monitor [__init__] builds from [sample_config] *)
Definition sample_monitor : EndpointMonitor :=
  mkMonitor sample_config [("example.com", 0%nat)] [mkStats 0 0].

(** The locals of their probes *)
Definition frame_up : Frame :=
  mkFrame endpoint_up (VStr "https://example.com/up") (VStr "GET") (VDict []) (VStr "")
          "example.com".

Definition frame_down : Frame :=
  mkFrame endpoint_down (VStr "http://example.com:8080/down") (VStr "GET") (VDict [])
          (VStr "") "example.com".

(** A frame for a POST with a body and the given headers *)
Definition frame_with (hs : list (string * value)) (b : string) : Frame :=
  mkFrame (VDict [("url", VStr "https://example.com/body"); ("method", VStr "POST");
                  ("headers", VDict hs); ("body", VStr b)])
          (VStr "https://example.com/body") (VStr "POST") (VDict hs) (VStr b)
          "example.com".

(* ===================================================================== *)
(** * Shapes of configurations and of URLs                               *)
(* ===================================================================== *)

(** A list of endpoint mappings *)
Definition list_of_mappings (v : value) : bool :=
  match v with
  | VList l => forallb is_dict l
  | _ => false
  end.

(** A character a plain host name may have: printable, and none of the
    delimiters of a URL. *)
Definition host_char (c : ascii) : bool :=
  (32 <? nat_of_ascii c)%nat &&
  negb (Ascii.eqb c ":" || Ascii.eqb c "/" || Ascii.eqb c "?" || Ascii.eqb c "#" ||
        Ascii.eqb c "[" || Ascii.eqb c "]" || Ascii.eqb c "@").

(** Safe for every step of [urlparse_netloc] up to the end of [netloc] *)
Definition netloc_char (c : ascii) : bool :=
  negb (unsafe_byte c) &&
  negb (Ascii.eqb c "/" || Ascii.eqb c "?" || Ascii.eqb c "#" ||
        Ascii.eqb c "[" || Ascii.eqb c "]").

(** The characters that end [netloc] *)
Definition delimiter (c : ascii) : bool :=
  Ascii.eqb c "/" || Ascii.eqb c "?" || Ascii.eqb c "#".

(** A path, query or fragment: empty, or starting with its delimiter *)
Definition tail_ok (s : string) : bool :=
  match s with
  | EmptyString => true
  | String c _ => delimiter c
  end.

(* ===================================================================== *)
(** * The rest of the program and the notions of its properties          *)
(* ===================================================================== *)

(** [main], from the parsed command line to the call of
    [monitor.monitor()]: [loaded] is what [open] and [yaml.safe_load] make
    of the file named on the command line. *)
Definition main (loaded : Result value) : list Line * Outcome Config :=
  match __init__ loaded with
  | (printed, Returns m) => (printed, Returns (initial m printed))
  | (printed, Raises e) => (printed, Raises e)
  | (printed, Exits code) => (printed, Exits code)
  end.

(** Line 49: [self._extract_domain(endpoint['url'])] *)
Definition endpoint_domain (endpoint : value) : Result string :=
  do url <- getitem endpoint "url";
  _extract_domain url.

(** [d in keys] *)
Definition known (d : string) (keys : list string) : bool :=
  existsb (String.eqb d) keys.

(** The domains of [ds] not among [seen], each where it first occurs *)
Fixpoint first_seen (seen ds : list string) : list string :=
  match ds with
  | [] => []
  | d :: ds' =>
      if known d seen then first_seen seen ds'
      else d :: first_seen (seen ++ [d]) ds'
  end.

(** What a domain never has: the colon and the characters that end
    [netloc] *)
Definition domain_char (c : ascii) : bool :=
  negb (Ascii.eqb c ":" || delimiter c).

(** Not a slash *)
Definition not_slash (c : ascii) : bool := negb (Ascii.eqb c "/").

(** A value [in] can be asked of: a mapping, a list or a string *)
Definition is_container (v : value) : bool :=
  match v with
  | VDict _ | VList _ | VStr _ => true
  | _ => false
  end.

(** How many fanout passes have returned *)
Fixpoint joins (tr : list Label) : Z :=
  match tr with
  | [] => 0
  | Join :: tr' => 1 + joins tr'
  | _ :: tr' => joins tr'
  end.

(** A SUCCESS line for a URL of domain [d] *)
Definition success_line_of (d : string) (l : Line) : bool :=
  match l with
  | LSuccess _ u _ _ =>
      match _extract_domain u with
      | Ok d' => String.eqb d' d
      | Raise _ => false
      end
  | _ => false
  end.

(** How many such lines have been printed *)
Fixpoint logged (d : string) (printed : list Line) : Z :=
  match printed with
  | [] => 0
  | l :: printed' => (if success_line_of d l then 1 else 0) + logged d printed'
  end.

(** The success line is printed, the success not yet counted. *)
Definition pending (t : Thread) : bool :=
  match t with
  | TLookupSuccess _ | TIncSuccess _ _ => true
  | _ => false
  end.

(** The success counters against the SUCCESS lines *)
Definition log_ok (m0 : EndpointMonitor) (eps : list value) (w : World) (ts : list Thread)
  : Prop :=
  forall d l s,
    assoc d (stats m0) = Some l -> heap (mon w) !! l = Some s ->
    success s + tally pending m0 l eps ts = logged d (out w).

(** Where the main thread is, against the batch in the pool ([batch], begun
    when [before] passes had returned) and the passes returned so far *)
Definition phase (eps : list value) (p : PC) (batch : list value) (before now : Z)
           (ts : list Thread) : Prop :=
  match p with
  | AtStart => batch = [] /\ before = 0 /\ now = 0
  | AtFanout =>
      forallb done ts = true /\
      ((batch = [] /\ before = 0 /\ now = 0) \/ (batch = eps /\ now = before + 1))
  | AtJoin => batch = eps /\ now = before
  | AtReport | AtSleep => batch = eps /\ forallb done ts = true /\ now = before + 1
  | Stopped | Aborted => True
  end.

(** The books of the running monitor: [m] is the monitor [__init__] built,
    [eps] its endpoints, [tr] the steps taken so far. *)
Definition acct (m : EndpointMonitor) (eps : list value) (tr : list Label) (c : Config)
  : Prop :=
  exists m0 batch before,
    wf m0 /\ stats m0 = stats m /\ endpoints m0 = endpoints m /\
    pool_inv m0 batch (world c) (pool c) /\
    (forall d l s0, assoc d (stats m) = Some l -> heap m0 !! l = Some s0 ->
                    total s0 = before * probes_of d eps) /\
    log_ok m0 batch (world c) (pool c) /\
    phase eps (pc c) batch before (joins tr) (pool c).

(** ** Running the program along given labels

    [run_label send c l] is the configuration after the step labelled [l]
    from [c], the transport being [send], when the program can take it. *)
Definition run_label (send : Transport) (c : Config) (l : Label) : option Config :=
  let '(mkConfig p w ts) := c in
  match l, p with
  | Start, AtStart =>
      match len (endpoints (mon w)) with
      | Ok n => Some (mkConfig AtFanout (print (LStarting n) w) ts)
      | Raise _ => None
      end
  | Crash, AtStart =>
      match len (endpoints (mon w)) with
      | Ok _ => None
      | Raise _ => Some (mkConfig Aborted w ts)
      end
  | Submit, AtFanout =>
      match iterate (endpoints (mon w)) with
      | Ok eps => Some (mkConfig AtJoin w (map TCall eps))
      | Raise _ => None
      end
  | Crash, AtFanout =>
      match iterate (endpoints (mon w)) with
      | Ok _ => None
      | Raise _ => Some (mkConfig Aborted w ts)
      end
  | Work i, _ =>
      match ts !! i with
      | Some t =>
          if done t then None
          else let '(w', t') := tstep send w t in Some (mkConfig p w' (<[i := t']> ts))
      | None => None
      end
  | Join, AtJoin => if forallb done ts then Some (mkConfig AtReport w ts) else None
  | Report, AtReport => Some (mkConfig AtSleep (log_results w) ts)
  | Sleep seconds, AtSleep =>
      if Z.eqb seconds 15 then Some (mkConfig AtFanout w ts) else None
  | Interrupt, AtStart => Some (mkConfig Aborted w ts)
  | Interrupt, _ =>
      if in_try p then Some (mkConfig Stopped (print LStopped w) ts) else None
  | _, _ => None
  end.

Fixpoint run_labels (send : Transport) (c : Config) (ls : list Label) : option Config :=
  match ls with
  | [] => Some c
  | l :: ls' =>
      match run_label send c l with
      | Some c' => run_labels send c' ls'
      | None => None
      end
  end.

(** The first pass over [sample_config], the two probes interleaved, up to
    the point where the report is due *)
Definition sample_trace : list Label :=
  [Start; Submit;
   Work 0; Work 1; Work 0; Work 1; Work 0; Work 1; Work 0; Work 1; Work 0; Work 1;
   Work 0; Work 0; Work 0;
   Join]%nat.

Definition sample_pass : Config :=
  default (initial sample_monitor [])
          (run_labels sample_send (initial sample_monitor []) sample_trace).

(** ** Whose line is it

    The lines a probe prints, lines 96 and 100-104, name its URL. *)
Definition line_url (l : Line) : option value :=
  match l with
  | LSuccess _ u _ _ | LTimedOut u | LFailed u _ | LUnexpected u _ => Some u
  | _ => None
  end.

Definition probe_line (l : Line) : bool :=
  match line_url l with Some _ => true | None => false end.

(** The lines of [printed] that are no probe's, in order *)
Definition main_lines (printed : list Line) : list Line :=
  List.filter (fun l => negb (probe_line l)) printed.

(** The main thread is past line 122. *)
Definition entered (p : PC) : bool :=
  match p with AtStart | Aborted => false | _ => true end.

(** How many times the main thread called [log_results] along [tr] *)
Definition reports (tr : list Label) : nat :=
  length (List.filter (fun l => match l with Report => true | _ => false end) tr).

(** The locals of a worker, once it has them *)
Definition frame_of (t : Thread) : option Frame :=
  match t with
  | TCheck f | TCreate f | TLookup f | TIncTotal f _ | TRequest f
  | TPrintSuccess f _ _ | TLookupSuccess f | TIncSuccess f _ | TExcept f _ => Some f
  | TCall _ | TDone _ => None
  end.

(** A worker of a pass over [eps]: it was submitted with one of them. *)
Definition works_on (eps : list value) (t : Thread) : Prop :=
  match t with
  | TCall ep => In ep eps
  | TDone _ => True
  | _ => exists ep f, In ep eps /\ locals ep = Ok f /\ frame_of t = Some f
  end.

(* ===================================================================== *)
(** * Facts about the dictionary and the heap                            *)
(* ===================================================================== *)

Lemma assoc_dict_set_eq {A} (k : string) (v : A) d :
  assoc k (dict_set k v d) = Some v.
Proof.
  induction d as [|[k' v'] d IH]; simpl.
  - by rewrite String.eqb_refl.
  - destruct (String.eqb_spec k' k) as [->|Hne]; simpl.
    + by rewrite String.eqb_refl.
    + destruct (String.eqb_spec k' k); [done|]. exact IH.
Qed.

Lemma assoc_dict_set_ne {A} (k k' : string) (v : A) d :
  k <> k' -> assoc k' (dict_set k v d) = assoc k' d.
Proof.
  intros Hne. induction d as [|[k0 v0] d IH]; simpl.
  - destruct (String.eqb_spec k k'); [done|reflexivity].
  - destruct (String.eqb_spec k0 k) as [->|Hk0]; simpl.
    + destruct (String.eqb_spec k k'); [done|reflexivity].
    + destruct (String.eqb_spec k0 k'); [reflexivity|exact IH].
Qed.

Lemma wf_fresh v : wf (mkMonitor v [] []).
Proof. split; simpl; intros; discriminate. Qed.

Lemma wf_new_stats d m :
  wf m -> assoc d (stats m) = None -> wf (new_stats d m).
Proof.
  intros [Hb Hi] Hnone. split; simpl.
  - intros d' l. rewrite length_app; simpl.
    destruct (decide (d = d')) as [<-|Hne].
    + rewrite assoc_dict_set_eq. intros [= <-]. lia.
    + rewrite assoc_dict_set_ne by done. intros H%Hb. lia.
  - intros d1 d2 l.
    destruct (decide (d = d1)) as [<-|Hne1], (decide (d = d2)) as [<-|Hne2];
      rewrite ?assoc_dict_set_eq, ?assoc_dict_set_ne by done; try done.
    + intros [= <-] H%Hb. lia.
    + intros H%Hb [= <-]. lia.
    + apply Hi.
Qed.

Lemma wf_on_object g l m : wf m -> wf (on_object g l m).
Proof.
  intros [Hb Hi]. split; simpl; [|exact Hi].
  intros d l' H. rewrite length_alter. eauto.
Qed.

Lemma counters_new_stats_eq d m :
  counters (new_stats d m) d = Some (mkStats 0 0).
Proof.
  unfold counters, deref; simpl. rewrite assoc_dict_set_eq; simpl.
  by rewrite lookup_app_r, Nat.sub_diag.
Qed.

Lemma counters_new_stats_ne d d' m :
  wf m -> d <> d' -> counters (new_stats d m) d' = counters m d'.
Proof.
  intros [Hb _] Hne. unfold counters, deref; simpl.
  rewrite assoc_dict_set_ne by done.
  destruct (assoc d' (stats m)) as [l|] eqn:Hl; [simpl|done].
  by rewrite lookup_app_l by eauto.
Qed.

Lemma counters_on_object_eq g l d m :
  wf m -> assoc d (stats m) = Some l ->
  counters (on_object g l m) d = g <$> counters m d.
Proof.
  intros [Hb _] Hl. unfold counters, deref, on_object; cbn [stats heap]. rewrite Hl; simpl.
  rewrite list_lookup_alter_eq.
  destruct (heap m !! l) eqn:Hh; simpl; [done|].
  apply lookup_ge_None in Hh. apply Hb in Hl. lia.
Qed.

Lemma counters_on_object_ne g l d d' m :
  wf m -> assoc d (stats m) = Some l -> d <> d' ->
  counters (on_object g l m) d' = counters m d'.
Proof.
  intros [_ Hi] Hl Hne. unfold counters, deref; simpl.
  destruct (assoc d' (stats m)) as [l'|] eqn:Hl'; [simpl|done].
  rewrite list_lookup_alter_ne; [done|].
  intros ->. apply Hne. eauto.
Qed.

(* ===================================================================== *)
(** * What [__init__] establishes                                        *)
(* ===================================================================== *)

Lemma initialize_one_inv m ep m' :
  initialize_one m ep = Ok m' ->
  exists f, locals ep = Ok f /\
    m' = match assoc (domain f) (stats m) with
         | None => new_stats (domain f) m
         | Some _ => m
         end.
Proof.
  unfold initialize_one, locals.
  destruct (getitem ep "url") as [u|] eqn:Hu; simpl; [|done].
  destruct ep; simpl in Hu; try discriminate. simpl.
  destruct (_extract_domain u) as [dm|] eqn:Hd; simpl; [|done].
  intros [= <-]. eexists; split; [reflexivity|]. reflexivity.
Qed.

Lemma probeable_mono m m' ep :
  (forall d, is_Some (assoc d (stats m)) -> is_Some (assoc d (stats m'))) ->
  probeable m ep -> probeable m' ep.
Proof. intros Hsub (f & Hf & Hin). exists f; eauto. Qed.

Lemma initialize_loop_inv eps : forall m m',
  initialize_loop eps m = Ok m' ->
  wf m ->
  wf m' /\ endpoints m' = endpoints m /\
  (forall d, is_Some (assoc d (stats m)) -> is_Some (assoc d (stats m'))) /\
  (Forall (fun s => s = mkStats 0 0) (heap m) -> Forall (fun s => s = mkStats 0 0) (heap m')) /\
  Forall (probeable m') eps.
Proof.
  induction eps as [|ep eps IH]; simpl; intros m m' Hrun Hwf.
  - injection Hrun as <-. split_and!; auto.
  - destruct (initialize_one m ep) as [m1|] eqn:H1; simpl in Hrun; [|done].
    apply initialize_one_inv in H1 as (f & Hf & ->).
    set (m1 := match assoc (domain f) (stats m) with
               | None => new_stats (domain f) m
               | Some _ => m
               end) in *.
    assert (Hwf1 : wf m1).
    { subst m1. destruct (assoc (domain f) (stats m)) eqn:Ha; [done|].
      by apply wf_new_stats. }
    assert (Hin1 : is_Some (assoc (domain f) (stats m1))).
    { subst m1. destruct (assoc (domain f) (stats m)) eqn:Ha; [by rewrite Ha|].
      simpl. rewrite assoc_dict_set_eq. eauto. }
    assert (Hsub1 : forall d, is_Some (assoc d (stats m)) -> is_Some (assoc d (stats m1))).
    { subst m1. destruct (assoc (domain f) (stats m)) eqn:Ha; [done|].
      intros d Hd. simpl. destruct (decide (domain f = d)) as [<-|Hne].
      - rewrite assoc_dict_set_eq. eauto.
      - by rewrite assoc_dict_set_ne. }
    assert (Hz1 : Forall (fun s => s = mkStats 0 0) (heap m) ->
                  Forall (fun s => s = mkStats 0 0) (heap m1)).
    { subst m1. destruct (assoc (domain f) (stats m)); [done|].
      intros Hz. simpl. apply Forall_app; split; [done|]. by constructor. }
    assert (He1 : endpoints m1 = endpoints m).
    { subst m1. by destruct (assoc (domain f) (stats m)). }
    destruct (IH m1 m' Hrun Hwf1) as (Hwf' & He & Hsub & Hz & Hall).
    split_and!; auto.
    + congruence.
    + constructor; [|done]. exists f. split; [done|]. by apply Hsub.
Qed.

Lemma init_ready loaded printed m :
  __init__ loaded = (printed, Returns m) ->
  ready m /\ loaded = Ok (endpoints m) /\ printed = [] /\
  Forall (fun s => s = mkStats 0 0) (heap m).
Proof.
  unfold __init__, _load_config, _initialize_stats.
  destruct loaded as [v|e]; [|done]. simpl.
  destruct (iterate v) as [eps|] eqn:Hit; simpl; [|done].
  destruct (initialize_loop eps (mkMonitor v [] [])) as [m'|] eqn:Hloop; [|done].
  intros [= <- <-].
  destruct (initialize_loop_inv _ _ _ Hloop (wf_fresh v)) as (Hwf & He & _ & Hz & Hall).
  simpl in He. split_and!; auto.
  - split; [done|]. exists eps. rewrite He. auto.
  - by rewrite He.
Qed.

(* ===================================================================== *)
(** * One probe, run on its own                                          *)
(* ===================================================================== *)

Lemma locals_inv ep f :
  locals ep = Ok f ->
  exists d u, ep = VDict d /\ endpoint f = ep /\ assoc "url" d = Some u /\ url f = u /\
              _extract_domain u = Ok (domain f).
Proof.
  unfold locals. destruct ep; try discriminate. simpl.
  destruct (assoc "url" d) as [u|] eqn:Hu; simpl; [|done].
  destruct (_extract_domain u) as [dm|] eqn:Hd; simpl; [|done].
  intros [= <-]. simpl. exists d, u. split_and!; auto.
Qed.

Lemma get_name ep f :
  locals ep = Ok f -> get (endpoint f) "name" (url f) = Ok (display_name f).
Proof.
  intros (d & u & -> & He & _)%locals_inv. unfold display_name. rewrite He. reflexivity.
Qed.

Lemma check_health_spec send w ep f :
  wf (mon w) ->
  locals ep = Ok f ->
  exists w',
    check_health send w ep = (w', None) /\
    wf (mon w') /\
    endpoints (mon w') = endpoints (mon w) /\
    (forall d, is_Some (assoc d (stats (mon w))) -> is_Some (assoc d (stats (mon w')))) /\
    (forall d, d <> domain f -> counters (mon w') d = counters (mon w) d) /\
    probe_effect send f w w'.
Proof.
  intros Hwf Hf. unfold check_health, probe_effect. rewrite Hf.
  set (w1 := match assoc (domain f) (stats (mon w)) with
             | None => mkWorld (new_stats (domain f) (mon w)) (out w)
             | Some _ => w
             end).
  assert (H1 : wf (mon w1) /\ endpoints (mon w1) = endpoints (mon w) /\ out w1 = out w /\
               (forall d, is_Some (assoc d (stats (mon w))) -> is_Some (assoc d (stats (mon w1)))) /\
               (forall d, d <> domain f -> counters (mon w1) d = counters (mon w) d) /\
               exists l, assoc (domain f) (stats (mon w1)) = Some l /\
                         counters (mon w1) (domain f) = Some (before (mon w) (domain f))).
  { subst w1. unfold before.
    destruct (assoc (domain f) (stats (mon w))) as [l|] eqn:Ha.
    - split_and!; auto. exists l. split; [done|]. unfold counters. by rewrite Ha.
    - simpl. split_and!; auto.
      + by apply wf_new_stats.
      + intros d Hd. destruct (decide (domain f = d)) as [<-|Hne].
        * rewrite assoc_dict_set_eq. eauto.
        * by rewrite assoc_dict_set_ne.
      + intros d Hd. by apply counters_new_stats_ne.
      + eexists. split; [apply assoc_dict_set_eq|].
        rewrite counters_new_stats_eq. unfold counters. by rewrite Ha. }
  clearbody w1. destruct H1 as (Hwf1 & He1 & Ho1 & Hsub1 & Hoth1 & l & Hl & Hc1).
  rewrite Hl.
  set (w2 := mkWorld (on_object increment_total l (mon w1)) (out w1)).
  assert (Hwf2 : wf (mon w2)) by (by apply wf_on_object).
  assert (Hl2 : assoc (domain f) (stats (mon w2)) = Some l) by done.
  assert (Hc2 : counters (mon w2) (domain f)
                = Some (increment_total (before (mon w) (domain f)))).
  { subst w2; simpl. rewrite (counters_on_object_eq _ _ _ _ Hwf1 Hl), Hc1. done. }
  assert (Hoth2 : forall d, d <> domain f -> counters (mon w2) d = counters (mon w) d).
  { intros d Hd. subst w2; simpl.
    rewrite (counters_on_object_ne _ _ _ _ _ Hwf1 Hl) by done. auto. }
  unfold try_block. rewrite (get_name _ _ Hf).
  destruct (attempt send f) as [[response response_time]|e].
  - destruct (meets_criteria (status_code response) response_time).
    + cbn [print mon out]. rewrite Hl2.
      eexists; split; [reflexivity|]. cbn [mon out].
      split_and!; auto.
      * by apply wf_on_object.
      * intros d Hd. rewrite (counters_on_object_ne _ _ _ _ _ Hwf2 Hl2) by done. auto.
      * rewrite (counters_on_object_eq _ _ _ _ Hwf2 Hl2), Hc2. done.
      * subst w2; simpl. by rewrite Ho1.
    + eexists; split; [reflexivity|]. split_and!; auto.
  - eexists; split; [reflexivity|]. cbn [print mon out]. split_and!; auto.
    subst w2; simpl. by rewrite Ho1.
Qed.

(** The worker thread left alone is [check_health]. *)
Lemma run_thread_check_health send w ep :
  run_thread send 10 w (TCall ep)
  = (fst (check_health send w ep), TDone (snd (check_health send w ep))).
Proof.
  unfold check_health, try_block. cbn [run_thread tstep].
  destruct (locals ep) as [f|e]; [|reflexivity].
  destruct (attempt send f) as [[response response_time]|e] eqn:Hat;
    [destruct (meets_criteria (status_code response) response_time) eqn:Hm;
     [destruct (get (endpoint f) "name" (url f)) as [name|e] eqn:Hn|]|];
    (destruct (assoc (domain f) (stats (mon w))) as [l|] eqn:Ha;
     repeat (cbn [tstep mon out stats on_object print new_stats fst snd];
             rewrite ?Ha, ?Hat, ?Hm, ?Hn, ?assoc_dict_set_eq);
     reflexivity).
Qed.

(* ===================================================================== *)
(** * A batch of probes run concurrently                                 *)
(* ===================================================================== *)

Lemma tally_insert p m l eps : forall ts i ep t t',
  eps !! i = Some ep -> ts !! i = Some t ->
  tally p m l eps (<[i := t']> ts)
  = tally p m l eps ts - weight p m l ep t + weight p m l ep t'.
Proof.
  induction eps as [|e eps IH]; intros ts i ep t t' He Ht; [done|].
  destruct ts as [|t0 ts]; [done|].
  destruct i as [|i]; simpl in *.
  - injection He as ->. injection Ht as ->. lia.
  - rewrite (IH ts i ep t t') by done. lia.
Qed.

Lemma weight_other p m l l' ep t :
  loc_of m ep = Some l -> l <> l' -> weight p m l' ep t = 0.
Proof.
  intros H Hne. unfold weight. rewrite H.
  rewrite bool_decide_eq_false_2; [done|]. congruence.
Qed.

Lemma weight_same p m l ep t :
  loc_of m ep = Some l -> weight p m l ep t = if p t then 1 else 0.
Proof. intros H. unfold weight. rewrite H. by rewrite bool_decide_eq_true_2. Qed.

Lemma weight_range p m l ep t : 0 <= weight p m l ep t <= 1.
Proof. unfold weight. destruct (_ && _); lia. Qed.

Lemma tally_le p q m l eps : forall ts,
  (forall t, p t = true -> q t = true) ->
  0 <= tally p m l eps ts <= tally q m l eps ts.
Proof.
  induction eps as [|e eps IH]; intros ts Hpq; simpl; [lia|].
  destruct ts as [|t ts]; [lia|].
  specialize (IH ts Hpq).
  assert (0 <= weight p m l e t <= weight q m l e t); [|lia].
  unfold weight. destruct (bool_decide _); simpl; [|lia].
  destruct (p t) eqn:Hp; [rewrite (Hpq _ Hp); lia|]. destruct (q t); lia.
Qed.

Lemma tally_fresh p m l eps :
  (forall ep, p (TCall ep) = false) -> tally p m l eps (map TCall eps) = 0.
Proof.
  intros Hp. induction eps as [|e eps IH]; simpl; [done|].
  rewrite IH. unfold weight. rewrite Hp, andb_false_r. done.
Qed.

Lemma pool_inv_fresh w eps :
  wf (mon w) -> Forall (probeable (mon w)) eps ->
  pool_inv (mon w) eps w (map TCall eps).
Proof.
  intros Hwf Hall. split; auto.
  - induction Hall as [|ep eps (f & Hf & [l Hl]) _ IH]; simpl; constructor; [|done].
    exists f, l. auto.
  - intros l s0 Hs0. exists s0. rewrite !tally_fresh by done. split_and!; auto; lia.
Qed.

Lemma tracks_insert m0 eps ts i ep t' :
  Forall2 (tracks m0) eps ts -> eps !! i = Some ep -> tracks m0 ep t' ->
  Forall2 (tracks m0) eps (<[i := t']> ts).
Proof.
  intros Hall Hep Ht'. rewrite <- (list_insert_id eps i ep Hep).
  by apply Forall2_insert.
Qed.

(** A step that leaves the monitor alone and does not record anything *)
Lemma pool_inv_local m0 eps w ts i ep t t' w' :
  pool_inv m0 eps w ts ->
  eps !! i = Some ep -> ts !! i = Some t ->
  mon w' = mon w ->
  tracks m0 ep t' ->
  counted t' = counted t ->
  (in_flight t' = true -> in_flight t = true) ->
  pool_inv m0 eps w' (<[i := t']> ts).
Proof.
  intros [He Hs Hlen Htr Hc] Hep Ht Hmon Ht' Hcnt Hfl.
  split; rewrite ?Hmon; auto.
  - eapply tracks_insert; eauto.
  - intros l s0 Hs0. destruct (Hc l s0 Hs0) as (s & Hh & Htot & Hmono & Hsuc).
    exists s. rewrite !(tally_insert _ _ _ _ _ _ _ _ _ Hep Ht).
    assert (weight counted m0 l ep t' = weight counted m0 l ep t)
      by (unfold weight; by rewrite Hcnt).
    assert (weight in_flight m0 l ep t' <= weight in_flight m0 l ep t).
    { unfold weight. destruct (bool_decide _); simpl; [|lia].
      destruct (in_flight t') eqn:E; [rewrite Hfl by done; lia|].
      destruct (in_flight t); lia. }
    split_and!; auto; lia.
Qed.

(** The two locked increments *)
Lemma pool_inv_total m0 eps w ts i ep f l :
  wf m0 ->
  pool_inv m0 eps w ts ->
  eps !! i = Some ep -> ts !! i = Some (TIncTotal f l) ->
  locals ep = Ok f -> assoc (domain f) (stats m0) = Some l ->
  pool_inv m0 eps (mkWorld (on_object increment_total l (mon w)) (out w))
           (<[i := TRequest f]> ts).
Proof.
  intros Hwf [He Hs Hlen Htr Hc] Hep Ht Hf Hl.
  assert (Hloc : loc_of m0 ep = Some l) by (unfold loc_of; by rewrite Hf).
  split; cbn [mon on_object endpoints stats heap]; auto.
  - by rewrite length_alter.
  - eapply tracks_insert; eauto. exists f, l. auto.
  - intros l' s0 Hs0. destruct (Hc l' s0 Hs0) as (s & Hh & Htot & Hmono & Hsuc).
    rewrite !(tally_insert _ _ _ _ _ _ _ _ _ Hep Ht).
    destruct (decide (l = l')) as [<-|Hne].
    + exists (increment_total s). rewrite list_lookup_alter_eq, Hh.
      rewrite !(weight_same _ _ _ _ _ Hloc). simpl. split_and!; auto; lia.
    + exists s. rewrite list_lookup_alter_ne by done.
      rewrite !(weight_other _ _ _ _ _ _ Hloc Hne). split_and!; auto; lia.
Qed.

Lemma pool_inv_success m0 eps w ts i ep f l :
  wf m0 ->
  pool_inv m0 eps w ts ->
  eps !! i = Some ep -> ts !! i = Some (TIncSuccess f l) ->
  locals ep = Ok f -> assoc (domain f) (stats m0) = Some l ->
  pool_inv m0 eps (mkWorld (on_object increment_success l (mon w)) (out w))
           (<[i := TDone None]> ts).
Proof.
  intros Hwf [He Hs Hlen Htr Hc] Hep Ht Hf Hl.
  assert (Hloc : loc_of m0 ep = Some l) by (unfold loc_of; by rewrite Hf).
  split; cbn [mon on_object endpoints stats heap]; auto.
  - by rewrite length_alter.
  - eapply tracks_insert; eauto. exists f, l. auto.
  - intros l' s0 Hs0. destruct (Hc l' s0 Hs0) as (s & Hh & Htot & Hmono & Hsuc).
    rewrite !(tally_insert _ _ _ _ _ _ _ _ _ Hep Ht).
    destruct (decide (l = l')) as [<-|Hne].
    + exists (increment_success s). rewrite list_lookup_alter_eq, Hh.
      rewrite !(weight_same _ _ _ _ _ Hloc) in *. simpl in *. split_and!; auto; lia.
    + exists s. rewrite list_lookup_alter_ne by done.
      rewrite !(weight_other _ _ _ _ _ _ Hloc Hne). split_and!; auto; lia.
Qed.

(** Every step of a worker keeps the batch sound: in particular no probe
    ever reaches line 67. *)
Lemma pool_inv_step m0 eps w ts w' ts' i :
  wf m0 ->
  pool_inv m0 eps w ts ->
  pool_step i (w, ts) (w', ts') ->
  pool_inv m0 eps w' ts'.
Proof.
  intros Hwf Hinv Hstep.
  inversion Hstep as [send w0 ts0 t w1 t' Ht Hrun Hts]; subst.
  destruct (Forall2_lookup_r _ _ _ _ _ (pi_tracks _ _ _ _ Hinv) Ht)
    as (ep & Hep & f & l & Hf & Hl & Hshape).
  assert (Hl' : assoc (domain f) (stats (mon w)) = Some l)
    by (by rewrite (pi_stats _ _ _ _ Hinv)).
  destruct t; simpl in Hshape, Hrun, Hts; try done.
  - (* TCall *)
    subst endpoint0. rewrite Hf in Hts. injection Hts as <- <-.
    eapply pool_inv_local; eauto. exists f, l; auto.
  - (* TCheck *)
    subst f0. rewrite Hl' in Hts. injection Hts as <- <-.
    eapply pool_inv_local; eauto. exists f, l; auto.
  - (* TLookup *)
    subst f0. rewrite Hl' in Hts. injection Hts as <- <-.
    eapply pool_inv_local; eauto. exists f, l; auto.
  - (* TIncTotal *)
    destruct Hshape as [-> ->]. injection Hts as <- <-.
    eapply pool_inv_total; eauto.
  - (* TRequest *)
    subst f0.
    destruct (attempt send f) as [[response response_time]|e];
      [destruct (meets_criteria (status_code response) response_time)|];
      injection Hts as <- <-;
      (eapply pool_inv_local; eauto; [exists f, l; auto]).
  - (* TPrintSuccess *)
    subst f0. rewrite (get_name _ _ Hf) in Hts. injection Hts as <- <-.
    eapply pool_inv_local; eauto. exists f, l; auto.
  - (* TLookupSuccess *)
    subst f0. rewrite Hl' in Hts. injection Hts as <- <-.
    eapply pool_inv_local; eauto. exists f, l; auto.
  - (* TIncSuccess *)
    destruct Hshape as [-> ->]. injection Hts as <- <-.
    eapply pool_inv_success; eauto.
  - (* TExcept *)
    subst f0. injection Hts as <- <-.
    eapply pool_inv_local; eauto. exists f, l; auto.
Qed.

Lemma pool_inv_exec m0 eps c c' :
  wf m0 ->
  pool_exec c c' ->
  pool_inv m0 eps (fst c) (snd c) ->
  pool_inv m0 eps (fst c') (snd c').
Proof.
  intros Hwf Hex. induction Hex as [c|c c' c'' i _ IH Hstep]; intros Hinv; [done|].
  destruct c' as [w' ts'], c'' as [w'' ts'']. simpl in *.
  exact (pool_inv_step _ _ _ _ _ _ _ Hwf (IH Hinv) Hstep).
Qed.

(* ===================================================================== *)
(** * Invariants of the running monitor                                  *)
(* ===================================================================== *)

Lemma pool_inv_out m0 eps w w' ts :
  mon w' = mon w -> pool_inv m0 eps w ts -> pool_inv m0 eps w' ts.
Proof. intros Hmon [? ? ? ? ?]. split; rewrite ?Hmon; auto. Qed.

Lemma pool_inv_wf m0 eps w ts : wf m0 -> pool_inv m0 eps w ts -> wf (mon w).
Proof.
  intros [Hb Hi] Hinv. split.
  - intros d l. rewrite (pi_stats _ _ _ _ Hinv), (pi_length _ _ _ _ Hinv). apply Hb.
  - intros d d' l. rewrite (pi_stats _ _ _ _ Hinv). apply Hi.
Qed.

Lemma pool_inv_heap_ok m0 eps w ts :
  heap_ok m0 -> pool_inv m0 eps w ts -> heap_ok (mon w).
Proof.
  intros Hok Hinv. apply Forall_lookup_2. intros l s Hs.
  assert (Hlt : (l < length (heap m0))%nat).
  { rewrite <- (pi_length _ _ _ _ Hinv). by eapply lookup_lt_Some. }
  destruct (lookup_lt_is_Some_2 _ _ Hlt) as [s0 Hs0].
  destruct (pi_counts _ _ _ _ Hinv l s0 Hs0) as (s' & Hs' & Htot & Hmono & Hsuc).
  rewrite Hs in Hs'. injection Hs' as <-.
  pose proof (Forall_lookup_1 _ _ _ _ Hok Hs0) as H0. simpl in H0.
  pose proof (tally_le in_flight counted m0 l eps ts) as Hle.
  assert (forall t, in_flight t = true -> counted t = true) as Himp
    by (intros []; simpl; congruence).
  specialize (Hle Himp). lia.
Qed.

Lemma main_inv_initial m printed :
  ready m -> heap_ok m -> main_inv m (initial m printed).
Proof.
  intros [Hwf _] Hok. exists m, []. split_and!; auto.
  split; simpl; auto. intros l s0 Hs0. exists s0. split_and!; auto; lia.
Qed.

Lemma main_inv_step m c l c' :
  ready m -> main_inv m c -> step c l c' -> main_inv m c'.
Proof.
  intros [Hwfm (eps0 & Hit & Hall)] (m0 & eps & Hwf & Hok & He & Hs & Hlen & Hinv) Hstep.
  inversion Hstep; subst; simpl in *;
    try (exists m0, eps; split_and!; auto;
         first [ done | by eapply pool_inv_out; [|eauto] | by eapply pool_inv_step; eauto ]).
  (* Submit: the batch starts from the present state *)
  exists (mon w), eps1.
  pose proof (pi_endpoints _ _ _ _ Hinv) as He'.
  pose proof (pi_stats _ _ _ _ Hinv) as Hs'.
  pose proof (pi_length _ _ _ _ Hinv) as Hlen'.
  split_and!; try congruence.
  - by eapply pool_inv_wf.
  - by eapply pool_inv_heap_ok.
  - apply pool_inv_fresh; [by eapply pool_inv_wf|].
    assert (eps1 = eps0) as -> by congruence.
    eapply Forall_impl; [exact Hall|]. intros ep (f & Hf & Hin). exists f.
    split; [done|]. simpl. by rewrite Hs', Hs.
Qed.

Lemma main_inv_exec m printed tr c :
  ready m -> heap_ok m -> exec (initial m printed) tr c -> main_inv m c.
Proof.
  intros Hr Hok Hex. remember (initial m printed) as c0 eqn:Hc0.
  induction Hex as [c|c tr c' l c'' _ IH Hstep]; subst.
  - by apply main_inv_initial.
  - eapply main_inv_step; eauto.
Qed.

Lemma main_inv_counters m c d s :
  main_inv m c -> counters (mon (world c)) d = Some s -> 0 <= success s <= total s.
Proof.
  intros (m0 & eps & Hwf & Hok & _ & _ & _ & Hinv) Hc.
  pose proof (pool_inv_wf _ _ _ _ Hwf Hinv) as [Hb _].
  pose proof (pool_inv_heap_ok _ _ _ _ Hok Hinv) as Hok'.
  unfold counters in Hc.
  destruct (assoc d (stats (mon (world c)))) as [l|] eqn:Hl; [|done].
  simpl in Hc. injection Hc as <-. unfold deref.
  destruct (lookup_lt_is_Some_2 _ _ (Hb _ _ Hl)) as [s Hs]. rewrite Hs. simpl.
  exact (Forall_lookup_1 _ _ _ _ Hok' Hs).
Qed.

(* ===================================================================== *)
(** * A batch from its start to its end                                  *)
(* ===================================================================== *)

Lemma tally_done m0 d l eps ts :
  wf m0 -> assoc d (stats m0) = Some l ->
  Forall2 (tracks m0) eps ts -> forallb done ts = true ->
  tally counted m0 l eps ts = probes_of d eps.
Proof.
  intros [_ Hi] Hl Htr. induction Htr as [|ep t eps ts (f & l' & Hf & Hl' & Hshape) _ IH];
    simpl; [done|].
  intros [Hd Hds]%andb_prop. rewrite (IH Hds). f_equal.
  destruct t; try discriminate. unfold weight, domain_of, loc_of. rewrite Hf, Hl'.
  simpl. rewrite andb_true_r.
  destruct (decide (domain f = d)) as [Heq|Hne].
  - assert (l' = l) as -> by congruence.
    rewrite !bool_decide_eq_true_2; congruence.
  - rewrite !bool_decide_eq_false_2; [done| |].
    + intros [= ?]. done.
    + intros [= ->]. apply Hne. eauto.
Qed.

(** When the workers of a batch are all done, each domain has its probes
    counted. *)
Lemma pool_inv_totals m0 eps w ts d s :
  wf m0 -> pool_inv m0 eps w ts ->
  forallb done ts = true ->
  counters m0 d = Some s ->
  exists s', counters (mon w) d = Some s' /\ total s' = total s + probes_of d eps.
Proof.
  intros Hwf Hinv Hdone Hc.
  unfold counters in *. rewrite (pi_stats _ _ _ _ Hinv).
  destruct (assoc d (stats m0)) as [l|] eqn:Hl; [|done]. simpl in *.
  injection Hc as <-. eexists; split; [reflexivity|]. unfold deref.
  destruct (lookup_lt_is_Some_2 _ _ (wf_bound _ Hwf _ _ Hl)) as [s0 Hs0].
  destruct (pi_counts _ _ _ _ Hinv l s0 Hs0) as (s' & Hs' & Htot & _).
  rewrite Hs0, Hs'. simpl. rewrite Htot.
  by rewrite (tally_done _ _ _ _ _ Hwf Hl (pi_tracks _ _ _ _ Hinv) Hdone).
Qed.

(** Every probe of a batch is counted, whatever the schedule. *)
Lemma batch_totals w eps w' ts' d s :
  wf (mon w) -> Forall (probeable (mon w)) eps ->
  pool_exec (w, map TCall eps) (w', ts') ->
  forallb done ts' = true ->
  counters (mon w) d = Some s ->
  exists s', counters (mon w') d = Some s' /\ total s' = total s + probes_of d eps.
Proof.
  intros Hwf Hall Hex Hdone Hc.
  pose proof (pool_inv_exec (mon w) eps _ _ Hwf Hex (pool_inv_fresh _ _ Hwf Hall)) as Hinv.
  by eapply pool_inv_totals.
Qed.

(** The main thread leaves a batch alone until it submits the next one. *)
Lemma batch_run m0 eps c tr c' :
  wf m0 -> exec c tr c' -> ~ In Submit tr ->
  pool_inv m0 eps (world c) (pool c) ->
  pool_inv m0 eps (world c') (pool c').
Proof.
  intros Hwf Hex. induction Hex as [c|c tr c' l c'' _ IH Hstep]; intros Hno Hinv; [done|].
  assert (Hinv' : pool_inv m0 eps (world c') (pool c')).
  { apply IH; [|done]. intros Hin. apply Hno, in_app_iff. by left. }
  assert (Hl : l <> Submit).
  { intros ->. apply Hno, in_app_iff. right. by left. }
  inversion Hstep; subst; simpl in *; try done;
    first [ by eapply pool_inv_out; [|eauto] | by eapply pool_inv_step; eauto ].
Qed.

Lemma tstep_fuel send w t :
  done t = false -> (fuel (snd (tstep send w t)) < fuel t)%nat.
Proof.
  destruct t; simpl; try done; intros _;
    repeat match goal with
           | |- context [match ?x with _ => _ end] => destruct x
           end; simpl; lia.
Qed.

Lemma pool_exec_trans c1 c2 c3 :
  pool_exec c1 c2 -> pool_exec c2 c3 -> pool_exec c1 c3.
Proof.
  intros H12 H23. induction H23 as [|c c' c'' i _ IH Hstep]; [done|].
  exact (pool_exec_step _ _ _ _ (IH H12) Hstep).
Qed.

Lemma thread_completes (send : Transport) n : forall w ts i t,
  (fuel t <= n)%nat -> ts !! i = Some t ->
  exists w' t', pool_exec (w, ts) (w', <[i := t']> ts) /\ done t' = true.
Proof.
  induction n as [|n IH]; intros w ts i t Hfuel Ht.
  - exists w, t. rewrite list_insert_id by done.
    split; [constructor|]. destruct t; simpl in *; first [lia|done].
  - destruct (done t) eqn:Hd.
    + exists w, t. rewrite list_insert_id by done. split; [constructor|done].
    + destruct (tstep send w t) as [w1 t1] eqn:Hstep.
      pose proof (tstep_fuel send w t Hd) as Hlt. rewrite Hstep in Hlt. simpl in Hlt.
      destruct (IH w1 (<[i := t1]> ts) i t1) as (w' & t' & Hex & Hdone); [lia| |].
      { apply list_lookup_insert_eq. by eapply lookup_lt_Some. }
      rewrite list_insert_insert_eq in Hex.
      exists w', t'. split; [|done].
      eapply pool_exec_trans; [|exact Hex].
      eapply pool_exec_step; [constructor|]. econstructor; eauto.
Qed.

Lemma pool_completes (send : Transport) w ts :
  exists w' ts', pool_exec (w, ts) (w', ts') /\ forallb done ts' = true.
Proof.
  assert (Hk : forall k, (k <= length ts)%nat ->
             exists w' ts', pool_exec (w, ts) (w', ts') /\ length ts' = length ts /\
               forall i t, (i < k)%nat -> ts' !! i = Some t -> done t = true).
  { induction k as [|k IH]; intros Hle.
    - exists w, ts. split_and!; [constructor|done|]. intros; lia.
    - destruct IH as (w1 & ts1 & Hex1 & Hlen1 & Hdone1); [lia|].
      destruct (lookup_lt_is_Some_2 ts1 k) as [t Ht]; [lia|].
      destruct (thread_completes send (fuel t) w1 ts1 k t) as (w2 & t2 & Hex2 & Hd2); auto.
      exists w2, (<[k := t2]> ts1). split_and!.
      + eapply pool_exec_trans; eauto.
      + by rewrite length_insert.
      + intros i t' Hi Ht'. destruct (decide (i = k)) as [->|Hne].
        * rewrite list_lookup_insert_eq in Ht' by lia. by injection Ht' as <-.
        * rewrite list_lookup_insert_ne in Ht' by done. apply (Hdone1 i); [lia|done]. }
  destruct (Hk (length ts)) as (w' & ts' & Hex & Hlen & Hdone); [done|].
  exists w', ts'. split; [done|]. apply forallb_forall. intros t Hin.
  apply list_elem_of_In, list_elem_of_lookup in Hin as [i Hi].
  apply (Hdone i); [|done]. rewrite <- Hlen. by eapply lookup_lt_Some.
Qed.

Lemma run_schedule_exec (send : Transport) sched : forall w ts,
  pool_exec (w, ts) (run_schedule send sched w ts).
Proof.
  induction sched as [|i sched IH]; intros w ts; simpl; [constructor|].
  destruct (ts !! i) as [t|] eqn:Ht; [|apply IH].
  destruct (done t) eqn:Hd; [apply IH|].
  destruct (tstep send w t) as [w' t'] eqn:Hstep.
  eapply pool_exec_trans; [|apply IH].
  eapply pool_exec_step; [constructor|]. econstructor; eauto.
Qed.

(* ===================================================================== *)
(** * The schedule of the main loop                                      *)
(* ===================================================================== *)

Lemma rounds_snoc n : (rounds n ++ round)%list = rounds (S n).
Proof.
  induction n as [|n IH]; [reflexivity|].
  change (rounds (S n)) with (round ++ rounds n)%list.
  rewrite <- app_assoc, IH. reflexivity.
Qed.

Lemma main_labels_snoc tr l :
  main_labels (tr ++ [l]) = (main_labels tr ++ if is_work l then [] else [l])%list.
Proof. unfold main_labels. rewrite List.filter_app. simpl. by destruct (is_work l). Qed.

Lemma iterate_len v eps : iterate v = Ok eps -> len v = Ok (Z.of_nat (length eps)).
Proof.
  destruct v; simpl; try discriminate; intros [= <-].
  - f_equal. f_equal. induction s as [|a s IH]; simpl; [done|]. by rewrite IH.
  - done.
  - by rewrite length_map.
Qed.

Lemma shape_step m c l c' :
  ready m -> main_inv m c -> step c l c' ->
  forall ml, shape (pc c) ml ->
  shape (pc c') (ml ++ if is_work l then [] else [l])%list.
Proof.
  intros [_ (eps0 & Hit & _)] (m0 & eps & _ & _ & He & _ & _ & Hinv) Hstep ml Hshape.
  pose proof (pi_endpoints _ _ _ _ Hinv) as He'.
  inversion Hstep; subst; simpl in *.
  - subst ml. exists O. reflexivity.
  - rewrite He', He, (iterate_len _ _ Hit) in H. discriminate.
  - destruct Hshape as [n ->]. exists n. reflexivity.
  - rewrite He', He, Hit in H. discriminate.
  - by rewrite app_nil_r.
  - destruct Hshape as [n ->]. exists n. by rewrite <- app_comm_cons, <- app_assoc.
  - destruct Hshape as [n ->]. exists n. by rewrite <- app_comm_cons, <- app_assoc.
  - destruct Hshape as [n ->]. exists (S n).
    rewrite <- rounds_snoc. by rewrite <- app_comm_cons, <- app_assoc.
  - destruct p; try discriminate; destruct Hshape as [n ->].
    + exists n, []. split; [|auto]. reflexivity.
    + exists n, [Submit]. split; [|auto]. by rewrite <- app_comm_cons, <- app_assoc.
    + exists n, [Submit; Join]. split; [|auto]. by rewrite <- app_comm_cons, <- app_assoc.
    + exists n, [Submit; Join; Report]. split; [|auto 6]. by rewrite <- app_comm_cons, <- app_assoc.
  - by subst ml.
Qed.

Lemma shape_exec m printed tr c :
  ready m -> heap_ok m -> exec (initial m printed) tr c ->
  shape (pc c) (main_labels tr).
Proof.
  intros Hr Hok Hex. remember (initial m printed) as c0 eqn:Hc0.
  induction Hex as [c|c tr c' l c'' Hex IH Hstep]; subst.
  - reflexivity.
  - rewrite main_labels_snoc. eapply shape_step; eauto.
    eapply main_inv_exec; eauto.
Qed.

Lemma exec_trans c tr c' tr' c'' :
  exec c tr c' -> exec c' tr' c'' -> exec c (tr ++ tr') c''.
Proof.
  intros H1 H2. induction H2 as [|c1 tr1 c2 l c3 _ IH Hstep].
  - by rewrite app_nil_r.
  - rewrite app_assoc. exact (exec_snoc _ _ _ _ _ (IH H1) Hstep).
Qed.

Lemma exec_one c l c' : step c l c' -> exec c [l] c'.
Proof. intros H. exact (exec_snoc _ [] _ _ _ (exec_nil c) H). Qed.

Lemma exec_workers p c c' :
  pool_exec c c' ->
  exists tr, exec (mkConfig p (fst c) (snd c)) tr (mkConfig p (fst c') (snd c')) /\
             main_labels tr = [].
Proof.
  induction 1 as [c|c c' c'' i _ (tr & Hex & Hml) Hstep].
  - exists []. split; [constructor|done].
  - exists (tr ++ [Work i])%list. split.
    + eapply exec_snoc; [exact Hex|]. destruct c', c''. by constructor.
    + rewrite main_labels_snoc, Hml. reflexivity.
Qed.

(** After the stop nothing but the workers still running moves. *)
Lemma stopped_exec c tr c' :
  exec c tr c' -> pc c = Stopped -> pc c' = Stopped /\ main_labels tr = [].
Proof.
  induction 1 as [c|c tr c' l c'' _ IH Hstep]; intros Hpc; [done|].
  destruct (IH Hpc) as [Hpc' Hml].
  rewrite main_labels_snoc, Hml.
  inversion Hstep; subst; simpl in *; try discriminate.
  - done.
  - subst p. discriminate.
Qed.

(** From the start of a round the program can reach the start of the next. *)
Lemma exec_round m (send : Transport) c :
  ready m -> main_inv m c -> pc c = AtFanout ->
  exists tr c', exec c tr c' /\ main_labels tr = round /\ pc c' = AtFanout.
Proof.
  intros [_ (eps0 & Hit & _)] (m0 & eps & _ & _ & He & _ & _ & Hinv) Hpc.
  destruct c as [p w ts]. simpl in *. subst p.
  pose proof (pi_endpoints _ _ _ _ Hinv) as He'.
  assert (Hit' : iterate (endpoints (mon w)) = Ok eps0) by (by rewrite He', He).
  destruct (pool_completes send w (map TCall eps0)) as (w' & ts' & Hpool & Hdone).
  destruct (exec_workers AtJoin _ _ Hpool) as (trw & Hexw & Hmlw). simpl in Hexw.
  exists ([Submit] ++ trw ++ [Join; Report; Sleep 15])%list, (mkConfig AtFanout (log_results w') ts').
  split_and!; [|by unfold main_labels in *; rewrite !List.filter_app, Hmlw|done].
  eapply exec_trans; [apply exec_one, step_submit, Hit'|].
  eapply exec_trans; [exact Hexw|].
  eapply (exec_trans _ [Join] _ [Report; Sleep 15]); [apply exec_one, step_join, Hdone|].
  eapply (exec_trans _ [Report] _ [Sleep 15]); [apply exec_one, step_report|].
  apply exec_one, step_sleep.
Qed.

(** The loop goes on for as many rounds as one cares to wait for. *)
Lemma exec_rounds m printed (send : Transport) n :
  ready m -> heap_ok m ->
  exists tr c, exec (initial m printed) tr c /\
               main_labels tr = Start :: rounds n /\ pc c = AtFanout.
Proof.
  intros Hr Hok. induction n as [|n (tr & c & Hex & Hml & Hpc)].
  - destruct Hr as [Hwf (eps0 & Hit & Hall)].
    exists [Start], (mkConfig AtFanout (print (LStarting (Z.of_nat (length eps0)))
                                              (mkWorld m printed)) []).
    split_and!; [|done|done].
    apply exec_one. constructor. simpl. by apply iterate_len.
  - destruct (exec_round m send c Hr (main_inv_exec _ _ _ _ Hr Hok Hex) Hpc)
      as (tr' & c' & Hex' & Hml' & Hpc').
    exists (tr ++ tr')%list, c'. split_and!; [by eapply exec_trans| |done].
    unfold main_labels in *. rewrite List.filter_app, Hml, Hml'.
    rewrite <- rounds_snoc. reflexivity.
Qed.

(* ===================================================================== *)
(** * The payload                                                        *)
(* ===================================================================== *)

Lemma assoc_In {A} k (d : list (string * A)) x : assoc k d = Some x -> In (k, x) d.
Proof.
  induction d as [|[k' v'] d IH]; simpl; [done|].
  destruct (String.eqb_spec k' k) as [->|]; [intros [= ->]; by left|]. auto.
Qed.

Lemma payload_typed f hs b :
  typed_frame f hs b -> payload f = payload_of hs b.
Proof.
  intros (Hh & Hb & Hty). unfold payload, payload_of, json_flagged, flagged_as_json.
  rewrite Hh, Hb. simpl.
  destruct (String.eqb b "") eqn:Hbe; simpl; [done|].
  destruct (assoc "content-type" hs) as [v|] eqn:Hct; simpl; [|done].
  destruct (Hty _ _ (assoc_In _ _ _ Hct)) as [ct ->]. simpl.
  by destruct (contains "json" (lower ct)).
Qed.

End Probe.

(* ===================================================================== *)
(** * The availability percentage                                        *)
(* ===================================================================== *)

Lemma py_round_quotient (n : Z) (d : positive) :
  py_round (inject_Z n / inject_Z (Zpos d)) = nearest_even n (Zpos d).
Proof.
  unfold py_round, nearest_even, Qdiv, Qinv, inject_Z, Qmult, Qminus, Qplus, Qopp,
    Qfloor, Qcompare; cbn [Qnum Qden].
  rewrite ?Z.mul_1_r, ?Pos.mul_1_r, ?Pos.mul_1_l.
  set (q := n / Zpos d). set (r := n mod Zpos d).
  assert (Hn : n = Zpos d * q + r) by (apply Z.div_mod; lia).
  assert (Hr : 0 <= r < Zpos d) by (apply Z.mod_pos_bound; lia).
  replace ((n + - q * Zpos d) * 2) with (2 * r) by lia.
  rewrite ?Z.mul_1_l.
  destruct (Z.compare_spec (2 * r) (Zpos d)) as [He|Hlt|Hgt].
  - destruct (Z.ltb_spec (2 * r) (Zpos d)); [lia|].
    destruct (Z.ltb_spec (Zpos d) (2 * r)); [lia|]. reflexivity.
  - destruct (Z.ltb_spec (2 * r) (Zpos d)); [reflexivity|lia].
  - destruct (Z.ltb_spec (2 * r) (Zpos d)); [lia|].
    destruct (Z.ltb_spec (Zpos d) (2 * r)); [reflexivity|lia].
Qed.

Lemma percentage_spec (stat : DomainStats) :
  percentage stat = spec_percentage (success stat) (total stat).
Proof.
  unfold percentage, spec_percentage.
  destruct (Z.gtb_spec (total stat) 0) as [Hpos|]; [|reflexivity].
  destruct (total stat) as [|d|d]; try lia.
  apply py_round_quotient.
Qed.

(** The rounded quotient is a nearest integer, and the even one at a tie. *)
Lemma nearest_even_is_nearest (n d : Z) :
  0 < d ->
  let p := nearest_even n d in
  Z.abs (2 * n - 2 * p * d) <= d /\
  (Z.abs (2 * n - 2 * p * d) = d -> Z.even p = true).
Proof.
  intros Hd. unfold nearest_even. cbv zeta.
  set (q := n / d). set (r := n mod d).
  assert (Hn : n = d * q + r) by (apply Z.div_mod; lia).
  assert (Hr : 0 <= r < d) by (apply Z.mod_pos_bound; lia).
  destruct (Z.ltb_spec (2 * r) d).
  - split; [nia|]. intros Habs. exfalso. nia.
  - destruct (Z.ltb_spec d (2 * r)).
    + split; [nia|]. intros Habs. exfalso. nia.
    + destruct (Z.even q) eqn:Hq.
      * split; [nia|]. auto.
      * split; [nia|]. intros _. rewrite Z.even_add, Hq. reflexivity.
Qed.

Lemma nearest_even_bounds (s t : Z) :
  0 <= s <= t -> 0 < t -> 0 <= nearest_even (100 * s) t <= 100.
Proof.
  intros Hs Ht. unfold nearest_even.
  set (q := 100 * s / t). set (r := (100 * s) mod t).
  assert (Hn : 100 * s = t * q + r) by (apply Z.div_mod; lia).
  assert (Hr : 0 <= r < t) by (apply Z.mod_pos_bound; lia).
  assert (Hq0 : 0 <= q) by (apply Z.div_pos; lia).
  assert (Hq1 : q <= 100) by (apply Z.div_le_upper_bound; lia).
  assert (Hq2 : q = 100 -> r = 0) by nia.
  destruct (Z.ltb_spec (2 * r) t); [lia|].
  destruct (Z.ltb_spec t (2 * r)); [lia|].
  destruct (Z.even q); lia.
Qed.

(** C3. The percentage printed for a domain is [100 * succeeded / attempted]
    rounded to the nearest integer (a tie to the even neighbour, as
    [round] does) when something was attempted, and 0 otherwise; with
    [0 <= succeeded <= attempted] it lies in [0, 100].  The report has, for
    every domain of the dictionary, the line
    ["<domain> has <pct>% availability (<succeeded>/<attempted> successful requests)"]:
    one success out of two attempts on [example.com] prints
    ["example.com has 50% availability (1/2 successful requests)"], which is
    also what two endpoints on that domain, one answering 200 in 100 ms and
    one answering 500, lead to. *)
Theorem C3_availability_report (domain : string) (stat : DomainStats) (m : EndpointMonitor) :
  percentage stat = spec_percentage (success stat) (total stat) /\
  (total stat > 0 ->
   Z.abs (2 * (100 * success stat) - 2 * percentage stat * total stat) <= total stat /\
   (Z.abs (2 * (100 * success stat) - 2 * percentage stat * total stat) = total stat ->
    Z.even (percentage stat) = true)) /\
  (total stat = 0 -> percentage stat = 0) /\
  (0 <= success stat <= total stat -> 0 <= percentage stat <= 100) /\
  report_line domain stat
  = domain ++ " has " ++ str_int (percentage stat) ++ "% availability ("
           ++ str_int (success stat) ++ "/" ++ str_int (total stat)
           ++ " successful requests)" /\
  (forall l, In (domain, l) (stats m) ->
             In (LText (report_line domain (deref m l))) (report m)) /\
  report_line "example.com" (mkStats 1 2)
  = "example.com has 50% availability (1/2 successful requests)" /\
  percentage (mkStats 1 3) = 33 /\
  percentage (mkStats 1 8) = 12 /\
  percentage (mkStats 3 8) = 38 /\
  out (log_results (run_batch sample_loads sample_send (mkWorld sample_monitor [])
                              [endpoint_up; endpoint_down]))
  = [LSuccess (VStr "up") (VStr "https://example.com/up") 200 (100 # 1000);
     LReportHeader;
     LText "example.com has 50% availability (1/2 successful requests)";
     LReportEnd].
Proof.
  split_and!; try reflexivity.
  - apply percentage_spec.
  - intros Hpos. rewrite percentage_spec. unfold spec_percentage.
    destruct (Z.gtb_spec (total stat) 0); [|lia].
    apply nearest_even_is_nearest. lia.
  - intros H0. unfold percentage. by rewrite H0.
  - intros Hs. rewrite percentage_spec. unfold spec_percentage.
    destruct (Z.gtb_spec (total stat) 0); [|lia].
    apply nearest_even_bounds; lia.
  - intros l Hin. unfold report. apply in_app_iff. right. apply in_app_iff. left.
    apply in_map_iff. exists (domain, l). auto.
Qed.

(* ===================================================================== *)
(** * The success predicate and the effect of one probe                  *)
(* ===================================================================== *)

Lemma sample_init : __init__ (Ok sample_config) = ([], Returns sample_monitor).
Proof. reflexivity. Qed.

Lemma sample_wf : wf sample_monitor.
Proof.
  split; unfold sample_monitor; cbn [stats heap assoc length]; intros d.
  - intros l. destruct (String.eqb "example.com" d); [|done]. intros [= <-]. lia.
  - intros d' l. destruct (String.eqb "example.com" d) eqn:E1; [|done].
    destruct (String.eqb "example.com" d') eqn:E2; [|done].
    apply String.eqb_eq in E1, E2. congruence.
Qed.

Lemma meets_criteria_iff status response_time :
  meets_criteria status response_time = true
  <-> 200 <= status < 300 /\ (response_time <= 1 # 2)%Q.
Proof.
  unfold meets_criteria. rewrite !andb_true_iff, Z.leb_le, Z.ltb_lt, Qle_bool_iff.
  tauto.
Qed.

(** The pair of counters a domain shows, a new object's when it has none *)
Lemma probe_counters json_loads send w ep f :
  wf (mon w) -> locals ep = Ok f ->
  let w' := fst (check_health json_loads send w ep) in
  snd (check_health json_loads send w ep) = None /\
  total (before (mon w') (domain f)) = total (before (mon w) (domain f)) + 1 /\
  (success (before (mon w') (domain f)) =
     success (before (mon w) (domain f)) +
     match attempt json_loads send f with
     | Ok (response, response_time) =>
         if meets_criteria (status_code response) response_time then 1 else 0
     | Raise _ => 0
     end) /\
  (forall d, d <> domain f -> counters (mon w') d = counters (mon w) d).
Proof.
  intros Hwf Hf.
  destruct (check_health_spec json_loads send w ep f Hwf Hf)
    as (w' & Hrun & _ & _ & _ & Hoth & Heff).
  rewrite Hrun. simpl. unfold probe_effect in Heff. unfold before at 1 3.
  destruct (attempt json_loads send f) as [[response response_time]|e].
  - destruct (meets_criteria (status_code response) response_time);
      destruct Heff as [-> _]; simpl; split_and!; auto; lia.
  - destruct Heff as [-> _]; simpl; split_and!; auto; lia.
Qed.

(** C1. For every probe whose HTTP request returns a response, the probe is
    classified a success (the success line is printed and the domain's
    success counter goes up by one) if and only if the status code is in
    [200, 300) and the measured time is at most half a second.  So 200 after
    501 ms is a failure, 200 after exactly 500 ms and 299 within 500 ms are
    successes, and 300 is a failure whatever the time. *)
Theorem C1_success_predicate json_loads send w ep f response response_time :
  wf (mon w) ->
  locals ep = Ok f ->
  attempt json_loads send f = Ok (response, response_time) ->
  let w' := fst (check_health json_loads send w ep) in
  let status := status_code response in
  (success (before (mon w') (domain f)) = success (before (mon w) (domain f)) + 1
   <-> 200 <= status < 300 /\ (response_time <= 1 # 2)%Q) /\
  (out w' = (out w ++ [LSuccess (display_name f) (url f) status response_time])%list
   <-> 200 <= status < 300 /\ (response_time <= 1 # 2)%Q) /\
  (out w' = out w \/
   out w' = (out w ++ [LSuccess (display_name f) (url f) status response_time])%list) /\
  meets_criteria 200 (501 # 1000) = false /\
  meets_criteria 200 (500 # 1000) = true /\
  (forall t, (t <= 1 # 2)%Q -> meets_criteria 299 t = true) /\
  (forall t, meets_criteria 300 t = false).
Proof.
  intros Hwf Hf Hat w' status.
  destruct (probe_counters json_loads send w ep f Hwf Hf) as (_ & _ & Hsuc & _).
  destruct (check_health_spec json_loads send w ep f Hwf Hf)
    as (w1 & Hrun & _ & _ & _ & _ & Heff).
  fold w' in Hsuc. assert (w1 = w') as -> by (subst w'; by rewrite Hrun).
  unfold probe_effect in Heff. rewrite Hat in Hsuc, Heff. fold status in Hsuc, Heff.
  rewrite <- meets_criteria_iff.
  assert (H299 : forall t, (t <= 1 # 2)%Q -> meets_criteria 299 t = true).
  { intros t Ht. apply meets_criteria_iff. split; [lia|done]. }
  destruct (meets_criteria status response_time) eqn:Hm;
    destruct Heff as [_ Hout]; split_and!; auto; try tauto.
  - split; [lia|done].
  - split; [|done]. rewrite Hout. intros Habs.
    apply (f_equal (@length Line)) in Habs. rewrite length_app in Habs. simpl in Habs. lia.
Qed.

(** C7. A probe that receives a response but misses the success predicate
    (status outside 200-299, or more than half a second) prints nothing and
    changes nothing beyond the attempt it recorded.  A probe prints at most
    one line: the success record when the predicate holds, and a failure
    line only when the [try] block raised. *)
Theorem C7_silent_miss json_loads send w ep f response response_time :
  wf (mon w) ->
  locals ep = Ok f ->
  attempt json_loads send f = Ok (response, response_time) ->
  ~ (200 <= status_code response < 300 /\ (response_time <= 1 # 2)%Q) ->
  let w' := fst (check_health json_loads send w ep) in
  out w' = out w /\
  snd (check_health json_loads send w ep) = None /\
  counters (mon w') (domain f) = Some (increment_total (before (mon w) (domain f))) /\
  (forall d, d <> domain f -> counters (mon w') d = counters (mon w) d) /\
  tstep json_loads send w (TRequest f) = (w, TDone None) /\
  (forall send' : Transport,
      let w'' := fst (check_health json_loads send' w ep) in
      match attempt json_loads send' f with
      | Ok (r, t) =>
          if meets_criteria (status_code r) t
          then out w'' = (out w ++ [LSuccess (display_name f) (url f) (status_code r) t])%list
          else out w'' = out w
      | Raise e => out w'' = (out w ++ [except_line (url f) e])%list
      end).
Proof.
  intros Hwf Hf Hat Hmiss w'.
  assert (Hm : meets_criteria (status_code response) response_time = false).
  { destruct (meets_criteria _ _) eqn:E; [|done]. by apply meets_criteria_iff in E. }
  destruct (check_health_spec json_loads send w ep f Hwf Hf)
    as (w1 & Hrun & _ & _ & _ & Hoth & Heff).
  assert (w1 = w') as -> by (subst w'; by rewrite Hrun).
  unfold probe_effect in Heff. rewrite Hat, Hm in Heff. destruct Heff as [Hc Hout].
  split_and!; auto.
  - by rewrite Hrun.
  - simpl. by rewrite Hat, Hm.
  - intros send' w''.
    destruct (check_health_spec json_loads send' w ep f Hwf Hf)
      as (w2 & Hrun2 & _ & _ & _ & _ & Heff2).
    assert (w2 = w'') as -> by (subst w''; by rewrite Hrun2).
    unfold probe_effect in Heff2.
    destruct (attempt json_loads send' f) as [[r t]|e]; [|tauto].
    destruct (meets_criteria (status_code r) t); tauto.
Qed.

(* ===================================================================== *)
(** * The payload of the request                                         *)
(* ===================================================================== *)

(** C5, as stated, fails on the code, in two ways.  Under the header
    [Content-Type: application/json] the body [{}] is sent as the raw string
    (the key [content-type] is looked up as it is written), where the
    specification has it parsed; and under [content-type: application/JSON]
    the body is parsed (the value is lowered first), where the specification
    has it sent raw.  And a flagged body on which [json.loads] fails
    otherwise than by [JSONDecodeError], as a hundred thousand opening
    brackets, is not sent raw: the exception leaves lines 73-80. *)
Lemma C5_counterexample :
  payload sample_loads (frame_with [("Content-Type", VStr "application/json")] "{}")
    = Ok (VStr "{}") /\
  spec_payload sample_loads [("Content-Type", VStr "application/json")] "{}" = VDict [] /\
  payload sample_loads (frame_with [("Content-Type", VStr "application/json")] "{}")
    <> Ok (spec_payload sample_loads [("Content-Type", VStr "application/json")] "{}") /\
  payload sample_loads (frame_with [("content-type", VStr "application/JSON")] "{}")
    <> Ok (spec_payload sample_loads [("content-type", VStr "application/JSON")] "{}") /\
  spec_payload sample_loads [("content-type", VStr "application/json")] (brackets 100000)
    = VStr (brackets 100000) /\
  exists e,
    payload sample_loads
            (frame_with [("content-type", VStr "application/json")] (brackets 100000))
    = Raise e /\
    exn_class e = OtherException.
Proof.
  split; [reflexivity|]. split; [reflexivity|]. split; [discriminate|].
  split; [discriminate|]. split.
  - assert (H1 : String.eqb (brackets 100000) "" = false)
      by (vm_cast_no_check (eq_refl false)).
    assert (H2 : exists e, sample_loads (brackets 100000) = Raise e).
    { exists (mkExn OtherException
                    "maximum recursion depth exceeded while decoding a JSON array from a unicode string").
      vm_cast_no_check
        (eq_refl (@Raise value
                    (mkExn OtherException
                           "maximum recursion depth exceeded while decoding a JSON array from a unicode string"))). }
    destruct H2 as [e H2]. unfold spec_payload. rewrite H1.
    change (spec_flagged [("content-type", VStr "application/json")]) with true.
    by rewrite H2.
  - exists (mkExn OtherException
                  "maximum recursion depth exceeded while decoding a JSON array from a unicode string").
    split; [|reflexivity].
    vm_cast_no_check
      (eq_refl (@Raise value
                  (mkExn OtherException
                         "maximum recursion depth exceeded while decoding a JSON array from a unicode string"))).
Qed.

(** C5, amended.  For an endpoint with string header values and a string
    body: the body is JSON-flagged when the headers have the key
    [content-type], written exactly so, and its value contains [json] once
    lowered.  A non-empty flagged body is parsed and the parsed value is the
    payload; when [json.loads] raises [JSONDecodeError], the raw body is;
    when it raises anything else, no payload is built and no request sent:
    the exception goes to the [except] clauses of the probe, which prints
    its line with only the attempt counted.  A non-empty body that is not
    flagged is sent raw; an empty body sends no payload.  A payload that is
    built goes to [json=] when it is a mapping and to [data=] otherwise. *)
Theorem C5_payload json_loads f hs b :
  typed_frame f hs b ->
  payload json_loads f = payload_of json_loads hs b /\
  (flagged_as_json hs = true <->
   exists v, assoc "content-type" hs = Some (VStr v) /\ contains "json" (lower v) = true) /\
  (b = "" -> payload json_loads f = Ok VNone) /\
  (b <> "" -> flagged_as_json hs = true ->
   forall parsed, json_loads b = Ok parsed -> payload json_loads f = Ok parsed) /\
  (b <> "" -> flagged_as_json hs = true ->
   forall e, json_loads b = Raise e -> exn_class e = JSONDecodeError ->
   payload json_loads f = Ok (VStr b)) /\
  (b <> "" -> flagged_as_json hs = true ->
   forall e, json_loads b = Raise e -> exn_class e <> JSONDecodeError ->
   payload json_loads f = Raise e /\
   (exn_class e <> Timeout -> exn_class e <> RequestException ->
    except_line (url f) e = LUnexpected (url f) e) /\
   forall send w ep,
     wf (mon w) -> locals ep = Ok f ->
     let w' := fst (check_health json_loads send w ep) in
     attempt json_loads send f = Raise e /\
     snd (check_health json_loads send w ep) = None /\
     out w' = (out w ++ [except_line (url f) e])%list /\
     counters (mon w') (domain f)
     = Some (increment_total (before (mon w) (domain f)))) /\
  (b <> "" -> flagged_as_json hs = false -> payload json_loads f = Ok (VStr b)) /\
  (forall data, payload json_loads f = Ok data ->
   (forall send : Transport, attempt json_loads send f = send (build_request f data)) /\
   (req_json (build_request f data), req_data (build_request f data))
   = (if is_dict data then (data, VNone) else (VNone, data))).
Proof.
  intros Hty. pose proof (payload_typed json_loads f hs b Hty) as Hp.
  assert (Hne : b <> "" -> String.eqb b "" = false) by (intros H; by apply String.eqb_neq).
  split_and!; auto.
  - unfold flagged_as_json. destruct (assoc "content-type" hs) as [[]|]; split;
      try discriminate; try (intros (v & [= ] & _); fail).
    + intros H. eauto.
    + by intros (v & [= <-] & H).
  - intros ->. by rewrite Hp.
  - intros Hb Hfl parsed Hl. rewrite Hp. unfold payload_of. by rewrite (Hne Hb), Hfl, Hl.
  - intros Hb Hfl e Hl He. rewrite Hp. unfold payload_of, is_decode_error.
    by rewrite (Hne Hb), Hfl, Hl, He.
  - intros Hb Hfl e Hl He.
    assert (Hr : payload json_loads f = Raise e).
    { rewrite Hp. unfold payload_of, is_decode_error. rewrite (Hne Hb), Hfl, Hl.
      by destruct (exn_class e). }
    split_and!; [done| |].
    + intros H1 H2. unfold except_line. by destruct (exn_class e).
    + intros send w ep Hwf Hf w'.
      assert (Hat : attempt json_loads send f = Raise e) by (unfold attempt; by rewrite Hr).
      destruct (check_health_spec json_loads send w ep f Hwf Hf)
        as (w1 & Hrun & _ & _ & _ & _ & Heff).
      assert (w1 = w') as -> by (subst w'; by rewrite Hrun).
      unfold probe_effect in Heff. rewrite Hat in Heff. destruct Heff as [Hc Hout].
      split_and!; auto. by rewrite Hrun.
  - intros Hb Hfl. rewrite Hp. unfold payload_of. by rewrite (Hne Hb), Hfl.
  - intros data Hd. split.
    + intros send. unfold attempt. by rewrite Hd.
    + simpl. by destruct (is_dict data).
Qed.

(* ===================================================================== *)
(** * The running monitor                                                *)
(* ===================================================================== *)

Lemma init_heap_ok loaded printed m :
  __init__ loaded = (printed, Returns m) -> ready m /\ heap_ok m.
Proof.
  intros (Hr & _ & _ & Hz)%init_ready. split; [done|].
  eapply Forall_impl; [exact Hz|]. intros s ->. simpl. lia.
Qed.

Lemma step_no_crash json_loads m c l c' :
  ready m -> main_inv m c -> step json_loads c l c' -> l <> Crash.
Proof.
  intros [_ (eps0 & Hit & _)] (m0 & eps & _ & _ & He & _ & _ & Hinv) Hstep.
  pose proof (pi_endpoints _ _ _ _ Hinv) as He'.
  inversion Hstep; subst; simpl in *; try discriminate.
  - rewrite He', He, (iterate_len _ _ Hit) in H. discriminate.
  - rewrite He', He, Hit in H. discriminate.
Qed.

Lemma exec_no_crash json_loads m printed tr c :
  ready m -> heap_ok m -> exec json_loads (initial m printed) tr c -> ~ In Crash tr.
Proof.
  intros Hr Hok Hex. remember (initial m printed) as c0 eqn:Hc0.
  induction Hex as [c|c tr c' l c'' Hex IH Hstep]; subst; [by intros []|].
  intros [Hin|[->|[]]]%in_app_iff; [by apply IH|].
  eapply step_no_crash; eauto. eapply main_inv_exec; eauto.
Qed.

(** In a running monitor every worker is at a sound point of its probe. *)
Lemma main_inv_threads m c i t :
  main_inv m c -> pool c !! i = Some t ->
  (forall f, t <> TCreate f) /\ (forall r, t = TDone r -> r = None).
Proof.
  intros (m0 & eps & _ & _ & _ & _ & _ & Hinv) Ht.
  destruct (Forall2_lookup_r _ _ _ _ _ (pi_tracks _ _ _ _ Hinv) Ht)
    as (ep & _ & f & l & _ & _ & Hshape).
  split.
  - intros f' ->. exact Hshape.
  - intros r ->. exact Hshape.
Qed.

(** The endpoints of the configuration can all be probed at any time. *)
Lemma main_inv_probeable m c eps ep :
  ready m -> main_inv m c ->
  iterate (endpoints m) = Ok eps -> In ep eps ->
  wf (mon (world c)) /\ probeable (mon (world c)) ep.
Proof.
  intros [_ (eps0 & Hit & Hall)] (m0 & eps' & Hwf & _ & _ & Hs & _ & Hinv) Hit' Hin.
  split; [by eapply pool_inv_wf|].
  assert (eps0 = eps) as -> by congruence.
  rewrite Forall_forall in Hall. destruct (Hall ep) as (f & Hf & Hd).
  { by apply list_elem_of_In. }
  exists f. split; [done|]. by rewrite (pi_stats _ _ _ _ Hinv), Hs.
Qed.

(** C6. Whatever goes wrong in a probe of a configured endpoint (a timeout,
    a transport failure, or any other exception while the request is built
    or handled) is caught in the probe: no exception leaves [check_health],
    one line naming the URL is printed, and the attempt recorded before the
    request stays the only change to the counters.  No worker of the pool is
    ever left by an exception and no exception leaves the main loop. *)
Theorem C6_errors_stay_in_probe json_loads loaded printed m tr c eps ep send :
  __init__ loaded = (printed, Returns m) ->
  exec json_loads (initial m printed) tr c ->
  iterate (endpoints m) = Ok eps ->
  In ep eps ->
  let w := world c in
  let w' := fst (check_health json_loads send w ep) in
  (exists f u,
      locals ep = Ok f /\ getitem ep "url" = Ok u /\ url f = u /\
      snd (check_health json_loads send w ep) = None /\
      forall e, attempt json_loads send f = Raise e ->
        out w' = (out w ++ [except_line u e])%list /\
        (except_line u e = LTimedOut u \/ except_line u e = LFailed u e \/
         except_line u e = LUnexpected u e) /\
        (exists s, counters (mon w) (domain f) = Some s /\
                   counters (mon w') (domain f) = Some (increment_total s)) /\
        (forall d, d <> domain f -> counters (mon w') d = counters (mon w) d)) /\
  (forall i r, pool c !! i = Some (TDone r) -> r = None) /\
  ~ In Crash tr.
Proof.
  intros Hinit Hex Hit Hin w w'.
  destruct (init_heap_ok _ _ _ Hinit) as [Hr Hok].
  pose proof (main_inv_exec json_loads _ _ _ _ Hr Hok Hex) as Hinv.
  destruct (main_inv_probeable _ _ _ _ Hr Hinv Hit Hin)
    as (Hwf & f & Hf & [l Hl]).
  split_and!.
  - destruct (locals_inv _ _ Hf) as (d & u & -> & _ & Hu & Hurl & _).
    exists f, u. split_and!; auto.
    + simpl. by rewrite Hu.
    + by destruct (probe_counters json_loads send w _ f Hwf Hf) as (? & _).
    + intros e He.
      destruct (check_health_spec json_loads send w _ f Hwf Hf)
        as (w1 & Hrun & _ & _ & _ & Hoth & Heff).
      assert (w1 = w') as -> by (subst w'; by rewrite Hrun).
      unfold probe_effect in Heff. rewrite He in Heff. destruct Heff as [Hc Hout].
      rewrite Hurl in Hout. split_and!; auto.
      * unfold except_line. destruct (exn_class e); auto.
      * unfold before, counters in *. subst w. rewrite Hl in *. simpl in *. eauto.
  - intros i r Hi. by eapply (main_inv_threads m c i (TDone r) Hinv Hi).
  - by eapply exec_no_crash.
Qed.

(** C2. Every probe adds exactly one to the attempted counter of its domain,
    and it does so in the step by which its thread arrives at the request,
    the only step that uses the network; it adds one to the succeeded counter only when the response meets the
    success predicate, and nothing otherwise.  So at every point the running
    monitor reaches, under every schedule of the workers, each domain has
    [0 <= succeeded <= attempted]. *)
Theorem C2_succeeded_le_attempted json_loads loaded printed m tr c :
  __init__ loaded = (printed, Returns m) ->
  exec json_loads (initial m printed) tr c ->
  (forall d s, counters (mon (world c)) d = Some s -> 0 <= success s <= total s) /\
  (forall send ep f,
      locals ep = Ok f ->
      let w := world c in
      let w' := fst (check_health json_loads send w ep) in
      total (before (mon w') (domain f)) = total (before (mon w) (domain f)) + 1 /\
      success (before (mon w') (domain f)) =
        success (before (mon w) (domain f)) +
        match attempt json_loads send f with
        | Ok (response, response_time) =>
            if meets_criteria (status_code response) response_time then 1 else 0
        | Raise _ => 0
        end /\
      forall d, d <> domain f -> counters (mon w') d = counters (mon w) d) /\
  (forall send w t w' f,
      tstep json_loads send w t = (w', TRequest f) ->
      exists l, t = TIncTotal f l /\
                w' = mkWorld (on_object increment_total l (mon w)) (out w)) /\
  (forall send send' w t,
      (forall f, t <> TRequest f) ->
      tstep json_loads send w t = tstep json_loads send' w t) /\
  (forall send w t w' f l,
      tstep json_loads send w t = (w', TIncSuccess f l) ->
      t = TLookupSuccess f /\ w' = w).
Proof.
  intros Hinit Hex.
  destruct (init_heap_ok _ _ _ Hinit) as [Hr Hok].
  pose proof (main_inv_exec json_loads _ _ _ _ Hr Hok Hex) as Hinv.
  split_and!.
  - intros d s. by apply main_inv_counters with (m := m).
  - intros send ep f Hf w w'.
    assert (Hwf : wf (mon w)).
    { destruct Hinv as (m0 & eps & Hwf0 & _ & _ & _ & _ & Hp). by eapply pool_inv_wf. }
    by destruct (probe_counters json_loads send w ep f Hwf Hf) as (_ & ? & ? & ?).
  - intros send w t w' f Hstep.
    destruct t; simpl in Hstep;
      repeat match type of Hstep with
             | context [match ?x with _ => _ end] => destruct x
             end; try discriminate.
    injection Hstep as <- <-. eauto.
  - intros send send' w t Hnot. destruct t; try reflexivity. by destruct (Hnot f).
  - intros send w t w' f l Hstep.
    destruct t; simpl in Hstep;
      repeat match type of Hstep with
             | context [match ?x with _ => _ end] => destruct x
             end; try discriminate.
    injection Hstep as <- <- <-. auto.
Qed.

(** C9. Under concurrent fanout no update is lost: when a batch over the
    configured endpoints has finished, under whatever schedule, the attempted
    counter of each domain has grown by exactly the number of endpoints of
    that domain (N for N endpoints sharing it); this holds of the pool run
    on its own and of every run of the program from the submission of a
    batch up to the next one, and every batch can finish.
    No probe ever creates a [DomainStats] entry: the dictionary and its
    objects stay those [__init__] made, one object per domain, so two probes
    never create separate entries for a domain. *)
Theorem C9_no_lost_update json_loads loaded printed m tr c eps :
  __init__ loaded = (printed, Returns m) ->
  exec json_loads (initial m printed) tr c ->
  iterate (endpoints m) = Ok eps ->
  (forall w' ts' d s,
      pool_exec json_loads (world c, map TCall eps) (w', ts') ->
      forallb done ts' = true ->
      counters (mon (world c)) d = Some s ->
      exists s', counters (mon w') d = Some s' /\
                 total s' = total s + probes_of d eps) /\
  (forall send : Transport,
      exists w' ts', pool_exec json_loads (world c, map TCall eps) (w', ts') /\
                     forallb done ts' = true) /\
  (forall c1 tr' c2 d s,
      step json_loads c Submit c1 ->
      exec json_loads c1 tr' c2 ->
      ~ In Submit tr' ->
      forallb done (pool c2) = true ->
      counters (mon (world c)) d = Some s ->
      exists s', counters (mon (world c2)) d = Some s' /\
                 total s' = total s + probes_of d eps) /\
  stats (mon (world c)) = stats m /\
  length (heap (mon (world c))) = length (heap m) /\
  (forall i f, pool c !! i <> Some (TCreate f)) /\
  (forall d d' l, assoc d (stats m) = Some l -> assoc d' (stats m) = Some l -> d = d').
Proof.
  intros Hinit Hex Hit.
  destruct (init_heap_ok _ _ _ Hinit) as [Hr Hok].
  pose proof (main_inv_exec json_loads _ _ _ _ Hr Hok Hex) as Hinv.
  assert (Hwf : wf (mon (world c))).
  { destruct Hinv as (m0 & eps' & Hwf0 & _ & _ & _ & _ & Hp). by eapply pool_inv_wf. }
  assert (Hall : Forall (probeable (mon (world c))) eps).
  { apply Forall_forall. intros ep Hin%list_elem_of_In.
    by destruct (main_inv_probeable _ _ _ _ Hr Hinv Hit Hin). }
  split_and!.
  - intros w' ts' d s Hpool Hdone Hc. by eapply batch_totals.
  - intros send. apply pool_completes. exact send.
  - intros c1 tr' c2 d s Hsub Hex' Hno Hdone Hc.
    inversion Hsub as [| |w ts eps1 Hit1| | | | | | |]; subst. simpl in *.
    assert (eps1 = eps) as ->.
    { destruct Hinv as (m0 & eps' & _ & _ & He & _ & _ & Hp).
      pose proof (pi_endpoints _ _ _ _ Hp) as He'. simpl in He'.
      rewrite He', He, Hit in Hit1. congruence. }
    eapply (pool_inv_totals (mon w) eps); eauto.
    eapply (batch_run json_loads (mon w) eps _ _ _ Hwf Hex' Hno).
    by apply pool_inv_fresh.
  - destruct Hinv as (m0 & eps' & _ & _ & _ & Hs & _ & Hp).
    by rewrite (pi_stats _ _ _ _ Hp).
  - destruct Hinv as (m0 & eps' & _ & _ & _ & _ & Hl & Hp).
    by rewrite (pi_length _ _ _ _ Hp).
  - intros i f Hi. by destruct (main_inv_threads m c i _ Hinv Hi) as [Hno _]; eapply Hno.
  - destruct Hr as [[_ Hinj] _]. exact Hinj.
Qed.

(** Remark.  The entries of [self.stats] are all made by [__init__], and no
    probe of the running monitor gets to lines 66-67.  The proofs above
    rest on this: from a dictionary without the entry, which the program
    never has, two probes of one domain can each see it missing and each
    make an object, and the attempt counted on the first one is lost. *)
Example lazy_create_would_lose_an_attempt :
  exists w ts,
    pool_exec sample_loads
      (mkWorld (mkMonitor sample_config [] []) [], [TCall endpoint_up; TCall endpoint_down])
      (w, ts) /\
    forallb done ts = true /\
    probes_of "example.com" [endpoint_up; endpoint_down] = 2 /\
    counters (mon w) "example.com" = Some (mkStats 0 1).
Proof.
  pose (r := run_schedule sample_loads send_timeout
               [0; 0; 1; 1; 0; 0; 0; 1; 1; 1; 0; 0; 1; 1]%nat
               (mkWorld (mkMonitor sample_config [] []) [])
               [TCall endpoint_up; TCall endpoint_down]).
  exists (fst r), (snd r). split; [|by vm_compute].
  rewrite <- surjective_pairing. apply run_schedule_exec.
Qed.

(** C8. Once the endpoint count is logged, the main thread does one fanout
    pass and one report, and then for ever: a wait of 15 seconds, a fanout
    pass, a report.  A pass is joined and its report printed before the
    next pass is submitted, so batches never overlap.  A cancellation that
    arrives once the count is logged prints the stop message and ends the
    loop: the main thread does nothing after it, in particular it submits no
    further batch. *)
Theorem C8_monitor_schedule json_loads loaded printed m :
  __init__ loaded = (printed, Returns m) ->
  (forall tr c,
      exec json_loads (initial m printed) tr c -> shape (pc c) (main_labels tr)) /\
  (forall (send : Transport) n,
      exists tr c, exec json_loads (initial m printed) tr c /\
                   main_labels tr = Start :: rounds n /\ pc c = AtFanout) /\
  (forall tr c,
      exec json_loads (initial m printed) tr c ->
      in_try (pc c) = true ->
      exists c', step json_loads c Interrupt c' /\
                 pc c' = Stopped /\
                 out (world c') = (out (world c) ++ [LStopped])%list /\
                 forall tr' c'', exec json_loads c' tr' c'' ->
                                 pc c'' = Stopped /\ main_labels tr' = []) /\
  (forall tr c l c',
      exec json_loads (initial m printed) tr c ->
      step json_loads c l c' ->
      match l with
      | Start => exists n, len (endpoints m) = Ok n /\
                           out (world c') = (out (world c) ++ [LStarting n])%list
      | Submit => exists eps, iterate (endpoints m) = Ok eps /\ pool c' = map TCall eps
      | Join => forallb done (pool c) = true /\ world c' = world c
      | Report => out (world c') = (out (world c) ++ report (mon (world c)))%list
      | Sleep seconds => seconds = 15 /\ world c' = world c
      | _ => True
      end).
Proof.
  intros Hinit. destruct (init_heap_ok _ _ _ Hinit) as [Hr Hok].
  split_and!.
  - intros tr c Hex. by eapply shape_exec.
  - intros send n. by apply exec_rounds.
  - intros tr c Hex Htry. destruct c as [p w ts]. simpl in Htry.
    exists (mkConfig Stopped (print LStopped w) ts). split_and!; [by constructor|done|done|].
    intros tr' c'' Hex'. by apply (stopped_exec json_loads _ _ _ Hex').
  - intros tr c l c' Hex Hstep.
    pose proof (main_inv_exec json_loads _ _ _ _ Hr Hok Hex)
      as (m0 & eps & _ & _ & He & _ & _ & Hinv).
    pose proof (pi_endpoints _ _ _ _ Hinv) as He'.
    inversion Hstep; subst; simpl in *; auto.
    + exists n. split; [congruence|done].
    + exists eps0. split; [congruence|done].
Qed.

(* ===================================================================== *)
(** * A configuration that is not a list of endpoints                    *)
(* ===================================================================== *)

Lemma initialize_loop_not_mapping l : forall m,
  forallb is_dict l = false -> exists e, initialize_loop l m = Raise e.
Proof.
  induction l as [|ep l IH]; intros m Hl; [discriminate|]. simpl in *.
  destruct (initialize_one m ep) as [m'|e] eqn:H1; simpl; [|eauto].
  apply andb_false_iff in Hl as [Hep|Hl]; [|by apply IH].
  apply initialize_one_inv in H1 as (f & (d & _ & -> & _)%locals_inv & _). discriminate.
Qed.

(** C10, as stated, fails on the code: a top-level empty mapping is not a
    list of endpoint mappings, yet no failure ever surfaces.  [__init__]
    returns, and in every run of the monitor no exception leaves the loop or
    a probe. *)
Lemma C10_counterexample :
  list_of_mappings (VDict []) = false /\
  __init__ (Ok (VDict [])) = ([], Returns (mkMonitor (VDict []) [] [])) /\
  forall json_loads tr c,
    exec json_loads (initial (mkMonitor (VDict []) [] []) []) tr c ->
    ~ In Crash tr /\ forall i r, pool c !! i = Some (TDone r) -> r = None.
Proof.
  split_and!; [reflexivity|reflexivity|].
  intros json_loads tr c Hex.
  destruct (init_heap_ok (Ok (VDict [])) [] _ eq_refl) as [Hr Hok].
  split; [by eapply exec_no_crash|].
  intros i r Hi.
  by eapply (main_inv_threads _ c i (TDone r) (main_inv_exec json_loads _ _ _ _ Hr Hok Hex) Hi).
Qed.

(** C10, amended.  When the file is read and parsed, whatever the value,
    [_load_config] returns it: nothing is printed, the process does not
    exit, and the value becomes [self.endpoints].  For null, a number, a
    boolean, a non-empty mapping, a non-empty string, or a list with an
    element that is not a mapping, an exception then leaves
    [_initialize_stats] uncaught.  For an empty mapping or an empty string
    nothing fails: the monitor is built without domains and runs with zero
    endpoints. *)
Theorem C10_unvalidated_config (v : value) :
  _load_config (Ok v) = ([], Returns v) /\
  (exists o, __init__ (Ok v) = ([], o) /\
             (forall code, o <> Exits code) /\
             (forall m, o = Returns m -> endpoints m = v)) /\
  (match v with
   | VNone | VBool _ | VInt _ | VFloat _ | VDict (_ :: _) | VStr (String _ _) =>
       __init__ (Ok v) = ([], Raises (mkExn TypeError ""))
   | VDict [] | VStr EmptyString =>
       __init__ (Ok v) = ([], Returns (mkMonitor v [] []))
   | VList l =>
       forallb is_dict l = false -> exists e, __init__ (Ok v) = ([], Raises e)
   end) /\
  (v = VDict [] \/ v = VStr "" ->
   forall json_loads tr c,
     exec json_loads (initial (mkMonitor v [] []) []) tr c ->
     ~ In Crash tr /\ forall i r, pool c !! i = Some (TDone r) -> r = None).
Proof.
  split_and!.
  - reflexivity.
  - destruct (__init__ (Ok v)) as [printed o] eqn:Hinit.
    unfold __init__, _load_config in Hinit.
    destruct (_initialize_stats (mkMonitor v [] [])) as [m|e] eqn:Hst;
      injection Hinit as <- <-; eexists; split_and!; try done.
    intros m' [= <-]. unfold _initialize_stats in Hst. simpl in Hst.
    destruct (iterate v) as [eps|]; simpl in Hst; [|done].
    by destruct (initialize_loop_inv _ _ _ Hst (wf_fresh v)) as (_ & ? & _).
  - destruct v as [| | | |[]|l|[|[]]]; try reflexivity.
    intros Hl. unfold __init__, _load_config, _initialize_stats. simpl.
    destruct (initialize_loop_not_mapping l (mkMonitor (VList l) [] []) Hl) as [e ->].
    eauto.
  - intros Hv json_loads tr c Hex.
    assert (Hinit : __init__ (Ok v) = ([], Returns (mkMonitor v [] [])))
      by (by destruct Hv as [-> | ->]).
    destruct (init_heap_ok _ _ _ Hinit) as [Hr Hok].
    split; [by eapply exec_no_crash|].
    intros i r Hi.
    by eapply (main_inv_threads _ c i (TDone r) (main_inv_exec json_loads _ _ _ _ Hr Hok Hex) Hi).
Qed.

(* ===================================================================== *)
(** * The domain of a URL                                                *)
(* ===================================================================== *)

Lemma scheme_char_facts c :
  scheme_char c = true ->
  Ascii.eqb c ":" = false /\ unsafe_byte c = false.
Proof.
  intros H. split.
  - destruct (Ascii.eqb_spec c ":") as [->|]; [by vm_compute in H|done].
  - unfold unsafe_byte.
    destruct (Nat.eqb_spec (nat_of_ascii c) 9) as [E|_];
      [apply (f_equal ascii_of_nat) in E; rewrite ascii_nat_embedding in E; subst c;
       by vm_compute in H|].
    destruct (Nat.eqb_spec (nat_of_ascii c) 13) as [E|_];
      [apply (f_equal ascii_of_nat) in E; rewrite ascii_nat_embedding in E; subst c;
       by vm_compute in H|].
    destruct (Nat.eqb_spec (nat_of_ascii c) 10) as [E|_];
      [apply (f_equal ascii_of_nat) in E; rewrite ascii_nat_embedding in E; subst c;
       by vm_compute in H|].
    reflexivity.
Qed.

Lemma host_char_netloc c : host_char c = true -> netloc_char c = true /\ Ascii.eqb c ":" = false.
Proof.
  unfold host_char, netloc_char, unsafe_byte.
  intros [Hgt Hno%negb_true_iff]%andb_true_iff. apply Nat.ltb_lt in Hgt.
  repeat (apply orb_false_iff in Hno as [Hno ?]).
  split; [|done]. apply andb_true_iff; split.
  - apply negb_true_iff. repeat (apply orb_false_iff; split); apply Nat.eqb_neq; lia.
  - apply negb_true_iff. repeat (apply orb_false_iff; split); done.
Qed.

Lemma digit_netloc c : is_digit c = true -> netloc_char c = true.
Proof.
  unfold is_digit, netloc_char, unsafe_byte.
  intros [H1%Nat.leb_le H2%Nat.leb_le]%andb_true_iff.
  apply andb_true_iff; split; apply negb_true_iff.
  - repeat (apply orb_false_iff; split); apply Nat.eqb_neq; lia.
  - repeat (apply orb_false_iff; split);
      match goal with
      | |- Ascii.eqb c ?x = false =>
          destruct (Ascii.eqb_spec c x) as [->|]; [vm_compute in H1, H2; lia|done]
      end.
Qed.

Lemma append_assoc (s1 s2 s3 : string) : (s1 ++ s2) ++ s3 = s1 ++ (s2 ++ s3).
Proof.
  induction s1 as [|c s1 IH]; [done|].
  change (String c ((s1 ++ s2) ++ s3) = String c (s1 ++ (s2 ++ s3))). by rewrite IH.
Qed.

Lemma all_chars_app p s1 s2 :
  all_chars p (s1 ++ s2) = all_chars p s1 && all_chars p s2.
Proof. induction s1 as [|c s1 IH]; simpl; [done|]. by rewrite IH, andb_assoc. Qed.

Lemma all_chars_impl (p q : ascii -> bool) s :
  (forall c, p c = true -> q c = true) -> all_chars p s = true -> all_chars q s = true.
Proof.
  intros Hpq. induction s as [|c s IH]; simpl; [done|].
  intros [Hc Hs]%andb_true_iff. by rewrite (Hpq _ Hc), IH.
Qed.

Lemma remove_unsafe_app s1 s2 :
  remove_unsafe (s1 ++ s2) = remove_unsafe s1 ++ remove_unsafe s2.
Proof.
  induction s1 as [|c s1 IH]; simpl; [done|]. rewrite IH. by destruct (unsafe_byte c).
Qed.

Lemma remove_unsafe_id s :
  all_chars (fun c => negb (unsafe_byte c)) s = true -> remove_unsafe s = s.
Proof.
  induction s as [|c s IH]; simpl; [done|].
  intros [Hc%negb_true_iff Hs]%andb_true_iff. by rewrite Hc, IH.
Qed.

Lemma partition_colon_app s rest :
  all_chars (fun c => negb (Ascii.eqb c ":")) s = true ->
  partition_colon (s ++ String ":" rest) = Some (s, rest).
Proof.
  induction s as [|c s IH]; simpl; [done|].
  intros [Hc%negb_true_iff Hs]%andb_true_iff. by rewrite Hc, IH.
Qed.

Lemma until_delim_app s rest :
  all_chars netloc_char s = true -> tail_ok rest = true ->
  until_delim (s ++ rest) = s.
Proof.
  intros Hs Hrest. induction s as [|c s IH]; simpl in *.
  - destruct rest as [|c rest]; [done|]. simpl in *. unfold delimiter in Hrest.
    by rewrite Hrest.
  - apply andb_true_iff in Hs as [Hc Hs]. rewrite (IH Hs).
    unfold netloc_char in Hc. apply andb_true_iff in Hc as [_ Hc%negb_true_iff].
    repeat (apply orb_false_iff in Hc as [Hc ?]).
    by repeat match goal with H : Ascii.eqb c _ = false |- _ => rewrite H; clear H end.
Qed.

Lemma contains_char_false x s :
  all_chars (fun c => negb (Ascii.eqb c x)) s = true ->
  contains (String x EmptyString) s = false.
Proof.
  induction s as [|c s IH]; simpl; [done|].
  intros [Hc%negb_true_iff Hs]%andb_true_iff. rewrite (IH Hs).
  rewrite Ascii.eqb_sym in Hc.
  destruct (ascii_dec x c) as [->|Hne]; [by rewrite Ascii.eqb_refl in Hc|done].
Qed.

Lemma split_head_app s rest :
  all_chars (fun c => negb (Ascii.eqb c ":")) s = true ->
  rest = EmptyString \/ (exists r, rest = String ":" r) ->
  split_head ":" (s ++ rest) = s.
Proof.
  intros Hs Hrest. induction s as [|c s IH]; simpl in *.
  - by destruct Hrest as [->|[r ->]].
  - apply andb_true_iff in Hs as [Hc%negb_true_iff Hs]. by rewrite Hc, (IH Hs).
Qed.

(** For a URL [scheme://host], [scheme://host:port], either followed by a
    path, query or fragment, the code returns the host. *)
Lemma extract_domain_plain (c0 : ascii) (scheme host port rest : string) (with_port : bool) :
  (is_lower c0 || is_upper c0) = true ->
  all_chars scheme_char (String c0 scheme) = true ->
  all_chars host_char host = true ->
  all_chars is_digit port = true ->
  tail_ok rest = true ->
  _extract_domain
    (VStr (String c0 scheme ++ "://" ++ host
           ++ (if with_port then String ":" port else EmptyString) ++ rest))
  = Ok host.
Proof.
  intros Halpha Hscheme Hhost Hport Hrest.
  set (suffix := if with_port then String ":" port else EmptyString).
  assert (Hsuffix : all_chars netloc_char suffix = true).
  { subst suffix. destruct with_port; [|done]. simpl.
    by rewrite (all_chars_impl _ _ _ digit_netloc Hport). }
  assert (Hhost' : all_chars netloc_char host = true)
    by (eapply all_chars_impl; [|exact Hhost]; intros c Hc; by apply host_char_netloc).
  assert (Hnocolon : all_chars (fun c => negb (Ascii.eqb c ":")) host = true).
  { eapply all_chars_impl; [|exact Hhost]. intros c Hc.
    apply negb_true_iff. by apply host_char_netloc. }
  assert (Hnetloc : all_chars netloc_char (host ++ suffix) = true)
    by (by rewrite all_chars_app, Hhost', Hsuffix).
  unfold _extract_domain, urlparse_netloc.
  (* nothing to strip in front of a letter *)
  assert (Hstrip : forall s, lstrip_c0 (String c0 s) = String c0 s).
  { intros s. simpl.
    destruct (Nat.leb_spec (nat_of_ascii c0) 32) as [Hle|]; [|done].
    unfold is_lower, is_upper in Halpha.
    apply orb_true_iff in Halpha as [[H1%Nat.leb_le _]%andb_true_iff|[H1%Nat.leb_le _]%andb_true_iff];
      lia. }
  change (String c0 scheme ++ "://" ++ host ++ suffix ++ rest)
    with (String c0 (scheme ++ "://" ++ host ++ suffix ++ rest)).
  rewrite Hstrip.
  change (String c0 (scheme ++ "://" ++ host ++ suffix ++ rest))
    with (String c0 scheme ++ String ":" ("//" ++ host ++ suffix ++ rest)).
  (* the scheme, the separator and the netloc have nothing to remove *)
  rewrite remove_unsafe_app.
  rewrite (remove_unsafe_id (String c0 scheme)).
  2:{ eapply all_chars_impl; [|exact Hscheme]. intros c Hc.
      apply negb_true_iff. by apply scheme_char_facts. }
  change (remove_unsafe (String ":" ("//" ++ host ++ suffix ++ rest)))
    with (String ":" (String "/" (String "/" (remove_unsafe (host ++ suffix ++ rest))))).
  rewrite <- (append_assoc host), remove_unsafe_app.
  rewrite (remove_unsafe_id (host ++ suffix)).
  2:{ eapply all_chars_impl; [|exact Hnetloc]. intros c Hc.
      unfold netloc_char in Hc. by apply andb_true_iff in Hc as [? _]. }
  (* the scheme goes *)
  unfold after_scheme. rewrite partition_colon_app.
  2:{ eapply all_chars_impl; [|exact Hscheme]. intros c Hc.
      apply negb_true_iff. by apply scheme_char_facts. }
  rewrite Halpha, Hscheme. cbn [andb].
  (* the netloc ends where the rest begins *)
  assert (Hrest' : tail_ok (remove_unsafe rest) = true).
  { destruct rest as [|c rest]; [done|]. simpl in *.
    destruct (unsafe_byte c) eqn:Hu; [|done].
    unfold delimiter in Hrest. unfold unsafe_byte in Hu.
    repeat (apply orb_true_iff in Hrest as [Hrest|Hrest]);
      apply Ascii.eqb_eq in Hrest; subst c; by vm_compute in Hu. }
  rewrite (until_delim_app _ _ Hnetloc Hrest').
  rewrite !contains_char_false.
  2,3: eapply all_chars_impl; [|exact Hnetloc]; intros c Hc;
       unfold netloc_char in Hc; apply andb_true_iff in Hc as [_ Hc%negb_true_iff];
       repeat (apply orb_false_iff in Hc as [Hc ?]); by apply negb_true_iff.
  cbn [andb orb negb bind]. f_equal.
  apply split_head_app; [done|]. subst suffix. destruct with_port; eauto.
Qed.

Example extract_domain_https_port :
  _extract_domain (VStr "https://api.example.com:8443/v1") = Ok "api.example.com".
Proof. reflexivity. Qed.

Example extract_domain_http_plain :
  _extract_domain (VStr "http://api.example.com/v2") = Ok "api.example.com".
Proof. reflexivity. Qed.

Example extract_domain_userinfo :
  _extract_domain (VStr "http://user:pw@api.example.com:8443/v1") = Ok "user".
Proof. reflexivity. Qed.

Example extract_domain_ipv6 :
  _extract_domain (VStr "http://[::1]:8080/health") = Ok "[".
Proof. reflexivity. Qed.

(** C4.  On a URL with user information the code returns what stands before
    the first colon of [netloc], which is the user name and not the host; on
    an IPv6 literal it returns the opening bracket.  On the two URLs of the
    specification it returns the host. *)
Theorem C4_extract_domain_userinfo :
  _extract_domain (VStr "http://user:pw@api.example.com:8443/v1") = Ok "user" /\
  _extract_domain (VStr "http://[::1]:8080/health") = Ok "[" /\
  _extract_domain (VStr "https://api.example.com:8443/v1") = Ok "api.example.com" /\
  _extract_domain (VStr "http://api.example.com/v2") = Ok "api.example.com".
Proof. repeat split. Qed.

(* ===================================================================== *)
(** * The theorems at work on the sample configuration                   *)
(* ===================================================================== *)

(** The sample run is a run of the program. *)
Lemma run_label_step json_loads send c l c' :
  run_label json_loads send c l = Some c' -> step json_loads c l c'.
Proof.
  destruct c as [p w ts]. unfold run_label.
  destruct l as [| |i| | |seconds| |], p; try discriminate;
    repeat match goal with
           | |- context [match ?x with _ => _ end] => destruct x eqn:?
           end;
    intros [= <-]; try discriminate;
    try (by constructor);
    try (constructor; econstructor; eauto).
  - apply Z.eqb_eq in Heqb as ->. constructor.
  - eapply step_start_raises; eauto.
  - eapply step_submit_raises; eauto.
Qed.

Lemma run_labels_exec json_loads send ls : forall c c',
  run_labels json_loads send c ls = Some c' -> exec json_loads c ls c'.
Proof.
  induction ls as [|l ls IH]; intros c c'; simpl.
  - intros [= <-]. constructor.
  - destruct (run_label json_loads send c l) as [c1|] eqn:H1; [|done]. intros H.
    change (l :: ls) with ([l] ++ ls)%list.
    eapply exec_trans; [apply exec_one, (run_label_step _ send), H1|by apply IH].
Qed.

Lemma sample_pass_exec :
  exec sample_loads (initial sample_monitor []) sample_trace (sample_pass sample_loads).
Proof. apply (run_labels_exec sample_loads sample_send). by vm_compute. Qed.

Lemma C1_witness :
  success (before (mon (fst (check_health sample_loads sample_send
                                          (mkWorld sample_monitor []) endpoint_up)))
                  "example.com")
  = success (before sample_monitor "example.com") + 1
  <-> 200 <= 200 < 300 /\ (100 # 1000 <= 1 # 2)%Q.
Proof.
  exact (proj1 (C1_success_predicate sample_loads sample_send (mkWorld sample_monitor [])
                  endpoint_up frame_up (mkResponse 200) (100 # 1000)
                  sample_wf eq_refl eq_refl)).
Defined.

Lemma C2_witness :
  counters (mon (world (sample_pass sample_loads))) "example.com" = Some (mkStats 1 2) /\
  0 <= success (mkStats 1 2) <= total (mkStats 1 2).
Proof.
  split; [reflexivity|].
  apply (proj1 (C2_succeeded_le_attempted sample_loads (Ok sample_config) []
                  sample_monitor sample_trace (sample_pass sample_loads) eq_refl
                  sample_pass_exec)
               "example.com").
  reflexivity.
Defined.

Lemma C3_witness :
  0 <= success (mkStats 1 3) <= total (mkStats 1 3) /\
  0 <= percentage (mkStats 1 3) <= 100.
Proof.
  assert (H : 0 <= success (mkStats 1 3) <= total (mkStats 1 3)) by (simpl; lia).
  split; [exact H|].
  exact (proj1 (proj2 (proj2 (proj2 (C3_availability_report "example.com" (mkStats 1 3)
                                       sample_monitor)))) H).
Defined.

Lemma C5_witness :
  payload sample_loads (frame_with [("content-type", VStr "application/json")] "{}")
  = Ok (VDict []).
Proof.
  refine (proj1 (C5_payload sample_loads
                   (frame_with [("content-type", VStr "application/json")] "{}")
                   [("content-type", VStr "application/json")] "{}" _)).
  split_and!; [reflexivity|reflexivity|].
  intros k v [[= <- <-]|[]]. eauto.
Defined.

Lemma C6_witness :
  exists f u,
    locals endpoint_up = Ok f /\ getitem endpoint_up "url" = Ok u /\
    snd (check_health sample_loads send_timeout (mkWorld sample_monitor []) endpoint_up)
    = None.
Proof.
  destruct (C6_errors_stay_in_probe sample_loads (Ok sample_config) [] sample_monitor []
              (initial sample_monitor []) [endpoint_up; endpoint_down] endpoint_up
              send_timeout eq_refl (exec_nil _ _) eq_refl (or_introl eq_refl))
    as ((f & u & Hf & Hu & _ & Hnone & _) & _).
  exists f, u. auto.
Defined.

Lemma C7_witness :
  out (fst (check_health sample_loads sample_send (mkWorld sample_monitor []) endpoint_down))
  = [].
Proof.
  refine (proj1 (C7_silent_miss sample_loads sample_send (mkWorld sample_monitor [])
                   endpoint_down frame_down (mkResponse 500) (100 # 1000)
                   sample_wf eq_refl eq_refl _)).
  simpl. lia.
Defined.

Lemma C8_witness :
  exists tr c,
    exec sample_loads (initial sample_monitor []) tr c /\
    main_labels tr = Start :: rounds 2 /\ pc c = AtFanout.
Proof.
  exact (proj1 (proj2 (C8_monitor_schedule sample_loads (Ok sample_config) []
                         sample_monitor eq_refl)) sample_send 2%nat).
Defined.

Lemma C9_witness :
  exists w' ts',
    pool_exec sample_loads (mkWorld sample_monitor [], map TCall [endpoint_up; endpoint_down])
              (w', ts') /\
    forallb done ts' = true.
Proof.
  exact (proj1 (proj2 (C9_no_lost_update sample_loads (Ok sample_config) [] sample_monitor
                         [] (initial sample_monitor []) [endpoint_up; endpoint_down]
                         eq_refl (exec_nil _ _) eq_refl)) sample_send).
Defined.

Lemma C10_witness :
  forallb is_dict [VInt 1] = false /\
  exists e, __init__ (Ok (VList [VInt 1])) = ([], Raises e).
Proof.
  split; [reflexivity|].
  exact (proj1 (proj2 (proj2 (C10_unvalidated_config (VList [VInt 1])))) eq_refl).
Defined.

(* ===================================================================== *)
(** * Start-up: [main], [__init__] and [_initialize_stats]               *)
(* ===================================================================== *)

Lemma known_assoc {A} d (st : list (string * A)) :
  known d (map fst st) = match assoc d st with Some _ => true | None => false end.
Proof.
  induction st as [|[k v] st IH]; simpl; [done|].
  rewrite String.eqb_sym. destruct (String.eqb k d); [done|exact IH].
Qed.

Lemma dict_set_absent {A} d (v : A) st :
  assoc d st = None -> dict_set d v st = (st ++ [(d, v)])%list.
Proof.
  induction st as [|[k x] st IH]; simpl; [done|].
  destruct (String.eqb k d); [done|]. intros H. by rewrite IH.
Qed.

Lemma endpoint_domain_locals ep :
  match endpoint_domain ep with
  | Ok d => exists f, locals ep = Ok f /\ domain f = d
  | Raise e => locals ep = Raise e
  end.
Proof.
  unfold endpoint_domain, locals. destruct ep; try reflexivity. simpl.
  destruct (assoc "url" d) as [u|]; simpl; [|reflexivity].
  destruct (_extract_domain u) as [dm|e]; simpl; [|reflexivity].
  eexists; split; reflexivity.
Qed.

Lemma initialize_one_domain m ep :
  initialize_one m ep
  = match endpoint_domain ep with
    | Ok d => Ok (match assoc d (stats m) with
                  | None => new_stats d m
                  | Some _ => m
                  end)
    | Raise e => Raise e
    end.
Proof.
  unfold initialize_one, endpoint_domain.
  destruct (getitem ep "url") as [u|]; simpl; [|done].
  by destruct (_extract_domain u).
Qed.

(** The dictionary after the loop: the keys seen before, then the new
    domains in the order they are met, each with a new zeroed object. *)
Lemma initialize_loop_keys eps : forall m m',
  initialize_loop eps m = Ok m' ->
  exists ds,
    Forall2 (fun ep d => endpoint_domain ep = Ok d) eps ds /\
    let new := first_seen (map fst (stats m)) ds in
    map fst (stats m') = (map fst (stats m) ++ new)%list /\
    map snd (stats m') = (map snd (stats m) ++ seq (length (heap m)) (length new))%list /\
    heap m' = (heap m ++ replicate (length new) (mkStats 0 0))%list.
Proof.
  induction eps as [|ep eps IH]; simpl; intros m m' Hrun.
  - injection Hrun as <-. exists []. split; [constructor|]. simpl.
    by rewrite !app_nil_r.
  - rewrite initialize_one_domain in Hrun.
    destruct (endpoint_domain ep) as [d|] eqn:Hd; simpl in Hrun; [|done].
    destruct (IH _ _ Hrun) as (ds & Hall & Hk & Hv & Hh).
    exists (d :: ds). split; [by constructor|]. cbn [first_seen].
    rewrite known_assoc.
    destruct (assoc d (stats m)) as [l|] eqn:Ha; [done|].
    assert (E1 : map fst (dict_set d (length (heap m)) (stats m))
                 = (map fst (stats m) ++ [d])%list)
      by (by rewrite (dict_set_absent _ _ _ Ha), map_app).
    assert (E2 : map snd (dict_set d (length (heap m)) (stats m))
                 = (map snd (stats m) ++ [length (heap m)])%list)
      by (by rewrite (dict_set_absent _ _ _ Ha), map_app).
    cbn [new_stats stats heap] in Hk, Hv, Hh. rewrite E1 in Hk, Hv, Hh. rewrite E2 in Hv.
    rewrite length_app in Hv. cbn [length] in Hv.
    set (new := first_seen (map fst (stats m) ++ [d]) ds) in *.
    split_and!.
    + by rewrite Hk, <- app_assoc.
    + rewrite Hv, <- app_assoc. cbn [length seq app]. by rewrite Nat.add_1_r.
    + rewrite Hh, <- app_assoc. reflexivity.
Qed.

Lemma initialize_loop_raises pre : forall m bad post e,
  Forall (fun ep => exists d, endpoint_domain ep = Ok d) pre ->
  endpoint_domain bad = Raise e ->
  initialize_loop (pre ++ bad :: post) m = Raise e.
Proof.
  induction pre as [|ep pre IH]; intros m bad post e Hpre Hbad; simpl.
  - by rewrite initialize_one_domain, Hbad.
  - inversion Hpre as [|? ? [d Hd] Hpre']; subst.
    rewrite initialize_one_domain, Hd. simpl. by apply IH.
Qed.

Lemma first_seen_In seen ds d :
  In d (first_seen seen ds) <-> In d ds /\ known d seen = false.
Proof.
  revert seen. induction ds as [|d0 ds IH]; intros seen; simpl; [tauto|].
  destruct (known d0 seen) eqn:Hk.
  - rewrite IH. split; [tauto|]. intros [[->|Hin] Hd]; [congruence|tauto].
  - simpl. rewrite IH. unfold known in *. rewrite existsb_app. simpl.
    rewrite orb_false_r.
    destruct (String.eqb_spec d d0) as [->|Hne].
    + rewrite orb_true_r. split; [intros [_|[_ ?]]; [tauto|done]|tauto].
    + rewrite orb_false_r. split; [|tauto]. intros [->|?]; [done|tauto].
Qed.

Lemma first_seen_NoDup seen ds : NoDup (first_seen seen ds).
Proof.
  revert seen. induction ds as [|d0 ds IH]; intros seen; simpl; [constructor|].
  destruct (known d0 seen) eqn:Hk; [apply IH|].
  apply NoDup_cons_2; [|apply IH].
  intros Hin%list_elem_of_In%first_seen_In. destruct Hin as [_ Hin].
  unfold known in Hin. rewrite existsb_app in Hin. simpl in Hin.
  by rewrite String.eqb_refl, orb_true_r in Hin.
Qed.

Lemma assoc_keys {A} d (st : list (string * A)) :
  In d (map fst st) -> is_Some (assoc d st).
Proof.
  induction st as [|[k v] st IH]; simpl; [done|].
  destruct (String.eqb_spec k d) as [->|Hne]; [eauto|].
  intros [?|?]; [done|auto].
Qed.

(** X1. The process exits with code 1 exactly when reading or parsing the
    configuration file raised, and then the error line is all it printed.
    When the file was loaded, nothing is printed before [monitor()]: either
    [_initialize_stats] raises and the exception leaves [main] uncaught, or
    [monitor()] starts on a monitor holding the loaded value, in which every
    configured endpoint has its domain entered and all counters are zero. *)
Theorem X1_main_outcome loaded printed o :
  main loaded = (printed, o) ->
  match o with
  | Exits code =>
      exists e, loaded = Raise e /\ code = 1 /\ printed = [LConfigError e]
  | Raises e =>
      exists v, loaded = Ok v /\ printed = [] /\
                _initialize_stats (mkMonitor v [] []) = Raise e
  | Returns c =>
      exists v m, loaded = Ok v /\ printed = [] /\ c = initial m [] /\
                  endpoints m = v /\ ready m /\
                  Forall (fun s => s = mkStats 0 0) (heap m)
  end.
Proof.
  unfold main. destruct (__init__ loaded) as [pr [m|e|code]] eqn:Hinit;
    intros [= <- <-].
  - destruct (init_ready _ _ _ Hinit) as (Hr & -> & -> & Hz).
    exists (endpoints m), m. split_and!; auto.
  - unfold __init__, _load_config in Hinit. destruct loaded as [v|e0]; [|done].
    destruct (_initialize_stats (mkMonitor v [] [])) as [m|e1] eqn:Hst; [done|].
    injection Hinit as <- <-. eauto.
  - unfold __init__, _load_config in Hinit. destruct loaded as [v|e0].
    + by destruct (_initialize_stats (mkMonitor v [] [])).
    + injection Hinit as <- <-. eauto.
Qed.

(** X2. For a configuration that is a list, when [__init__] returns, the
    dictionary has one entry for each distinct domain of the endpoints, in
    the order in which the list first mentions them, each with its own new
    object whose counters are zero. *)
Theorem X2_init_first_seen_order eps m :
  __init__ (Ok (VList eps)) = ([], Returns m) ->
  exists ds,
    Forall2 (fun ep d => endpoint_domain ep = Ok d) eps ds /\
    map fst (stats m) = first_seen [] ds /\
    map snd (stats m) = seq 0 (length (first_seen [] ds)) /\
    heap m = replicate (length (first_seen [] ds)) (mkStats 0 0) /\
    NoDup (map fst (stats m)) /\
    (forall d, In d ds <-> In d (map fst (stats m))) /\
    (forall d, In d ds -> counters m d = Some (mkStats 0 0)).
Proof.
  intros Hinit. unfold __init__, _load_config, _initialize_stats in Hinit. simpl in Hinit.
  destruct (initialize_loop eps (mkMonitor (VList eps) [] [])) as [m'|] eqn:Hloop; [|done].
  injection Hinit as ->.
  destruct (initialize_loop_keys _ _ _ Hloop) as (ds & Hall & Hk & Hv & Hh). simpl in *.
  assert (Hin : forall d, In d ds <-> In d (map fst (stats m))).
  { intros d. rewrite Hk, first_seen_In. simpl. tauto. }
  exists ds. split_and!; auto.
  - rewrite Hk. apply first_seen_NoDup.
  - intros d Hd. unfold counters, deref.
    destruct (assoc_keys d (stats m)) as [l Hl]; [by apply Hin|]. rewrite Hl. simpl.
    assert (Hl' : In l (map snd (stats m))).
    { apply in_map_iff. exists (d, l). split; [done|]. by apply assoc_In. }
    rewrite Hv in Hl'. apply in_seq in Hl'. rewrite Hh.
    rewrite lookup_replicate_2 by lia. done.
Qed.

(** X3. The first endpoint whose [url] is missing or unusable decides how
    [__init__] ends: when the endpoints before it are in order, its
    exception leaves [__init__] (and [main]) uncaught, whatever follows it
    in the list.  An entry that is not a mapping raises [TypeError], a
    mapping without [url] raises [KeyError]. *)
Theorem X3_init_first_bad_endpoint pre bad post :
  Forall (fun ep => exists d, endpoint_domain ep = Ok d) pre ->
  (forall e, endpoint_domain bad = Raise e ->
             __init__ (Ok (VList (pre ++ bad :: post))) = ([], Raises e) /\
             main (Ok (VList (pre ++ bad :: post))) = ([], Raises e)) /\
  (is_dict bad = false ->
   __init__ (Ok (VList (pre ++ bad :: post))) = ([], Raises (mkExn TypeError ""))) /\
  (forall d, bad = VDict d -> assoc "url" d = None ->
   __init__ (Ok (VList (pre ++ bad :: post))) = ([], Raises (mkExn KeyError ""))).
Proof.
  intros Hpre.
  assert (H : forall e, endpoint_domain bad = Raise e ->
                        __init__ (Ok (VList (pre ++ bad :: post))) = ([], Raises e)).
  { intros e Hbad. unfold __init__, _load_config, _initialize_stats. simpl.
    by rewrite (initialize_loop_raises pre _ bad post e Hpre Hbad). }
  split_and!.
  - intros e Hbad. split; [by apply H|]. unfold main. by rewrite (H e Hbad).
  - intros Hnd. apply H. by destruct bad.
  - intros d -> Hno. apply H. unfold endpoint_domain. simpl. by rewrite Hno.
Qed.

Lemma X1_witness :
  exists v m, Ok sample_config = Ok v /\ ([] : list Line) = [] /\
              initial sample_monitor [] = initial m [] /\
              endpoints m = v /\ ready m /\
              Forall (fun s => s = mkStats 0 0) (heap m).
Proof.
  exact (X1_main_outcome (Ok sample_config) [] (Returns (initial sample_monitor []))
                         eq_refl).
Defined.

Lemma X2_witness :
  exists ds,
    Forall2 (fun ep d => endpoint_domain ep = Ok d) [endpoint_up; endpoint_down] ds /\
    map fst (stats sample_monitor) = first_seen [] ds /\
    map snd (stats sample_monitor) = seq 0 (length (first_seen [] ds)) /\
    heap sample_monitor = replicate (length (first_seen [] ds)) (mkStats 0 0) /\
    NoDup (map fst (stats sample_monitor)) /\
    (forall d, In d ds <-> In d (map fst (stats sample_monitor))) /\
    (forall d, In d ds -> counters sample_monitor d = Some (mkStats 0 0)).
Proof.
  exact (X2_init_first_seen_order [endpoint_up; endpoint_down] sample_monitor eq_refl).
Defined.

Lemma X3_witness :
  __init__ (Ok (VList ([endpoint_up] ++ VDict [("name", VStr "no url")] :: [endpoint_down])))
  = ([], Raises (mkExn KeyError "")).
Proof.
  refine (proj2 (proj2 (X3_init_first_bad_endpoint [endpoint_up]
                          (VDict [("name", VStr "no url")]) [endpoint_down] _))
                _ eq_refl eq_refl).
  constructor; [|constructor]. by eexists.
Defined.

(* ===================================================================== *)
(** * More on [_extract_domain]                                          *)
(* ===================================================================== *)

Lemma all_chars_lstrip p s : all_chars p s = true -> all_chars p (lstrip_c0 s) = true.
Proof.
  induction s as [|c s IH]; simpl; [done|].
  intros H. destruct (nat_of_ascii c <=? 32)%nat; [|done].
  apply andb_true_iff in H as [_ H]. auto.
Qed.

Lemma all_chars_remove_unsafe p s :
  all_chars p s = true -> all_chars p (remove_unsafe s) = true.
Proof.
  induction s as [|c s IH]; simpl; [done|].
  intros [Hc Hs]%andb_true_iff. destruct (unsafe_byte c); simpl; [auto|].
  by rewrite Hc, IH.
Qed.

Lemma all_chars_partition_colon p s pre post :
  partition_colon s = Some (pre, post) ->
  all_chars p s = true -> all_chars p post = true.
Proof.
  revert pre. induction s as [|c s IH]; intros pre; simpl; [done|].
  intros H [Hc Hs]%andb_true_iff.
  destruct (Ascii.eqb c ":"); [by injection H as <- <-|].
  destruct (partition_colon s) as [[pre' post']|] eqn:Hp; [|done].
  injection H as <- <-. eauto.
Qed.

Lemma all_chars_after_scheme p s :
  all_chars p s = true -> all_chars p (after_scheme s) = true.
Proof.
  intros H. unfold after_scheme.
  destruct (partition_colon s) as [[[|c0 pre] post]|] eqn:Hp; try done.
  destruct (_ && _); [|done]. by eapply all_chars_partition_colon.
Qed.

Lemma all_chars_split_head p sep s :
  all_chars p s = true -> all_chars p (split_head sep s) = true.
Proof.
  induction s as [|c s IH]; simpl; [done|].
  intros [Hc Hs]%andb_true_iff. destruct (Ascii.eqb c sep); simpl; [done|].
  by rewrite Hc, IH.
Qed.

Lemma split_head_no_sep sep s :
  all_chars (fun c => negb (Ascii.eqb c sep)) (split_head sep s) = true.
Proof.
  induction s as [|c s IH]; simpl; [done|].
  destruct (Ascii.eqb c sep) eqn:E; simpl; [done|]. by rewrite E, IH.
Qed.

Lemma until_delim_no_delim s :
  all_chars (fun c => negb (delimiter c)) (until_delim s) = true.
Proof.
  induction s as [|c s IH]; simpl; [done|]. fold (delimiter c).
  destruct (delimiter c) eqn:E; simpl; [done|]. by rewrite E, IH.
Qed.

Lemma all_chars_and p q s :
  all_chars p s = true -> all_chars q s = true ->
  all_chars (fun c => p c && q c) s = true.
Proof.
  induction s as [|c s IH]; simpl; [done|].
  intros [-> Hp]%andb_true_iff [-> Hq]%andb_true_iff. simpl. auto.
Qed.

(** [netloc] is read only behind two slashes. *)
Lemma urlparse_netloc_shape url :
  let u := after_scheme (remove_unsafe (lstrip_c0 url)) in
  (exists rest,
      u = String "/" (String "/" rest) /\
      urlparse_netloc url
      = (let netloc := until_delim rest in
         let lb := contains "[" netloc in
         let rb := contains "]" netloc in
         if (lb && negb rb) || (rb && negb lb)
         then Raise (mkExn ValueError "Invalid IPv6 URL")
         else if lb && rb then
                do _ <- _check_bracketed_netloc netloc;
                Ok netloc
              else Ok netloc)) \/
  ((forall rest, u <> String "/" (String "/" rest)) /\ urlparse_netloc url = Ok "").
Proof.
  unfold urlparse_netloc. cbv zeta.
  destruct (after_scheme (remove_unsafe (lstrip_c0 url))) as [|a [|b rest]].
  - right. split; [done|reflexivity].
  - right. split; [done|]. by destruct a as [[] [] [] [] [] [] [] []].
  - destruct (ascii_dec a "/") as [->|Ha].
    + destruct (ascii_dec b "/") as [->|Hb].
      * left. exists rest. split; reflexivity.
      * right. split; [by intros r [= ?]|].
        destruct b as [[] [] [] [] [] [] [] []]; try reflexivity. done.
    + right. split; [by intros r [= ? ?]|].
      destruct a as [[] [] [] [] [] [] [] []]; try reflexivity. done.
Qed.


(** X5. Whatever the URL, a domain the code derives has no colon, no slash,
    no question mark and no hash sign: it holds no port and nothing of the
    path, the query or the fragment. *)
Theorem X5_domain_has_no_delimiter (u : value) (d : string) :
  _extract_domain u = Ok d -> all_chars domain_char d = true.
Proof.
  unfold _extract_domain. destruct u; try (by destruct (truthy _)).
  destruct (urlparse_netloc_shape s) as [(rest & _ & ->)|[_ ->]]; cbv zeta.
  - destruct (_ || _); simpl; [done|].
    assert (H : forall r : Result string,
               (r = Ok (until_delim rest) \/ exists e, r = Raise e) ->
               (do netloc <- r; Ok (split_head ":" netloc)) = Ok d ->
               d = split_head ":" (until_delim rest)).
    { intros r [->|[e ->]]; simpl; [by intros [= <-]|done]. }
    intros ->%H.
    2:{ destruct (_ && _); [|by left].
        destruct (_check_bracketed_netloc _); simpl; eauto. }
    eapply all_chars_impl;
      [|apply (all_chars_and (fun c => negb (Ascii.eqb c ":"))
                             (fun c => negb (delimiter c)))].
    + intros c [H1%negb_true_iff H2%negb_true_iff]%andb_true_iff.
      unfold domain_char. by rewrite H1, H2.
    + apply split_head_no_sep.
    + apply all_chars_split_head, until_delim_no_delim.
  - simpl. by intros [= <-].
Qed.

(** X6. A URL without any slash, such as a bare host name or [host:port]
    written without its scheme, has the empty domain: all endpoints written
    that way are counted together under the key [""]. *)
Theorem X6_no_slash_empty_domain (s : string) :
  all_chars not_slash s = true -> _extract_domain (VStr s) = Ok "".
Proof.
  intros H. unfold _extract_domain.
  pose proof (all_chars_after_scheme _ _
                (all_chars_remove_unsafe _ _ (all_chars_lstrip _ _ H))) as H'.
  destruct (urlparse_netloc_shape s) as [(rest & Hu & _)|[_ ->]]; [|reflexivity].
  cbv zeta in Hu. rewrite Hu in H'. discriminate.
Qed.


Lemma X5_witness : all_chars domain_char "user" = true.
Proof.
  exact (X5_domain_has_no_delimiter (VStr "http://user:pw@api.example.com:8443/v1") "user"
                                    eq_refl).
Defined.

Lemma X6_witness : _extract_domain (VStr "example.com:8080") = Ok "".
Proof.
  exact (X6_no_slash_empty_domain "example.com:8080" eq_refl).
Defined.

(* ===================================================================== *)
(** * More on [check_health]                                             *)
(* ===================================================================== *)

(** The dictionary and the number of objects after a probe *)
Lemma check_health_stats json_loads send w ep f :
  locals ep = Ok f ->
  let m' := mon (fst (check_health json_loads send w ep)) in
  match assoc (domain f) (stats (mon w)) with
  | Some _ => stats m' = stats (mon w) /\ length (heap m') = length (heap (mon w))
  | None => stats m' = dict_set (domain f) (length (heap (mon w))) (stats (mon w)) /\
            length (heap m') = S (length (heap (mon w)))
  end.
Proof.
  intros Hf. unfold check_health, try_block. rewrite Hf.
  destruct (attempt json_loads send f) as [[response response_time]|e] eqn:Hat;
    [destruct (meets_criteria (status_code response) response_time) eqn:Hm;
     [destruct (get (endpoint f) "name" (url f)) as [name|e] eqn:Hn|]|];
    (destruct (assoc (domain f) (stats (mon w))) as [l|] eqn:Ha;
     repeat (cbn [mon out stats heap on_object print new_stats fst snd];
             rewrite ?Ha, ?Hat, ?Hm, ?Hn, ?assoc_dict_set_eq);
     rewrite ?length_alter, ?length_app; cbn [length]; split; (reflexivity || lia)).
Qed.

Lemma json_flagged_typed hs :
  (forall k v, In (k, v) hs -> exists s, v = VStr s) ->
  json_flagged (VDict hs) = Ok (flagged_as_json hs).
Proof.
  intros Hty. unfold json_flagged, flagged_as_json. simpl.
  destruct (assoc "content-type" hs) as [v|] eqn:Hct; simpl; [|done].
  by destruct (Hty _ _ (assoc_In _ _ _ Hct)) as [ct ->].
Qed.


(** X8. An exception leaves [check_health] exactly when [endpoint['url']] or
    [_extract_domain] raises, the lines before the [try] block; then no
    attempt is counted and nothing is printed, and the worker ends with that
    exception, leaving what the threads share untouched. *)
Theorem X8_exception_leaves_probe json_loads send w ep e :
  wf (mon w) ->
  (snd (check_health json_loads send w ep) = Some e <-> endpoint_domain ep = Raise e) /\
  (endpoint_domain ep = Raise e ->
   fst (check_health json_loads send w ep) = w /\
   tstep json_loads send w (TCall ep) = (w, TDone (Some e))).
Proof.
  intros Hwf. pose proof (endpoint_domain_locals ep) as Hl.
  destruct (endpoint_domain ep) as [d|e'].
  - destruct Hl as (f & Hf & _).
    destruct (probe_counters json_loads send w ep f Hwf Hf) as (Hnone & _).
    split; [|done]. rewrite Hnone. split; discriminate.
  - unfold check_health. simpl. rewrite Hl. simpl.
    split; [split; congruence|]. by intros [= ->].
Qed.

(** X9. A body given as a mapping instead of a string (and not empty) is
    sent as the JSON payload when the headers do not flag JSON.  When they
    do, [json.loads] refuses the mapping: the request is never sent, the
    probe prints the unexpected-error line and counts as a failed attempt. *)
Theorem X9_mapping_body json_loads send w ep f hs k x b :
  wf (mon w) ->
  locals ep = Ok f ->
  headers f = VDict hs ->
  (forall k v, In (k, v) hs -> exists s, v = VStr s) ->
  body f = VDict ((k, x) :: b) ->
  let w' := fst (check_health json_loads send w ep) in
  (flagged_as_json hs = false ->
   attempt json_loads send f
   = send (mkRequest (method f) (url f) (headers f) (body f) VNone (1 # 2))) /\
  (flagged_as_json hs = true ->
   attempt json_loads send f = Raise (mkExn TypeError "") /\
   out w' = (out w ++ [LUnexpected (url f) (mkExn TypeError "")])%list /\
   counters (mon w') (domain f) = Some (increment_total (before (mon w) (domain f)))).
Proof.
  intros Hwf Hf Hh Hty Hb w'.
  assert (Hp : payload json_loads f
               = if flagged_as_json hs then Raise (mkExn TypeError "") else Ok (body f)).
  { unfold payload. rewrite Hb, Hh. simpl. rewrite (json_flagged_typed _ Hty). simpl.
    by destruct (flagged_as_json hs). }
  split; intros Hfl; rewrite Hfl in Hp.
  - unfold attempt. rewrite Hp. simpl. unfold build_request. by rewrite Hb.
  - assert (Hat : attempt json_loads send f = Raise (mkExn TypeError ""))
      by (unfold attempt; by rewrite Hp).
    destruct (check_health_spec json_loads send w ep f Hwf Hf)
      as (w1 & Hrun & _ & _ & _ & _ & Heff).
    assert (w1 = w') as -> by (subst w'; by rewrite Hrun).
    unfold probe_effect in Heff. rewrite Hat in Heff. destruct Heff as [Hc Hout].
    split_and!; auto.
Qed.

(** X10. The headers are looked at only when there is a body.  Without one
    the request goes out with no payload whatever the headers are, even when
    they are not a mapping.  With one, headers that are null, a number or a
    boolean make the test of line 74 raise: the request is never sent and
    the probe prints the unexpected-error line. *)
Theorem X10_headers_read_only_with_body json_loads send w ep f :
  wf (mon w) ->
  locals ep = Ok f ->
  let w' := fst (check_health json_loads send w ep) in
  (truthy (body f) = false ->
   attempt json_loads send f
   = send (mkRequest (method f) (url f) (headers f) VNone VNone (1 # 2))) /\
  (truthy (body f) = true -> is_container (headers f) = false ->
   attempt json_loads send f = Raise (mkExn TypeError "") /\
   out w' = (out w ++ [LUnexpected (url f) (mkExn TypeError "")])%list /\
   counters (mon w') (domain f) = Some (increment_total (before (mon w) (domain f)))).
Proof.
  intros Hwf Hf w'. split.
  - intros Hb. unfold attempt, payload. by rewrite Hb.
  - intros Hb Hc.
    assert (Hat : attempt json_loads send f = Raise (mkExn TypeError "")).
    { unfold attempt, payload, json_flagged. rewrite Hb.
      by destruct (headers f). }
    destruct (check_health_spec json_loads send w ep f Hwf Hf)
      as (w1 & Hrun & _ & _ & _ & _ & Heff).
    assert (w1 = w') as -> by (subst w'; by rewrite Hrun).
    unfold probe_effect in Heff. rewrite Hat in Heff. destruct Heff as [? ?].
    split_and!; auto.
Qed.


Lemma X8_witness :
  fst (check_health sample_loads sample_send (mkWorld sample_monitor [])
                    (VDict [("name", VStr "no url")]))
  = mkWorld sample_monitor [].
Proof.
  exact (proj1 (proj2 (X8_exception_leaves_probe sample_loads sample_send
                         (mkWorld sample_monitor []) (VDict [("name", VStr "no url")])
                         (mkExn KeyError "") sample_wf) eq_refl)).
Defined.

Lemma X9_witness :
  attempt sample_loads sample_send
          (mkFrame (VDict [("url", VStr "https://example.com/up");
                           ("body", VDict [("k", VInt 1)])])
                   (VStr "https://example.com/up") (VStr "GET") (VDict [])
                   (VDict [("k", VInt 1)]) "example.com")
  = sample_send (mkRequest (VStr "GET") (VStr "https://example.com/up") (VDict [])
                           (VDict [("k", VInt 1)]) VNone (1 # 2)).
Proof.
  refine (proj1 (X9_mapping_body sample_loads sample_send (mkWorld sample_monitor [])
                   (VDict [("url", VStr "https://example.com/up");
                           ("body", VDict [("k", VInt 1)])])
                   _ [] "k" (VInt 1) [] sample_wf eq_refl eq_refl _ eq_refl) eq_refl).
  intros k v [].
Defined.

Lemma X10_witness :
  attempt sample_loads sample_send
          (mkFrame (VDict [("url", VStr "https://example.com/up"); ("headers", VNone)])
                   (VStr "https://example.com/up") (VStr "GET") VNone (VStr "")
                   "example.com")
  = sample_send (mkRequest (VStr "GET") (VStr "https://example.com/up") VNone
                           VNone VNone (1 # 2)).
Proof.
  exact (proj1 (X10_headers_read_only_with_body sample_loads sample_send
                  (mkWorld sample_monitor [])
                  (VDict [("url", VStr "https://example.com/up"); ("headers", VNone)])
                  _ sample_wf eq_refl) eq_refl).
Defined.

(* ===================================================================== *)
(** * More on the percentage                                             *)
(* ===================================================================== *)

Lemma nearest_even_mono (n n' d : Z) :
  0 < d -> n <= n' -> nearest_even n d <= nearest_even n' d.
Proof.
  intros Hd Hn.
  pose proof (nearest_even_is_nearest n d Hd) as [Hp He]. cbv zeta in Hp, He.
  pose proof (nearest_even_is_nearest n' d Hd) as [Hp' He']. cbv zeta in Hp', He'.
  set (p := nearest_even n d) in *. set (p' := nearest_even n' d) in *.
  destruct (Z_le_gt_dec p p') as [|Hgt]; [done|exfalso].
  assert (H1 : 2 * p * d - d <= 2 * n) by lia.
  assert (H2 : 2 * n' <= 2 * p' * d + d) by lia.
  assert (Hpp : p = p' + 1) by nia.
  assert (E1 : Z.abs (2 * n - 2 * p * d) = d) by nia.
  assert (E2 : Z.abs (2 * n' - 2 * p' * d) = d) by nia.
  specialize (He E1). specialize (He' E2).
  rewrite Hpp, Z.even_add, He' in He. discriminate.
Qed.

Lemma nearest_even_unique (n d p : Z) :
  0 < d ->
  Z.abs (2 * n - 2 * p * d) < d \/ (Z.abs (2 * n - 2 * p * d) = d /\ Z.even p = true) ->
  nearest_even n d = p.
Proof.
  intros Hd Hp.
  pose proof (nearest_even_is_nearest n d Hd) as [Hq He]. cbv zeta in Hq, He.
  set (q := nearest_even n d) in *.
  destruct (Z.eq_dec q p) as [|Hne]; [done|exfalso].
  assert (Hd1 : q = p + 1 \/ q = p - 1) by nia.
  assert (E1 : Z.abs (2 * n - 2 * q * d) = d) by nia.
  assert (E2 : Z.abs (2 * n - 2 * p * d) = d) by nia.
  specialize (He E1). destruct Hp as [Hp|[_ Hp]]; [lia|].
  destruct Hd1 as [-> | ->].
  - rewrite Z.even_add, Hp in He. discriminate.
  - rewrite Z.even_sub, Hp in He. discriminate.
Qed.

(** X11. The report shows 100% exactly when at most one request in two
    hundred failed, and 0% exactly when at most one in two hundred
    succeeded: because of the rounding, 100% does not mean that no request
    failed (199 successes out of 200 print 100%), nor 0% that none
    succeeded. *)
Theorem X11_percentage_extremes (stat : DomainStats) :
  0 <= success stat <= total stat ->
  0 < total stat ->
  (percentage stat = 100 <-> 199 * total stat <= 200 * success stat) /\
  (percentage stat = 0 <-> 200 * success stat <= total stat).
Proof.
  intros Hs Ht. rewrite percentage_spec. unfold spec_percentage.
  destruct (Z.gtb_spec (total stat) 0); [|lia].
  pose proof (nearest_even_is_nearest (100 * success stat) (total stat) Ht) as [Hp He].
  cbv zeta in Hp, He.
  split; split.
  - intros E. rewrite E in Hp. lia.
  - intros Hle. apply nearest_even_unique; [done|].
    destruct (Z.eq_dec (199 * total stat) (200 * success stat)); [right|left].
    + split; [lia|reflexivity].
    + lia.
  - intros E. rewrite E in Hp. lia.
  - intros Hle. apply nearest_even_unique; [done|].
    destruct (Z.eq_dec (200 * success stat) (total stat)); [right|left].
    + split; [lia|reflexivity].
    + lia.
Qed.

(** X12. With the same number of attempts, more successes never print a
    lower percentage. *)
Theorem X12_percentage_monotone (s s' t : Z) :
  0 < t -> s <= s' -> percentage (mkStats s t) <= percentage (mkStats s' t).
Proof.
  intros Ht Hs. rewrite !percentage_spec. unfold spec_percentage. simpl.
  destruct (Z.gtb_spec t 0); [|lia].
  apply nearest_even_mono; lia.
Qed.

Lemma X11_witness :
  percentage (mkStats 199 200) = 100 <-> 199 * 200 <= 200 * 199.
Proof.
  refine (proj1 (X11_percentage_extremes (mkStats 199 200) _ _)); simpl; lia.
Defined.

Lemma X12_witness : percentage (mkStats 1 3) <= percentage (mkStats 2 3).
Proof.
  apply (X12_percentage_monotone 1 2 3); lia.
Defined.

(* ===================================================================== *)
(** * The books of the running monitor                                   *)
(* ===================================================================== *)

Lemma joins_snoc tr l :
  joins (tr ++ [l]) = joins tr + match l with Join => 1 | _ => 0 end.
Proof.
  induction tr as [|l0 tr IH]; simpl; [by destruct l|].
  destruct l0; rewrite IH; lia.
Qed.

Lemma logged_app d o1 o2 : logged d (o1 ++ o2) = logged d o1 + logged d o2.
Proof. induction o1 as [|l o1 IH]; simpl; [done|]. rewrite IH. lia. Qed.

Lemma logged_report d m : logged d (report m) = 0.
Proof.
  unfold report. rewrite !logged_app. simpl.
  induction (stats m) as [|[k l] st IH]; simpl; [done|]. lia.
Qed.

Lemma logged_except d u e : logged d [except_line u e] = 0.
Proof. unfold except_line. by destruct (exn_class e). Qed.

Lemma tally_none p m l eps : forall ts,
  (forall t, In t ts -> p t = false) -> tally p m l eps ts = 0.
Proof.
  induction eps as [|ep eps IH]; intros ts Hp; simpl; [done|].
  destruct ts as [|t ts]; [done|].
  rewrite IH by (intros; apply Hp; by right).
  unfold weight. rewrite (Hp t) by (by left). by rewrite andb_false_r.
Qed.

Lemma tally_pending_done m l eps ts :
  forallb done ts = true -> tally pending m l eps ts = 0.
Proof.
  intros Hd. apply tally_none. intros t Hin.
  rewrite forallb_forall in Hd. specialize (Hd t Hin). by destruct t.
Qed.

Lemma not_all_done ts i t :
  ts !! i = Some t -> done t = false -> forallb done ts = true -> False.
Proof.
  intros Ht Hd Hall. rewrite forallb_forall in Hall.
  rewrite (Hall t) in Hd; [done|]. apply list_elem_of_In. by eapply list_elem_of_lookup_2.
Qed.

(** A step that counts no success and prints no SUCCESS line *)
Lemma log_ok_local m0 eps w ts i ep t t' w' :
  log_ok m0 eps w ts ->
  eps !! i = Some ep -> ts !! i = Some t ->
  (forall l s, heap (mon w') !! l = Some s ->
               exists s0, heap (mon w) !! l = Some s0 /\ success s0 = success s) ->
  (forall d, logged d (out w') = logged d (out w)) ->
  pending t' = pending t ->
  log_ok m0 eps w' (<[i := t']> ts).
Proof.
  intros Hlog Hep Ht Hheap Hout Hpend d l s Hl Hs.
  destruct (Hheap l s Hs) as (s0 & Hs0 & <-).
  rewrite (tally_insert _ _ _ _ _ _ _ _ _ Hep Ht), Hout.
  unfold weight. rewrite Hpend. specialize (Hlog d l s0 Hl Hs0). lia.
Qed.

Lemma log_ok_step json_loads m0 eps w ts w' ts' i :
  wf m0 ->
  pool_inv m0 eps w ts ->
  log_ok m0 eps w ts ->
  pool_step json_loads i (w, ts) (w', ts') ->
  log_ok m0 eps w' ts'.
Proof.
  intros Hwf Hinv Hlog Hstep.
  inversion Hstep as [send w0 ts0 t w1 t' Ht Hrun Hts]; subst.
  destruct (Forall2_lookup_r _ _ _ _ _ (pi_tracks _ _ _ _ Hinv) Ht)
    as (ep & Hep & f & l & Hf & Hl & Hshape).
  assert (Hl' : assoc (domain f) (stats (mon w)) = Some l)
    by (by rewrite (pi_stats _ _ _ _ Hinv)).
  assert (Hloc : loc_of m0 ep = Some l) by (unfold loc_of; by rewrite Hf).
  assert (Hsame : forall l0 s, heap (mon w) !! l0 = Some s ->
                    exists s0, heap (mon w) !! l0 = Some s0 /\ success s0 = success s)
    by eauto.
  destruct t; simpl in Hshape, Hrun, Hts; try done.
  - subst endpoint0. rewrite Hf in Hts. injection Hts as <- <-.
    eapply log_ok_local; eauto.
  - subst f0. rewrite Hl' in Hts. injection Hts as <- <-.
    eapply log_ok_local; eauto.
  - subst f0. rewrite Hl' in Hts. injection Hts as <- <-.
    eapply log_ok_local; eauto.
  - (* TIncTotal *)
    destruct Hshape as [-> ->]. injection Hts as <- <-.
    eapply log_ok_local; eauto. cbn [mon on_object heap].
    intros l0 s Hs. destruct (decide (l = l0)) as [<-|Hne].
    + rewrite list_lookup_alter_eq in Hs.
      destruct (heap (mon w) !! l) as [s0|]; [|done]. injection Hs as <-. eauto.
    + rewrite list_lookup_alter_ne in Hs by done. eauto.
  - (* TRequest *)
    subst f0.
    destruct (attempt json_loads send f) as [[response response_time]|e];
      [destruct (meets_criteria (status_code response) response_time)|];
      injection Hts as <- <-; (eapply log_ok_local; eauto).
  - (* TPrintSuccess: the line is printed, the thread owes the count *)
    subst f0. rewrite (get_name _ _ Hf) in Hts. injection Hts as <- <-.
    intros d l0 s Hl0 Hs. cbn [print mon out] in *.
    rewrite (tally_insert _ _ _ _ _ _ _ _ _ Hep Ht), logged_app.
    specialize (Hlog d l0 s Hl0 Hs). simpl.
    destruct (locals_inv _ _ Hf) as (dd & u & _ & _ & _ & Hu & Hdom).
    rewrite Hu, Hdom.
    destruct (decide (l = l0)) as [<-|Hne].
    + rewrite !(weight_same _ _ _ _ _ Hloc). simpl.
      assert (domain f = d) as -> by (eapply (wf_inj _ Hwf); eauto).
      rewrite String.eqb_refl. lia.
    + rewrite !(weight_other _ _ _ _ _ _ Hloc Hne).
      destruct (String.eqb_spec (domain f) d) as [<-|_]; [congruence|lia].
  - subst f0. rewrite Hl' in Hts. injection Hts as <- <-.
    eapply log_ok_local; eauto.
  - (* TIncSuccess: the count is paid *)
    destruct Hshape as [-> ->]. injection Hts as <- <-.
    intros d l0 s Hl0 Hs. cbn [mon on_object heap out] in *.
    rewrite (tally_insert _ _ _ _ _ _ _ _ _ Hep Ht).
    destruct (decide (l = l0)) as [<-|Hne].
    + rewrite list_lookup_alter_eq in Hs.
      destruct (heap (mon w) !! l) as [s0|] eqn:Hs0; [|done]. injection Hs as <-.
      specialize (Hlog d l s0 Hl0 Hs0).
      rewrite !(weight_same _ _ _ _ _ Hloc). simpl. lia.
    + rewrite list_lookup_alter_ne in Hs by done.
      specialize (Hlog d l0 s Hl0 Hs).
      rewrite !(weight_other _ _ _ _ _ _ Hloc Hne). lia.
  - (* TExcept *)
    subst f0. injection Hts as <- <-.
    eapply log_ok_local; eauto.
    intros d. cbn [print out]. by rewrite logged_app, logged_except, Z.add_0_r.
Qed.

Lemma log_ok_out m0 eps w w' ts :
  mon w' = mon w -> (forall d, logged d (out w') = logged d (out w)) ->
  log_ok m0 eps w ts -> log_ok m0 eps w' ts.
Proof.
  intros Hmon Hout Hlog d l s Hl Hs. rewrite Hmon in Hs. rewrite Hout. eauto.
Qed.

Lemma acct_initial m eps :
  ready m -> Forall (fun s => s = mkStats 0 0) (heap m) ->
  acct m eps [] (initial m []).
Proof.
  intros [Hwf _] Hz. exists m, [], 0. split_and!; auto.
  - split; simpl; auto. intros l s0 Hs0. exists s0. split_and!; auto; lia.
  - intros d l s0 _ Hs0. by rewrite (Forall_lookup_1 _ _ _ _ Hz Hs0).
  - intros d l s _ Hs. simpl in *. by rewrite (Forall_lookup_1 _ _ _ _ Hz Hs).
  - by simpl.
Qed.

Lemma acct_step json_loads m eps tr c l c' :
  ready m -> iterate (endpoints m) = Ok eps ->
  acct m eps tr c -> step json_loads c l c' -> acct m eps (tr ++ [l]) c'.
Proof.
  intros [Hwfm (eps0 & Hit0 & Hall)] Hit
         (m0 & batch & B & Hwf & Hs & He & Hinv & Hbase & Hlog & Hph) Hstep.
  assert (eps0 = eps) as -> by congruence.
  unfold acct. setoid_rewrite joins_snoc.
  inversion Hstep; subst; simpl in *.
  - (* Start *)
    destruct Hph as (-> & -> & HJ).
    pose proof (Forall2_nil_inv_l _ _ (pi_tracks _ _ _ _ Hinv)) as ->.
    exists m0, [], 0. split_and!; auto.
    + by eapply pool_inv_out; [|eauto].
    + eapply log_ok_out; [| |eauto]; [done|]. intros d. cbn [print out].
      rewrite logged_app. simpl. lia.
    + left. split_and!; auto; lia.
  - exists m0, batch, B. split_and!; auto.
  - (* Submit *)
    destruct Hph as (Hdone & Hcase).
    pose proof (pi_endpoints _ _ _ _ Hinv) as He'.
    pose proof (pi_stats _ _ _ _ Hinv) as Hs'.
    assert (eps0 = eps) as -> by congruence.
    pose proof (pool_inv_wf _ _ _ _ Hwf Hinv) as Hwfw.
    exists (mon w), eps, (joins tr). split_and!; try congruence.
    + apply pool_inv_fresh; [done|].
      eapply Forall_impl; [exact Hall|]. intros ep (f & Hf & Hin). exists f.
      split; [done|]. by rewrite Hs', Hs.
    + intros d l0 s0 Hl0 Hs0.
      assert (Hlt : (l0 < length (heap m0))%nat).
      { rewrite <- (pi_length _ _ _ _ Hinv). by eapply lookup_lt_Some. }
      destruct (lookup_lt_is_Some_2 _ _ Hlt) as [sb Hsb].
      destruct (pi_counts _ _ _ _ Hinv l0 sb Hsb) as (s' & Hs1 & Htot & _).
      rewrite Hs0 in Hs1. injection Hs1 as <-.
      rewrite Htot, (Hbase d l0 sb Hl0 Hsb).
      assert (Hl0' : assoc d (stats m0) = Some l0) by (by rewrite Hs).
      rewrite (tally_done _ _ _ _ _ Hwf Hl0' (pi_tracks _ _ _ _ Hinv) Hdone).
      destruct Hcase as [(-> & -> & ->)|(-> & ->)]; simpl; lia.
    + intros d l0 s Hl0 Hs0. rewrite tally_fresh by done.
      assert (Hl0' : assoc d (stats m0) = Some l0) by congruence.
      specialize (Hlog d l0 s Hl0' Hs0).
      rewrite tally_pending_done in Hlog by done. lia.
    + lia.
  - exists m0, batch, B. split_and!; auto.
  - (* a worker *)
    inversion H as [send w0 ts0 t w1 t' Ht Hrun Hts]; subst.
    assert (Hph' : phase eps p batch B (joins tr + 0) (<[i := t']> ts)).
    { rewrite Z.add_0_r. destruct p; simpl in *; auto.
      - destruct Hph as [Hd _]. destruct (not_all_done _ _ _ Ht Hrun Hd).
      - destruct Hph as (_ & Hd & _). destruct (not_all_done _ _ _ Ht Hrun Hd).
      - destruct Hph as (_ & Hd & _). destruct (not_all_done _ _ _ Ht Hrun Hd). }
    exists m0, batch, B. split_and!; auto.
    + by eapply pool_inv_step.
    + by eapply log_ok_step.
  - (* Join *)
    destruct Hph as (-> & ->). exists m0, eps, B. split_and!; auto.
  - (* Report *)
    destruct Hph as (-> & Hd & HJ). exists m0, eps, B. split_and!; auto; try lia.
    + by eapply pool_inv_out; [|eauto].
    + eapply log_ok_out; [| |eauto]; [done|]. intros d. cbn [log_results out].
      rewrite logged_app, logged_report. lia.
  - (* Sleep *)
    destruct Hph as (-> & Hd & HJ). exists m0, eps, B. split_and!; auto.
    right. split; [done|lia].
  - (* Interrupt *)
    exists m0, batch, B. split_and!; auto.
    + by eapply pool_inv_out; [|eauto].
    + eapply log_ok_out; [| |eauto]; [done|]. intros d. cbn [print out].
      rewrite logged_app. simpl. lia.
  - exists m0, batch, B. split_and!; auto.
Qed.

Lemma acct_exec json_loads m eps tr c :
  ready m -> iterate (endpoints m) = Ok eps ->
  Forall (fun s => s = mkStats 0 0) (heap m) ->
  exec json_loads (initial m []) tr c -> acct m eps tr c.
Proof.
  intros Hr Hit Hz Hex. remember (initial m []) as c0 eqn:Hc0.
  induction Hex as [c|c tr c' l c'' _ IH Hstep]; subst.
  - by apply acct_initial.
  - eapply acct_step; eauto.
Qed.

Lemma acct_counters m eps tr c d l :
  acct m eps tr c -> assoc d (stats m) = Some l ->
  exists s, heap (mon (world c)) !! l = Some s /\
            counters (mon (world c)) d = Some s /\
            deref (mon (world c)) l = s.
Proof.
  intros (m0 & batch & B & Hwf & Hs & _ & Hinv & _) Hl.
  pose proof (pool_inv_wf _ _ _ _ Hwf Hinv) as [Hb _].
  assert (Hl' : assoc d (stats (mon (world c))) = Some l)
    by (by rewrite (pi_stats _ _ _ _ Hinv), Hs).
  destruct (lookup_lt_is_Some_2 _ _ (Hb _ _ Hl')) as [s Hsl].
  exists s. unfold counters, deref. rewrite Hl'. simpl. by rewrite Hsl.
Qed.

(** X13. When a report is about to be printed, and until the next pass is
    submitted, every domain shows as attempted the number of passes made so
    far times the number of configured endpoints of that domain, and as
    succeeded the number of SUCCESS lines printed so far for its URLs; the
    report has the line made of these two numbers. *)
Theorem X13_report_after_k_passes json_loads loaded m eps tr c d l :
  __init__ loaded = ([], Returns m) ->
  iterate (endpoints m) = Ok eps ->
  exec json_loads (initial m []) tr c ->
  pc c = AtReport \/ pc c = AtSleep ->
  assoc d (stats m) = Some l ->
  exists s,
    counters (mon (world c)) d = Some s /\
    total s = joins tr * probes_of d eps /\
    success s = logged d (out (world c)) /\
    In (LText (report_line d s)) (report (mon (world c))).
Proof.
  intros Hinit Hit Hex Hpc Hl.
  destruct (init_ready _ _ _ Hinit) as (Hr & _ & _ & Hz).
  pose proof (acct_exec json_loads m eps tr c Hr Hit Hz Hex) as Hacct.
  destruct (acct_counters _ _ _ _ _ _ Hacct Hl) as (s & Hsl & Hc & Hderef).
  destruct Hacct as (m0 & batch & B & Hwf & Hs & _ & Hinv & Hbase & Hlog & Hph).
  assert (Hph' : batch = eps /\ forallb done (pool c) = true /\ joins tr = B + 1)
    by (destruct Hpc as [E|E]; rewrite E in Hph; exact Hph).
  destruct Hph' as (-> & Hdone & HJ).
  assert (Hl0 : assoc d (stats m0) = Some l) by congruence.
  exists s. split_and!; auto.
  - destruct (lookup_lt_is_Some_2 (heap m0) l) as [s0 Hs0];
      [by eapply (wf_bound _ Hwf)|].
    destruct (pi_counts _ _ _ _ Hinv l s0 Hs0) as (s' & Hs' & Htot & _).
    rewrite Hsl in Hs'. injection Hs' as <-.
    rewrite Htot, (Hbase d l s0 Hl Hs0), HJ.
    rewrite (tally_done _ _ _ _ _ Hwf Hl0 (pi_tracks _ _ _ _ Hinv) Hdone). lia.
  - specialize (Hlog d l s Hl0 Hsl). rewrite tally_pending_done in Hlog by done. lia.
  - unfold report. apply in_app_iff. right. apply in_app_iff. left.
    apply in_map_iff. exists (d, l). simpl. rewrite Hderef. split; [done|].
    apply assoc_In. by rewrite (pi_stats _ _ _ _ Hinv), Hs.
Qed.

(** X14. At every point of every run, the succeeded counter of a domain is
    at most the number of SUCCESS lines printed for URLs of that domain: the
    line is printed before the success is counted.  Whenever no worker is in
    progress the two are equal, so every counted success has its line and
    every line its count. *)
Theorem X14_success_lines json_loads loaded m eps tr c d s :
  __init__ loaded = ([], Returns m) ->
  iterate (endpoints m) = Ok eps ->
  exec json_loads (initial m []) tr c ->
  counters (mon (world c)) d = Some s ->
  success s <= logged d (out (world c)) /\
  (forallb done (pool c) = true -> success s = logged d (out (world c))).
Proof.
  intros Hinit Hit Hex Hc.
  destruct (init_ready _ _ _ Hinit) as (Hr & _ & _ & Hz).
  pose proof (acct_exec json_loads m eps tr c Hr Hit Hz Hex) as Hacct.
  assert (Hl : exists l, assoc d (stats m) = Some l).
  { destruct Hacct as (m0 & batch & B & _ & Hs & _ & Hinv & _).
    unfold counters in Hc. rewrite (pi_stats _ _ _ _ Hinv), Hs in Hc.
    destruct (assoc d (stats m)); [eauto|done]. }
  destruct Hl as [l Hl].
  destruct (acct_counters _ _ _ _ _ _ Hacct Hl) as (s' & Hsl & Hc' & _).
  rewrite Hc in Hc'. injection Hc' as <-.
  destruct Hacct as (m0 & batch & B & Hwf & Hs & _ & Hinv & _ & Hlog & _).
  assert (Hl0 : assoc d (stats m0) = Some l) by congruence.
  specialize (Hlog d l s Hl0 Hsl).
  pose proof (tally_le pending pending m0 l batch (pool c) (fun t H => H)) as [H0 _].
  split; [lia|]. intros Hdone. rewrite tally_pending_done in Hlog by done. lia.
Qed.

Lemma tstep_mon json_loads send w t w' t' :
  tstep json_loads send w t = (w', t') ->
  (forall f, t <> TCreate f) ->
  mon w' = mon w \/
  exists l, mon w' = on_object increment_total l (mon w) \/
            mon w' = on_object increment_success l (mon w).
Proof.
  intros Hstep Hno. destruct t; simpl in Hstep;
    repeat match type of Hstep with
           | context [match ?x with _ => _ end] => destruct x
           end; injection Hstep as <- <-; simpl; eauto.
  by destruct (Hno f).
Qed.

Lemma counters_on_object_mono g l m d s :
  (forall x, total x <= total (g x) /\ success x <= success (g x)) ->
  counters m d = Some s ->
  exists s', counters (on_object g l m) d = Some s' /\
             total s <= total s' /\ success s <= success s'.
Proof.
  intros Hg. unfold counters, deref. simpl.
  destruct (assoc d (stats m)) as [l'|]; [|done]. simpl. intros [= <-].
  eexists; split; [reflexivity|].
  destruct (decide (l = l')) as [<-|Hne].
  - rewrite list_lookup_alter_eq. destruct (heap m !! l) as [x|]; simpl; [apply Hg|lia].
  - rewrite list_lookup_alter_ne by done. lia.
Qed.

Lemma step_counters_mono json_loads m c l c' d s :
  main_inv m c -> step json_loads c l c' ->
  counters (mon (world c)) d = Some s ->
  exists s', counters (mon (world c')) d = Some s' /\
             total s <= total s' /\ success s <= success s' /\
             stats (mon (world c')) = stats (mon (world c)).
Proof.
  intros Hinv Hstep Hc.
  inversion Hstep; subst; simpl in *;
    try (exists s; split_and!; auto; lia).
  inversion H as [send w0 ts0 t w1 t' Ht Hrun Hts]; subst.
  destruct (main_inv_threads _ _ _ _ Hinv Ht) as [Hno _].
  destruct (tstep_mon _ _ _ _ _ _ Hts Hno) as [->|[l0 [-> | ->]]].
  - exists s. split_and!; auto; lia.
  - destruct (counters_on_object_mono increment_total l0 (mon w) d s) as (s' & ? & ? & ?);
      [intros x; simpl; lia|done|]. exists s'. split_and!; auto.
  - destruct (counters_on_object_mono increment_success l0 (mon w) d s) as (s' & ? & ? & ?);
      [intros x; simpl; lia|done|]. exists s'. split_and!; auto.
Qed.

(** X15. Along every run, a domain never leaves the dictionary and neither
    of its counters ever decreases: nothing is reset or dropped while the
    monitor runs. *)
Theorem X15_counters_never_decrease json_loads loaded printed m tr c tr' c' d s :
  __init__ loaded = (printed, Returns m) ->
  exec json_loads (initial m printed) tr c ->
  exec json_loads c tr' c' ->
  counters (mon (world c)) d = Some s ->
  exists s', counters (mon (world c')) d = Some s' /\
             total s <= total s' /\ success s <= success s' /\
             stats (mon (world c')) = stats (mon (world c)).
Proof.
  intros Hinit Hex Hex' Hc.
  destruct (init_heap_ok _ _ _ Hinit) as [Hr Hok].
  induction Hex' as [c|c tr1 c1 l c2 Hex1 IH Hstep].
  - exists s. split_and!; auto; lia.
  - destruct (IH Hex Hc) as (s1 & Hc1 & Ht1 & Hs1 & Hst1).
    assert (Hinv : main_inv m c1).
    { eapply main_inv_exec; eauto. eapply exec_trans; eauto. }
    destruct (step_counters_mono json_loads m c1 l c2 d s1 Hinv Hstep Hc1)
      as (s2 & Hc2 & Ht2 & Hs2 & Hst2).
    exists s2. split_and!; auto; try lia. congruence.
Qed.

Lemma assoc_NoDup {A} d (v : A) st :
  NoDup (map fst st) -> In (d, v) st -> assoc d st = Some v.
Proof.
  induction st as [|[k x] st IH]; simpl; [done|].
  intros Hnd [[= -> ->]|Hin].
  - by rewrite String.eqb_refl.
  - apply NoDup_cons in Hnd as [Hk Hnd].
    destruct (String.eqb_spec k d) as [->|_]; [|auto].
    exfalso. apply Hk, list_elem_of_In, in_map_iff. by exists (d, v).
Qed.

Lemma init_keys eps m :
  __init__ (Ok (VList eps)) = ([], Returns m) ->
  exists ds,
    Forall2 (fun ep d => endpoint_domain ep = Ok d) eps ds /\
    map fst (stats m) = first_seen [] ds /\
    NoDup (map fst (stats m)).
Proof.
  intros Hinit. unfold __init__, _load_config, _initialize_stats in Hinit. simpl in Hinit.
  destruct (initialize_loop eps (mkMonitor (VList eps) [] [])) as [m'|] eqn:Hloop; [|done].
  injection Hinit as ->.
  destruct (initialize_loop_keys _ _ _ Hloop) as (ds & Hall & Hk & _). simpl in *.
  exists ds. split_and!; auto. rewrite Hk. apply first_seen_NoDup.
Qed.

(** X16. For a configuration that is a list, every report of every run has
    one line for each distinct domain of the endpoints, in the order in
    which the list first mentions them, between the header and the closing
    line. *)
Theorem X16_report_in_first_seen_order json_loads eps m tr c :
  __init__ (Ok (VList eps)) = ([], Returns m) ->
  exec json_loads (initial m []) tr c ->
  exists ds,
    Forall2 (fun ep d => endpoint_domain ep = Ok d) eps ds /\
    report (mon (world c))
    = ([LReportHeader]
       ++ map (fun d => LText (report_line d (before (mon (world c)) d))) (first_seen [] ds)
       ++ [LReportEnd])%list.
Proof.
  intros Hinit Hex.
  destruct (init_keys eps m Hinit) as (ds & Hall & Hk & Hnd).
  destruct (init_heap_ok _ _ _ Hinit) as [Hr Hok].
  pose proof (main_inv_exec json_loads _ _ _ _ Hr Hok Hex)
    as (m0 & batch & _ & _ & _ & Hs & _ & Hinv).
  exists ds. split; [done|]. unfold report. do 2 f_equal.
  assert (Hst : stats (mon (world c)) = stats m) by (by rewrite (pi_stats _ _ _ _ Hinv)).
  rewrite <- Hk, <- Hst, map_map. apply map_ext_in. intros [d l] Hin. simpl.
  unfold before, counters. rewrite (assoc_NoDup d l); [done| |done]. by rewrite Hst.
Qed.

(* ===================================================================== *)
(** * The books at work on the sample configuration                      *)
(* ===================================================================== *)

Lemma X13_witness :
  exists s,
    counters (mon (world (sample_pass sample_loads))) "example.com" = Some s /\
    total s = joins sample_trace * probes_of "example.com" [endpoint_up; endpoint_down] /\
    success s = logged "example.com" (out (world (sample_pass sample_loads))) /\
    In (LText (report_line "example.com" s))
       (report (mon (world (sample_pass sample_loads)))).
Proof.
  exact (X13_report_after_k_passes sample_loads (Ok sample_config) sample_monitor
           [endpoint_up; endpoint_down] sample_trace (sample_pass sample_loads)
           "example.com" 0%nat eq_refl eq_refl sample_pass_exec (or_introl eq_refl)
           eq_refl).
Defined.

Lemma X14_witness :
  success (mkStats 1 2) <= logged "example.com" (out (world (sample_pass sample_loads))) /\
  (forallb done (pool (sample_pass sample_loads)) = true ->
   success (mkStats 1 2) = logged "example.com" (out (world (sample_pass sample_loads)))).
Proof.
  exact (X14_success_lines sample_loads (Ok sample_config) sample_monitor
           [endpoint_up; endpoint_down] sample_trace (sample_pass sample_loads)
           "example.com" (mkStats 1 2) eq_refl eq_refl sample_pass_exec eq_refl).
Defined.

Lemma X15_witness :
  exists s',
    counters (mon (world (sample_pass sample_loads))) "example.com" = Some s' /\
    total (mkStats 0 0) <= total s' /\ success (mkStats 0 0) <= success s' /\
    stats (mon (world (sample_pass sample_loads)))
    = stats (mon (world (initial sample_monitor []))).
Proof.
  exact (X15_counters_never_decrease sample_loads (Ok sample_config) [] sample_monitor
           [] (initial sample_monitor []) sample_trace (sample_pass sample_loads)
           "example.com" (mkStats 0 0) eq_refl (exec_nil _ _) sample_pass_exec eq_refl).
Defined.

Lemma X16_witness :
  exists ds,
    Forall2 (fun ep d => endpoint_domain ep = Ok d) [endpoint_up; endpoint_down] ds /\
    report (mon (world (sample_pass sample_loads)))
    = ([LReportHeader]
       ++ map (fun d => LText (report_line d (before (mon (world (sample_pass sample_loads))) d)))
              (first_seen [] ds)
       ++ [LReportEnd])%list.
Proof.
  exact (X16_report_in_first_seen_order sample_loads [endpoint_up; endpoint_down]
           sample_monitor sample_trace (sample_pass sample_loads) eq_refl
           sample_pass_exec).
Defined.

(* ===================================================================== *)
(** * The keywords of the request                                        *)
(* ===================================================================== *)

(** X17. A probe whose payload is computed sends one request with the
    method, URL and headers of the endpoint and a timeout of half a second,
    and never both [json=] and [data=].  The payload goes out as [json=]
    exactly when it is a mapping: a non-empty mapping given as body under
    headers that are not flagged as JSON, or a string body under flagged
    headers that parses to an object.  A flagged body that parses to
    anything else (a list, a number, a string) goes out, parsed, as
    [data=]. *)
Theorem X17_json_keyword_only_for_objects json_loads send f data :
  payload json_loads f = Ok data ->
  let r := build_request f data in
  attempt json_loads send f = send r /\
  (req_method r, req_url r, req_headers r, req_timeout r)
  = (method f, url f, headers f, 1 # 2) /\
  (req_json r = VNone \/ req_data r = VNone) /\
  (is_dict (req_json r) = true <->
   (is_dict (body f) = true /\ truthy (body f) = true /\
    json_flagged (headers f) = Ok false) \/
   (exists s d, body f = VStr s /\ truthy (body f) = true /\
                json_flagged (headers f) = Ok true /\
                json_loads s = Ok (VDict d))) /\
  (forall s v, body f = VStr s -> truthy (body f) = true ->
               json_flagged (headers f) = Ok true ->
               json_loads s = Ok v -> is_dict v = false ->
               req_json r = VNone /\ req_data r = v).
Proof.
  intros Hp r. subst r. split_and!.
  - unfold attempt. by rewrite Hp.
  - done.
  - unfold build_request. simpl. destruct (is_dict data); auto.
  - unfold build_request. simpl. unfold payload in Hp.
    destruct (truthy (body f)) eqn:Htr.
    + destruct (json_flagged (headers f)) as [[|]|e] eqn:Hfl; simpl in Hp; [| |done].
      * unfold loads_or_raw in Hp. destruct (body f) as [| | | |s| |] eqn:Hb; try done.
        destruct (json_loads s) as [v|e] eqn:Hl; simpl.
        -- injection Hp as <-. destruct (is_dict v) eqn:Hd; simpl.
           ++ split; [|done]. intros _. right. destruct v; try done. eauto 10.
           ++ split; [done|]. intros [(? & _)|(s' & d' & [= <-] & _ & _ & Hl')]; [done|].
              rewrite Hl in Hl'. injection Hl' as ->. done.
        -- destruct (is_decode_error e); [|done]. injection Hp as <-. simpl.
           split; [done|]. intros [(? & _)|(s' & d' & [= <-] & _ & _ & Hl')]; [done|].
           congruence.
      * injection Hp as <-. destruct (is_dict (body f)) eqn:Hd; simpl.
        -- rewrite Hd. split; auto.
        -- split; [done|]. intros [(? & _)|(s' & d' & _ & _ & ? & _)]; done.
    + injection Hp as <-. simpl. split; [done|].
      intros [(_ & ? & _)|(s' & d' & _ & ? & _)]; done.
  - intros s v Hb Htr Hfl Hl Hd. unfold build_request. simpl. unfold payload in Hp.
    rewrite Htr, Hfl, Hb in Hp. simpl in Hp. rewrite Hl in Hp. injection Hp as <-.
    by rewrite Hd.
Qed.

Lemma X17_witness :
  attempt sample_loads sample_send
          (frame_with [("content-type", VStr "application/json")] "{}")
  = sample_send (build_request (frame_with [("content-type", VStr "application/json")] "{}")
                               (VDict [])).
Proof.
  exact (proj1 (X17_json_keyword_only_for_objects sample_loads sample_send
                  (frame_with [("content-type", VStr "application/json")] "{}")
                  (VDict []) eq_refl)).
Defined.

(* ===================================================================== *)
(** * The lines of the main thread and those of the probes               *)
(* ===================================================================== *)

Lemma main_lines_app o o' : main_lines (o ++ o') = (main_lines o ++ main_lines o')%list.
Proof. apply List.filter_app. Qed.

Lemma reports_snoc tr l :
  reports (tr ++ [l]) = (reports tr + match l with Report => 1 | _ => 0 end)%nat.
Proof. unfold reports. rewrite List.filter_app, length_app. by destruct l. Qed.

Lemma except_line_url u e : line_url (except_line u e) = Some u.
Proof. unfold except_line. by destruct (exn_class e). Qed.

Lemma main_lines_probe o l :
  probe_line l = true -> main_lines (o ++ [l]) = main_lines o.
Proof. intros Hl. rewrite main_lines_app. unfold main_lines at 2. simpl. rewrite Hl. apply app_nil_r. Qed.

(** A step of a probe prints nothing, or one line with the probe's URL. *)
Lemma tstep_out json_loads send w t w' t' :
  tstep json_loads send w t = (w', t') ->
  out w' = out w \/
  exists l f, out w' = (out w ++ [l])%list /\ frame_of t = Some f /\
              line_url l = Some (url f).
Proof.
  intros Hstep. destruct t; simpl in Hstep;
    repeat match type of Hstep with
           | context [match ?x with _ => _ end] => destruct x
           end; injection Hstep as <- <-; simpl; auto;
    right; eexists _, _; split_and!; eauto using except_line_url.
Qed.

Lemma tstep_main_lines json_loads send w t w' t' :
  tstep json_loads send w t = (w', t') -> main_lines (out w') = main_lines (out w).
Proof.
  intros [->|(l & f & -> & _ & Hl)]%tstep_out; [done|].
  apply main_lines_probe. unfold probe_line. by rewrite Hl.
Qed.

Lemma report_main_lines m l : In l (report m) -> line_url l = None.
Proof.
  unfold report. intros [[<-|[]]|[(x & <- & _)%in_map_iff|[<-|[]]]%in_app_iff]%in_app_iff;
    reflexivity.
Qed.

Lemma main_lines_id o : (forall l, In l o -> line_url l = None) -> main_lines o = o.
Proof.
  induction o as [|l o IH]; intros H; simpl; [done|].
  unfold probe_line. rewrite (H l) by (by left). simpl. f_equal. apply IH.
  intros l' Hl'. apply H. by right.
Qed.

Lemma works_on_frame eps t f :
  works_on eps t -> frame_of t = Some f -> exists ep, In ep eps /\ locals ep = Ok f.
Proof.
  destruct t; simpl; intros Hon Hf; try discriminate;
    destruct Hon as (ep & f1 & Hin & Hloc & Hf1); exists ep; split; congruence.
Qed.

Lemma tstep_works_on json_loads send eps w t w' t' :
  works_on eps t -> tstep json_loads send w t = (w', t') -> works_on eps t'.
Proof.
  intros Hon Hstep. destruct t; simpl in Hstep, Hon;
    repeat match type of Hstep with
           | context [match ?x with _ => _ end] => destruct x eqn:?
           end;
    injection Hstep as <- <-; simpl; try exact I; try assumption;
    eexists _, _; split_and!; by eauto.
Qed.

(** What the main thread has printed, along every run *)
Lemma main_lines_exec json_loads m eps tr c :
  ready m -> heap_ok m -> iterate (endpoints m) = Ok eps ->
  exec json_loads (initial m []) tr c ->
  exists blocks,
    main_lines (out (world c))
    = ((if entered (pc c) then [LStarting (Z.of_nat (length eps))] else [])
       ++ concat blocks
       ++ match pc c with Stopped => [LStopped] | _ => [] end)%list /\
    length blocks = reports tr /\
    (entered (pc c) = false -> blocks = []) /\
    Forall (fun b => exists tr1 c1,
                exec json_loads (initial m []) tr1 c1 /\ pc c1 = AtReport /\
                b = report (mon (world c1))) blocks.
Proof.
  intros Hr Hok Hit Hex. remember (initial m []) as c0 eqn:Hc0.
  induction Hex as [c|c tr c' l c'' Hex IH Hstep]; subst.
  - exists []. split_and!; auto.
  - destruct (IH eq_refl) as (blocks & Hml & Hlen & Hnil & Hall).
    pose proof (main_inv_exec json_loads _ _ _ _ Hr Hok Hex) as Hmain.
    pose proof (step_no_crash json_loads _ _ _ _ Hr Hmain Hstep) as Hnc.
    destruct Hmain as (m0 & eps' & _ & _ & He & _ & _ & Hinv).
    pose proof (pi_endpoints _ _ _ _ Hinv) as He'.
    rewrite reports_snoc.
    inversion Hstep as [w ts n Hn| | | |p w ts w' ts' i Hpool| |w ts| |p w ts Htry|];
      subst; simpl in *; try (by destruct Hnc); rewrite ?Nat.add_0_r.
    + rewrite He', He, (iterate_len _ _ Hit) in Hn. injection Hn as <-.
      pose proof (Hnil eq_refl) as ->. exists []. rewrite main_lines_app, Hml.
      split_and!; auto.
    + exists blocks. split_and!; auto.
    + inversion Hpool as [send w0 ts0 t w1 t' Ht Hrun Hts]; subst.
      exists blocks. rewrite (tstep_main_lines _ _ _ _ _ _ Hts).
      split_and!; auto.
    + exists blocks. split_and!; auto.
    + exists (blocks ++ [report (mon w)])%list.
      rewrite main_lines_app, Hml, (main_lines_id (report (mon w)))
        by apply report_main_lines.
      rewrite concat_app, length_app. simpl. rewrite ?app_nil_r.
      split_and!; [done|lia|done|].
      apply Forall_app. split; [done|]. constructor; [|constructor].
      exists tr, (mkConfig AtReport w ts). auto.
    + exists blocks. split_and!; auto.
    + exists blocks. rewrite main_lines_app, Hml.
      destruct p; try discriminate; simpl; rewrite ?app_nil_r, <- ?app_assoc;
        split_and!; auto.
    + exists blocks. split_and!; auto.
Qed.

(** Every worker comes from the configuration, and so does every URL a
    line of a probe names. *)
Lemma probe_lines_exec json_loads m eps tr c :
  ready m -> heap_ok m -> iterate (endpoints m) = Ok eps ->
  exec json_loads (initial m []) tr c ->
  Forall (works_on eps) (pool c) /\
  forall l u, In l (out (world c)) -> line_url l = Some u ->
              exists ep, In ep eps /\ getitem ep "url" = Ok u.
Proof.
  intros Hr Hok Hit Hex. remember (initial m []) as c0 eqn:Hc0.
  induction Hex as [c|c tr c' l c'' Hex IH Hstep]; subst.
  - split; [constructor|]. intros l u [].
  - destruct (IH eq_refl) as [Hpool Hout].
    pose proof (main_inv_exec json_loads _ _ _ _ Hr Hok Hex)
      as (m0 & eps' & _ & _ & He & _ & _ & Hinv).
    pose proof (pi_endpoints _ _ _ _ Hinv) as He'.
    assert (Hsnoc : forall o x, (forall l u, In l o -> line_url l = Some u ->
                                   exists ep, In ep eps /\ getitem ep "url" = Ok u) ->
                                line_url x = None ->
                                forall l u, In l (o ++ [x]) -> line_url l = Some u ->
                                  exists ep, In ep eps /\ getitem ep "url" = Ok u).
    { intros o x Ho Hx l0 u [Hin|[<-|[]]]%in_app_iff Hu; [eauto|congruence]. }
    inversion Hstep as [| |w ts eps1 Hit1| |p w ts w' ts' i Hpool'| |w ts| | |];
      subst; simpl in *.
    + split; [done|]. by apply Hsnoc.
    + by split.
    + split; [|done]. rewrite He', He, Hit in Hit1. injection Hit1 as <-.
      clear. induction eps as [|ep eps IH]; simpl; constructor; [by left|].
      eapply Forall_impl; [exact IH|]. intros t Ht. destruct t; simpl in *; auto.
      all: destruct Ht as (ep' & f' & ? & ? & ?); eauto 10.
    + by split.
    + inversion Hpool' as [send w0 ts0 t w1 t' Ht Hrun Hts]; subst.
      pose proof (Forall_lookup_1 _ _ _ _ Hpool Ht) as Hon.
      split.
      * apply Forall_insert; [done|]. eapply tstep_works_on; eauto.
      * destruct (tstep_out _ _ _ _ _ _ Hts) as [->|(l0 & f & -> & Hfr & Hl0)]; [done|].
        intros l1 u [Hin|[<-|[]]]%in_app_iff Hu; [eauto|].
        rewrite Hl0 in Hu. injection Hu as <-.
        destruct (works_on_frame _ _ _ Hon Hfr) as (ep & Hin & Hloc).
        exists ep. split; [done|].
        destruct (locals_inv _ _ Hloc) as (d & u0 & -> & _ & Hu0 & <- & _).
        simpl. by rewrite Hu0.
    + by split.
    + split; [done|]. intros l0 u [Hin|Hin]%in_app_iff Hu; [eauto|].
      rewrite (report_main_lines _ _ Hin) in Hu. discriminate.
    + by split.
    + split; [done|]. by apply Hsnoc.
    + by split.
Qed.


Lemma sample_report_exec :
  exec sample_loads (initial sample_monitor []) (sample_trace ++ [Report])
       (mkConfig AtSleep (log_results (world (sample_pass sample_loads)))
                 (pool (sample_pass sample_loads))).
Proof. apply (run_labels_exec sample_loads sample_send). by vm_compute. Qed.


End Monitor.
